(** * versioner: the version model and the placeholder-substitution engine

    A shallow embedding of [src/cli/version.ts], [src/cli/commands.ts] and
    the functions of [src/cli/utils.ts] that they use, with
    [formatFileSize].

    Modelling conventions.
    - A JavaScript string is a [string]: a sequence of 8-bit characters
      (the Latin-1 range of UTF-16 code units).  Within that range the line
      terminators of the regular-expression dialect are LF and CR.
    - A JavaScript [number] is a double.  One that holds an integer is
      the [Z] it denotes: the schema of a version only admits integers.
      Every integer below 2^53 in magnitude is a number; an operation on
      numbers gives the number nearest to its exact result
      ([to_Number]), and a number is printed with the fewest digits that
      denote it ([Number_toString]).
    - [T | null] and [T | undefined] are [option T]; a value is "truthy"
      as JavaScript defines it ([undefined], [null], [false] and the empty
      string are not).
    - Code that may throw lives in a state-and-exception monad over a
      [World]: the file system, the console, and a schedule of I/O faults.
    - In [formatFileSize] a number is divided, so that it is held as the
      rational [Q] it denotes: a division by 1024 is exact on the numbers
      of the language.
    - [path.join], [glob] and [JSON.parse] are services of the platform
      ([Platform]): the code is verified for every behaviour of theirs.
    - A path of the file system names a node of its own: links, and two
      spellings of one path, are not modelled.  The laws of whole
      invocations of [handleCopyTo] are therefore stated on its write
      calls and on the paths the engine reads, for a target that names a
      file or a directory. *)

From Stdlib Require Import ZArith String Ascii List Bool Lia.
From Stdlib Require Import DecimalString DecimalFacts DecimalPos DecimalN DecimalZ.
From Stdlib Require Import QArith Qround Qabs.
From stdpp Require Import gmap strings.

Local Open Scope string_scope.
Local Open Scope list_scope.
Local Open Scope stdpp_scope.

(** [simpl] may unfold a concatenation whose first string starts with a
    character. *)
#[local] Arguments String.append !_ _ /.

(* ================================================================== *)
(** ** JavaScript primitives used by the code *)
(* ================================================================== *)

Module Js.

(** Line feed, carriage return and the double quote, by character code. *)
Definition LF : ascii := "010"%char.
Definition CR : ascii := "013"%char.
Definition DQ : ascii := "034"%char.

(** The value of a decimal digit character; [None] for any other one. *)
Definition digit_value (c : ascii) : option Z :=
  match c with
  | "0"%char => Some 0%Z | "1"%char => Some 1%Z | "2"%char => Some 2%Z
  | "3"%char => Some 3%Z | "4"%char => Some 4%Z | "5"%char => Some 5%Z
  | "6"%char => Some 6%Z | "7"%char => Some 7%Z | "8"%char => Some 8%Z
  | "9"%char => Some 9%Z
  | _ => None
  end.

(** The character class [\d]. *)
Definition is_digit (c : ascii) : bool :=
  match digit_value c with Some _ => true | None => false end.

(** The characters the pattern [.] does not match. *)
Definition is_line_terminator (c : ascii) : bool :=
  if ascii_dec c LF then true else if ascii_dec c CR then true else false.

(** Truthiness of an optional string: defined and not empty. *)
Definition truthy_string (o : option string) : option string :=
  match o with
  | Some (String c s) => Some (String c s)
  | _ => None
  end.

(** Truthiness of an optional boolean. *)
Definition truthy_bool (o : option bool) : bool :=
  match o with Some true => true | _ => false end.

(** *** Numbers *)

(** [k] times the digit zero. *)
Fixpoint zeros (k : nat) : string :=
  match k with
  | O => EmptyString
  | S k' => String "0" (zeros k')
  end.

(** The decimal numeral of an integer. *)
Definition decimal (z : Z) : string := NilZero.string_of_int (Z.to_int z).

(** A number has 53 significant bits.  Among the integers [n] with
    [2 ^ (52 + e) <= n < 2 ^ (53 + e)], where [e >= 0], the numbers are
    the multiples of [2 ^ e]: every integer below 2^53, every second one
    up to 2^54, and so on. *)
Definition ulp_exponent (n : Z) : Z := Z.max 0 (Z.log2 n - 52).

(** The number nearest to an integer [n] that is not negative; of two
    numbers equally near, the one with the even significand. *)
Definition round_nearest_even (n : Z) : Z :=
  let u := (2 ^ ulp_exponent n)%Z in
  let q := (n / u)%Z in
  let r := (n mod u)%Z in
  if (2 * r <? u)%Z then (q * u)%Z
  else if (u <? 2 * r)%Z then ((q + 1) * u)%Z
  else if Z.even q then (q * u)%Z else ((q + 1) * u)%Z.

(** The number nearest to an integer: the value of an arithmetic
    operation whose exact result is [z].  The operations of the code, a
    number plus or minus one, do not overflow. *)
Definition to_Number (z : Z) : Z := (Z.sgn z * round_nearest_even (Z.abs z))%Z.

(** The integer is a number of the language. *)
Definition is_Number (z : Z) : Prop :=
  to_Number z = z /\ (Z.abs z < 2 ^ 1024)%Z.

(** What [parseInt] returns. *)
Inductive number : Type :=
| NaN
| Infinity
| Integer (z : Z).

(** The number for an integer that is not negative: the nearest one, and
    [Infinity] when that is 2^1024 or more. *)
Definition Number_of (n : Z) : number :=
  let x := round_nearest_even n in
  if (x <? 2 ^ 1024)%Z then Integer x else Infinity.

(** The integer that a run of digits denotes in base ten, up to the first
    other character. *)
Fixpoint parseInt_acc (acc : Z) (s : string) : Z :=
  match s with
  | String c s' =>
      match digit_value c with
      | Some d => parseInt_acc (10 * acc + d) s'
      | None => acc
      end
  | EmptyString => acc
  end.

(** [parseInt(s, 10)]: [NaN] without a leading digit, and otherwise the
    number nearest to the integer that the leading digits denote (the
    engine of Node reads all of them).  Signs and leading blanks, which
    the code never passes, are not modelled. *)
Definition parseInt (s : string) : number :=
  match s with
  | String c _ => if is_digit c then Number_of (parseInt_acc 0 s) else NaN
  | EmptyString => NaN
  end.

(** The digits of a number, for [Number::toString]: a pair [(s, j)]
    stands for the integer [s] followed by [j] zeros.  With [k] digits
    for [s], the candidates are the two integers of that form next to
    [x]; one is fit when [x] is the number nearest to it.  Of two fit
    candidates the nearer to [x] is taken, and the even one in a tie. *)
Definition shortest_at (x : Z) (d k : nat) : option (Z * nat) :=
  let j := (d - k)%nat in
  let p := (10 ^ Z.of_nat j)%Z in
  let q := (x / p)%Z in
  let low := (q, j) in
  let high :=
    if (q + 1 =? 10 ^ Z.of_nat k)%Z then (1%Z, (j + k)%nat) else ((q + 1)%Z, j) in
  match (to_Number (q * p) =? x)%Z, (to_Number ((q + 1) * p) =? x)%Z with
  | true, true =>
      if (x - q * p <? (q + 1) * p - x)%Z then Some low
      else if ((q + 1) * p - x <? x - q * p)%Z then Some high
      else if Z.even q then Some low else Some high
  | true, false => Some low
  | false, true => Some high
  | false, false => None
  end.

(** The fit candidate with the fewest digits, from [k] digits on. *)
Fixpoint shortest_from (x : Z) (d k fuel : nat) : option (Z * nat) :=
  match fuel with
  | O => None
  | S fuel' =>
      match shortest_at x d k with
      | Some c => Some c
      | None => shortest_from x d (S k) fuel'
      end
  end.

(** Seventeen digits are enough for every number; an integer that is no
    number has its own digits. *)
Definition shortest (x : Z) : Z * nat :=
  match shortest_from x (String.length (decimal x)) 1 17 with
  | Some c => c
  | None => (x, O)
  end.

(** The digits [m] in exponential notation, with the exponent [e]. *)
Definition exponential (m : string) (e : nat) : string :=
  match m with
  | String c EmptyString => String c ("e+" +:+ decimal (Z.of_nat e))
  | String c rest => String c ("." +:+ rest +:+ "e+" +:+ decimal (Z.of_nat e))
  | EmptyString => EmptyString
  end.

(** [Number::toString] on a positive integer: its fewest digits, in
    positional notation below 10^21 and in exponential notation from
    there on. *)
Definition Number_toString_positive (x : Z) : string :=
  let (s, j) := shortest x in
  let m := decimal s in
  if (s * 10 ^ Z.of_nat j <? 10 ^ 21)%Z then m +:+ zeros j
  else exponential m (String.length m + j - 1).

(** The string of a number that is an integer, as a template literal
    interpolates it. *)
Definition Number_toString (z : Z) : string :=
  if (z =? 0)%Z then "0"
  else if (z <? 0)%Z then "-" +:+ Number_toString_positive (- z)
  else Number_toString_positive z.

(** [s.startsWith(p)] is [String.prefix p s]; [s.includes(sub)] holds
    when [sub] starts at some position of [s]. *)
Fixpoint includes (s sub : string) : bool :=
  String.prefix sub s ||
  match s with
  | String _ s' => includes s' sub
  | EmptyString => false
  end.

(** The character occurs in the string. *)
Fixpoint occurs (c : ascii) (s : string) : bool :=
  match s with
  | String x s' => Ascii.eqb c x || occurs c s'
  | EmptyString => false
  end.

(** What follows the prefix [p] in [s], when [s] starts with [p]. *)
Fixpoint remove_prefix (p s : string) : option string :=
  match p with
  | EmptyString => Some s
  | String a p' =>
      match s with
      | String b s' => if Ascii.eqb a b then remove_prefix p' s' else None
      | EmptyString => None
      end
  end.

End Js.

(* ================================================================== *)
(** ** The runtime: file system, console, exceptions, JSON *)
(* ================================================================== *)

Module Node.
Import Js.

(** What a path of the file system names. *)
Inductive node : Type :=
| File (content : string)
| Directory.

(** What the code sends to the console sink: the leveled messages of
    [utils.ts] and the calls on the progress indicator. *)
Inductive event : Type :=
| ConsoleError (message : string)
| ConsoleWarning (message : string)
| ConsoleInfo (message : string)
| SpinnerStart (text : string)
| SpinnerText (text : string)
| SpinnerInfo (text : string)
| SpinnerFail (text : string)
| SpinnerSucceed (text : string).

(** The world a handler runs in.  [faults] schedules the hard I/O
    failures: every [readFileSync] and [writeFileSync] call takes the
    head of the list, and fails when it is [true] (an exhausted schedule
    means no more faults).  [console] and [writes] are logs, oldest entry
    first; [writes] records the [writeFileSync] calls that succeeded. *)
Record World : Type := mkWorld {
  fs : gmap string node;
  cwd : string;
  faults : list bool;
  console : list event;
  writes : list (string * string)
}.

(** A thrown [Error] and its [message].  Everything the modelled code
    throws is an [Error], so that the handlers' branch for other thrown
    values is never taken. *)
Inductive exn : Type := Error (message : string).

Definition message (e : exn) : string := match e with Error m => m end.

Inductive result (A : Type) : Type :=
| Ok (a : A)
| Throw (e : exn).
Arguments Ok {A} a.
Arguments Throw {A} e.

(** Computations over the world that return or throw. *)
Definition M (A : Type) : Type := World -> result A * World.

Definition ret {A : Type} (a : A) : M A := fun w => (Ok a, w).

Definition throw {A : Type} (e : exn) : M A := fun w => (Throw e, w).

Definition bind {A B : Type} (m : M A) (k : A -> M B) : M B :=
  fun w =>
    match m w with
    | (Ok a, w') => k a w'
    | (Throw e, w') => (Throw e, w')
    end.

(** [try { m } catch (err) { handler(err) }]. *)
Definition try_catch {A : Type} (m : M A) (handler : exn -> M A) : M A :=
  fun w =>
    match m w with
    | (Ok a, w') => (Ok a, w')
    | (Throw e, w') => handler e w'
    end.

Notation "x <- m ;; k" := (bind m (fun x => k))
  (at level 89, m at level 88, right associativity).
Notation "m ;;; k" := (bind m (fun _ => k))
  (at level 89, right associativity).

(** *** Console *)

(** The world with one more entry on the console. *)
Definition log_event (e : event) (w : World) : World :=
  mkWorld (fs w) (cwd w) (faults w) (console w ++ [e]) (writes w).

Definition emit (e : event) : M unit := fun w => (Ok tt, log_event e w).

Definition error (msg : string) : M unit := emit (ConsoleError msg).
Definition warning (msg : string) : M unit := emit (ConsoleWarning msg).
Definition info (msg : string) : M unit := emit (ConsoleInfo msg).

(** *** File system *)

(** The next entry of the fault schedule. *)
Definition next_fault : M bool :=
  fun w =>
    match faults w with
    | b :: rest => (Ok b, mkWorld (fs w) (cwd w) rest (console w) (writes w))
    | [] => (Ok false, w)
    end.

Definition get_fs : M (gmap string node) := fun w => (Ok (fs w), w).

Definition process_cwd : M string := fun w => (Ok (cwd w), w).

(** [fs.readFileSync(path, 'utf-8')]. *)
Definition readFileSync (path : string) : M string :=
  fault <- next_fault ;;
  if (fault : bool) then throw (Error "EIO: i/o error, read") else
  files <- get_fs ;;
  match files !! path with
  | Some (File content) => ret content
  | Some Directory => throw (Error "EISDIR: illegal operation on a directory, read")
  | None => throw (Error ("ENOENT: no such file or directory, open '" +:+ path +:+ "'"))
  end.

(** The store of a file's new content, and its entry in the log. *)
Definition store (path content : string) : M unit :=
  fun w =>
    (Ok tt,
     mkWorld (<[path := File content]> (fs w)) (cwd w) (faults w) (console w)
             (writes w ++ [(path, content)])).

(** A file system after the writes of a log, oldest first. *)
Definition apply_writes (log : list (string * string)) (files : gmap string node)
    : gmap string node :=
  fold_left (fun m entry => <[fst entry := File (snd entry)]> m) log files.

(** [fs.writeFileSync(path, content, 'utf-8')]: all or nothing. *)
Definition writeFileSync (path content : string) : M unit :=
  fault <- next_fault ;;
  if (fault : bool) then throw (Error "EIO: i/o error, write") else
  files <- get_fs ;;
  match files !! path with
  | Some Directory => throw (Error "EISDIR: illegal operation on a directory, open")
  | _ => store path content
  end.

(** [fs.existsSync(path)]. *)
Definition existsSync (path : string) : M bool :=
  files <- get_fs ;;
  ret (match files !! path with Some _ => true | None => false end).

(** [fs.statSync(path)]: the node, or the error for a missing path. *)
Definition statSync (path : string) : M node :=
  files <- get_fs ;;
  match files !! path with
  | Some n => ret n
  | None => throw (Error ("ENOENT: no such file or directory, stat '" +:+ path +:+ "'"))
  end.

Definition isFile (n : node) : bool :=
  match n with File _ => true | Directory => false end.

Definition isDirectory (n : node) : bool :=
  match n with File _ => false | Directory => true end.

(** *** JSON values *)

(** A JSON value as [JSON.parse] returns it.  A number is held as the
    text [JSON.stringify] prints for it; the members of an object are in
    property order. *)
#[local] Unset Elimination Schemes.
Inductive json : Type :=
| JNull
| JBool (b : bool)
| JNumber (text : string)
| JString (s : string)
| JArray (elements : list json)
| JObject (members : list (string * json)).
#[local] Set Elimination Schemes.

(** The services of the platform that the model does not define.
    - [JSON_parse]: the parser of JSON texts, [None] for the
      [SyntaxError] it throws, whose message is [JSON_parse_error].
    - [RegExp_replace_other]: the regular-expression engine on the
      patterns outside the fragment modelled in [Commands] (the replaced
      string, or [None] when constructing or running the expression
      throws).
    - [path_join]: [path.join(a, b)], which depends on the operating
      system.
    - [glob_all files dir cwd]: the relative paths that
      [glob('**/*', { cwd, nodir: true, dot: true, follow: false })]
      returns when the file system holds [files] and the working
      directory of the process is [dir]. *)
Class Platform : Type := {
  JSON_parse : string -> option json;
  JSON_parse_error : string -> string;
  RegExp_replace_other : string -> string -> string -> option string;
  path_join : string -> string -> string;
  glob_all : gmap string node -> string -> string -> list string
}.

(** The value of the property [key] of an object's members. *)
Fixpoint lookup_member (key : string) (members : list (string * json)) : option json :=
  match members with
  | (k, v) :: rest => if String.eqb k key then Some v else lookup_member key rest
  | [] => None
  end.

(** [members[key] = v]: an existing property keeps its place, a new one
    goes last. *)
Fixpoint assign_member (key : string) (v : json) (members : list (string * json))
    : list (string * json) :=
  match members with
  | (k, x) :: rest =>
      if String.eqb k key then (k, v) :: rest
      else (k, x) :: assign_member key v rest
  | [] => [(key, v)]
  end.

(** [value[key]], read.  Reading a property of [null] throws; of any
    other value that is not an object with that member it is
    [undefined]. *)
Definition get_property (value : json) (key : string) : M (option json) :=
  match value with
  | JNull => throw (Error ("Cannot read properties of null (reading '" +:+ key +:+ "')"))
  | JObject members => ret (lookup_member key members)
  | _ => ret None
  end.

(** The error of an assignment to a property of a primitive value. *)
Definition cannot_create (key kind shown : string) : exn :=
  Error ("Cannot create property '" +:+ key +:+ "' on " +:+ kind +:+ " '" +:+
         shown +:+ "'").

(** [value[key] = v] in strict code, for a [key] that is no array index.
    It throws on [null] and on a primitive.  On an array it sets a named
    property, which is no element: [JSON.stringify] does not print it. *)
Definition set_property (value : json) (key : string) (v : json) : M json :=
  match value with
  | JObject members => ret (JObject (assign_member key v members))
  | JArray elements => ret (JArray elements)
  | JNull => throw (Error ("Cannot set properties of null (setting '" +:+ key +:+ "')"))
  | JBool b => throw (cannot_create key "boolean" (if b then "true" else "false"))
  | JNumber text => throw (cannot_create key "number" text)
  | JString s => throw (cannot_create key "string" s)
  end.

(** *** JSON.stringify *)

Definition hex_digit (n : N) : ascii :=
  match n with
  | 0%N => "0" | 1%N => "1" | 2%N => "2" | 3%N => "3" | 4%N => "4"
  | 5%N => "5" | 6%N => "6" | 7%N => "7" | 8%N => "8" | 9%N => "9"
  | 10%N => "a" | 11%N => "b" | 12%N => "c" | 13%N => "d" | 14%N => "e"
  | _ => "f"
  end%char.

(** The escape of one character inside a JSON string. *)
Definition quote_char (c : ascii) : string :=
  let n := N_of_ascii c in
  if (n =? 8)%N then "\b"
  else if (n =? 9)%N then "\t"
  else if (n =? 10)%N then "\n"
  else if (n =? 12)%N then "\f"
  else if (n =? 13)%N then "\r"
  else if (n =? 34)%N then String "\"%char (String DQ EmptyString)
  else if (n =? 92)%N then "\\"
  else if (n <? 32)%N then
    "\u00" +:+ String (hex_digit (n / 16)) (String (hex_digit (n mod 16)) EmptyString)
  else String c EmptyString.

Fixpoint quote_chars (s : string) : string :=
  match s with
  | String c s' => quote_char c +:+ quote_chars s'
  | EmptyString => EmptyString
  end.

(** [QuoteJSONString]. *)
Definition quote (s : string) : string :=
  String DQ (quote_chars s +:+ String DQ EmptyString).

(** The items of a block, one per line at the inner indentation. *)
Fixpoint join_lines (inner : string) (items : list string) : string :=
  match items with
  | [] => EmptyString
  | [x] => x
  | x :: rest => x +:+ "," +:+ String LF inner +:+ join_lines inner rest
  end.

Definition block (open close indent inner : string) (items : list string) : string :=
  match items with
  | [] => open +:+ close
  | _ => open +:+ String LF inner +:+ join_lines inner items +:+
         String LF indent +:+ close
  end.

(** [JSON.stringify(value, null, 2)] below the current indentation. *)
Fixpoint stringify_at (indent : string) (value : json) : string :=
  let inner := indent +:+ "  " in
  match value with
  | JNull => "null"
  | JBool true => "true"
  | JBool false => "false"
  | JNumber text => text
  | JString s => quote s
  | JArray elements =>
      block "[" "]" indent inner (List.map (stringify_at inner) elements)
  | JObject members =>
      block "{" "}" indent inner
        (List.map (fun kv => quote (fst kv) +:+ ": " +:+ stringify_at inner (snd kv))
                  members)
  end.

Definition JSON_stringify_2 (value : json) : string := stringify_at EmptyString value.

(** The part of the world that only [writeFileSync] changes is the same
    in both worlds. *)
Definition same_files (w w' : World) : Prop :=
  fs w' = fs w /\ writes w' = writes w /\ cwd w' = cwd w.

End Node.

(* ================================================================== *)
(** ** src/cli/version.ts: the version model *)
(* ================================================================== *)

Module Version.
Import Js Node.

(** [SemanticVersion], the type inferred from [SemanticVersionSchema]. *)
Record SemanticVersion : Type := mkVersion {
  major : Z;
  minor : Z;
  patch : Z;
  build : option string
}.

(** The checks of [SemanticVersionSchema]: three non-negative integers
    (integrality is the type [Z]); [build] is any optional string. *)
Definition SemanticVersionSchema (v : SemanticVersion) : bool :=
  (0 <=? major v)%Z && (0 <=? minor v)%Z && (0 <=? patch v)%Z.

(** [SemanticVersionSchema.parse]: the value itself, or [None] for the
    validation error it throws. *)
Definition SemanticVersionSchema_parse (v : SemanticVersion) : option SemanticVersion :=
  if SemanticVersionSchema v then Some v else None.

(** The longest prefix of digits of a string, and what follows it: how a
    greedy [\d+] is matched when the next pattern item is not a digit. *)
Fixpoint span_digits (s : string) : string * string :=
  match s with
  | String c s' =>
      if is_digit c then
        let (d, r) := span_digits s' in (String c d, r)
      else (EmptyString, s)
  | EmptyString => (EmptyString, EmptyString)
  end.

(** No character of the string is a line terminator: the string can be
    matched by [.+] up to its end (when it is not empty). *)
Fixpoint no_line_terminator (s : string) : bool :=
  match s with
  | String c s' => negb (is_line_terminator c) && no_line_terminator s'
  | EmptyString => true
  end.

(** The capture groups 1 to 4 of a successful match; group 4 is
    [undefined] when the optional part did not take part in the match. *)
Record VersionMatch : Type := mkMatch {
  majorStr : string;
  minorStr : string;
  patchStr : string;
  buildStr : option string
}.

(** One [(\d+)] group: a non-empty run of digits. *)
Definition digits_group (s : string) : option (string * string) :=
  match span_digits s with
  | (String c d, r) => Some (String c d, r)
  | (EmptyString, _) => None
  end.

(** The literal [\.]. *)
Definition literal_dot (s : string) : option string :=
  match s with
  | String c r => if Ascii.eqb c "." then Some r else None
  | EmptyString => None
  end.

(** The tail [(?:-(.+))?$] of the pattern: the end of the input, or a
    hyphen and then one or more characters, none a line terminator, up to
    the end of the input. *)
Definition build_suffix (s : string) : option (option string) :=
  match s with
  | EmptyString => Some None
  | String c b =>
      if Ascii.eqb c "-" then
        match b with
        | String _ _ => if no_line_terminator b then Some (Some b) else None
        | EmptyString => None
        end
      else None
  end.

(** [version.match(/^(\d+)\.(\d+)\.(\d+)(?:-(.+))?$/)].  Every [\d+] is
    followed by an item that no digit matches, so the groups are the
    maximal runs of digits and the match is deterministic. *)
Definition version_match (version : string) : option VersionMatch :=
  match digits_group version with
  | None => None
  | Some (g1, r1) =>
  match literal_dot r1 with
  | None => None
  | Some r1' =>
  match digits_group r1' with
  | None => None
  | Some (g2, r2) =>
  match literal_dot r2 with
  | None => None
  | Some r2' =>
  match digits_group r2' with
  | None => None
  | Some (g3, r3) =>
  match build_suffix r3 with
  | None => None
  | Some b => Some (mkMatch g1 g2 g3 b)
  end end end end end end.

(** [parseVersion]: [None] is the [null] it returns when the string does
    not match or when the schema rejects the numbers; [NaN] and
    [Infinity] are no integers for the schema. *)
Definition parseVersion (version : string) : option SemanticVersion :=
  match version_match version with
  | None => None
  | Some m =>
      match parseInt (majorStr m), parseInt (minorStr m), parseInt (patchStr m) with
      | Integer a, Integer b, Integer c =>
          SemanticVersionSchema_parse
            (mkVersion a b c (truthy_string (buildStr m)))
      | _, _, _ => None
      end
  end.

(** [formatVersion]: the build tag is appended when it is truthy. *)
Definition formatVersion (version : SemanticVersion) : string :=
  let core :=
    Number_toString (major version) +:+ "." +:+
    Number_toString (minor version) +:+ "." +:+
    Number_toString (patch version) in
  match truthy_string (build version) with
  | Some b => core +:+ "-" +:+ b
  | None => core
  end.

Inductive Part : Type := Major | Minor | Patch.
Inductive Direction : Type := Up | Down.

(** [version[part]] and the assignment [version[part] = x]. *)
Definition get_part (part : Part) (v : SemanticVersion) : Z :=
  match part with
  | Major => major v
  | Minor => minor v
  | Patch => patch v
  end.

Definition set_part (part : Part) (x : Z) (v : SemanticVersion) : SemanticVersion :=
  match part with
  | Major => mkVersion x (minor v) (patch v) (build v)
  | Minor => mkVersion (major v) x (patch v) (build v)
  | Patch => mkVersion (major v) (minor v) x (build v)
  end.

(** [adjustVersionPart]: works on a copy of its argument.  The sum and
    the difference are those of numbers: the number nearest to the exact
    result. *)
Definition adjustVersionPart
    (version : SemanticVersion) (part : Part) (direction : Direction)
    : SemanticVersion :=
  let newVersion := version in
  match direction with
  | Up =>
      let newVersion :=
        set_part part (to_Number (get_part part newVersion + 1)) newVersion in
      match part with
      | Major => set_part Patch 0%Z (set_part Minor 0%Z newVersion)
      | Minor => set_part Patch 0%Z newVersion
      | Patch => newVersion
      end
  | Down =>
      if (0 <? get_part part newVersion)%Z
      then set_part part (to_Number (get_part part newVersion - 1)) newVersion
      else newVersion
  end.

(** The invariant the specification states for a version: non-negative
    parts, and a build tag that is not empty when it is present. *)
Definition valid (v : SemanticVersion) : Prop :=
  (0 <= major v)%Z /\ (0 <= minor v)%Z /\ (0 <= patch v)%Z /\
  build v <> Some EmptyString.

(** Predicates used to state the laws of parsing and formatting. *)

Fixpoint all_digits (s : string) : bool :=
  match s with
  | String c s' => is_digit c && all_digits s'
  | EmptyString => true
  end.

(** A numeric group written without a superfluous leading zero. *)
Definition no_leading_zero (g : string) : bool :=
  match g with
  | String c (String _ _) => negb (Ascii.eqb c "0")
  | _ => true
  end.

(** A numeric group that is written as the language prints the number
    read from it. *)
Definition printed (g : string) : bool :=
  match parseInt g with
  | Integer a => String.eqb (Number_toString a) g
  | _ => false
  end.

(** The three numeric groups of a version string are written as the
    language prints their numbers. *)
Definition canonical_groups (version : string) : bool :=
  match version_match version with
  | Some m => printed (majorStr m) && printed (minorStr m) && printed (patchStr m)
  | None => true
  end.

(** A numeric group without superfluous leading zero that denotes an
    integer below 2^53. *)
Definition safe_group (g : string) : bool :=
  no_leading_zero g && (parseInt_acc 0 g <? 2 ^ 53)%Z.

(** The three numeric groups of a version string are such groups. *)
Definition safe_groups (version : string) : bool :=
  match version_match version with
  | Some m => safe_group (majorStr m) && safe_group (minorStr m) &&
              safe_group (patchStr m)
  | None => true
  end.

(** A number that is an integer and that the language prints in
    positional notation: one below 10^21 in magnitude. *)
Definition positional (z : Z) : Prop := is_Number z /\ (Z.abs z < 10 ^ 21)%Z.

(** The parts of the version are printed in positional notation. *)
Definition printable (v : SemanticVersion) : Prop :=
  positional (major v) /\ positional (minor v) /\ positional (patch v).

(** The string is empty or starts with a character that is no digit. *)
Definition starts_nondigit (rest : string) : Prop :=
  match rest with
  | String c _ => is_digit c = false
  | EmptyString => True
  end.

(** The text that follows the numbers in a version string. *)
Definition suffix_text (b : option string) : string :=
  match b with
  | Some b => "-" +:+ b
  | None => EmptyString
  end.

(** The build tag of a version, when present, has no line terminator. *)
Definition build_on_one_line (v : SemanticVersion) : bool :=
  match build v with
  | Some b => no_line_terminator b
  | None => true
  end.

(** *** The manifest *)

(** The document [updatePackageVersion] writes for a parsed manifest. *)
Definition document (packageJson : json) : string :=
  JSON_stringify_2 packageJson +:+ String LF EmptyString.

(** The error [updatePackageVersion] reports. *)
Definition update_failed (e : exn) : event :=
  ConsoleError ("Failed to update package version: " +:+ message e).

(** The error [readPackageVersion] reports for a failure it caught. *)
Definition read_failed (e : exn) : event :=
  ConsoleError ("Failed to read package version: " +:+ message e).

(** The document [updatePackageVersion] writes for a manifest that is
    an object with these members. *)
Definition updated_manifest (members : list (string * json)) (version : string)
    : string :=
  document (JObject (assign_member "version" (JString version) members)).

Section Manifest.
Context `{Platform}.

(** [JSON.parse(text)], throwing its [SyntaxError]. *)
Definition parse_json (text : string) : M json :=
  match JSON_parse text with
  | Some value => ret value
  | None => throw (Error (JSON_parse_error text))
  end.

(** [readPackageVersion]: the version of the manifest, or [None] for
    the [null] it returns after reporting why. *)
Definition readPackageVersion (packagePath : string) : M (option SemanticVersion) :=
  try_catch
    (packageContent <- readFileSync packagePath ;;
     packageJson <- parse_json packageContent ;;
     field <- get_property packageJson "version" ;;
     match field with
     | Some (JString (String c s)) =>
         match parseVersion (String c s) with
         | Some version => ret (Some version)
         | None =>
             error ("Invalid version format in " +:+ packagePath +:+ ": " +:+ String c s) ;;;
             ret None
         end
     | _ =>
         error ("No valid version found in " +:+ packagePath) ;;;
         ret None
     end)
    (fun err =>
       error ("Failed to read package version: " +:+ message err) ;;;
       ret None).

(** [updatePackageVersion]: whether the manifest was rewritten. *)
Definition updatePackageVersion (packagePath : string) (version : SemanticVersion) : M bool :=
  try_catch
    (packageContent <- readFileSync packagePath ;;
     packageJson <- parse_json packageContent ;;
     packageJson <- set_property packageJson "version" (JString (formatVersion version)) ;;
     writeFileSync packagePath (JSON_stringify_2 packageJson +:+ String LF EmptyString) ;;;
     ret true)
    (fun err =>
       error ("Failed to update package version: " +:+ message err) ;;;
       ret false).

(** [findPackageJson]: the manifest directly inside [startDir]. *)
Definition findPackageJson (startDir : string) : M (option string) :=
  let packagePath := path_join startDir "package.json" in
  found <- existsSync packagePath ;;
  ret (if (found : bool) then Some packagePath else None).

End Manifest.

(** Predicates used to state further laws of the version model. *)

(** A numeric group of a version string: a run of digits, not empty. *)
Definition numeric (g : string) : Prop :=
  g <> EmptyString /\ all_digits g = true.

(** A build tag as the pattern admits it: not empty and on one line. *)
Definition build_text (b : option string) : Prop :=
  match b with
  | Some t => t <> EmptyString /\ no_line_terminator t = true
  | None => True
  end.

(** Precedence of versions: by major, then by minor, then by patch. *)
Definition precedes (v1 v2 : SemanticVersion) : Prop :=
  (major v1 < major v2)%Z \/
  (major v1 = major v2 /\ (minor v1 < minor v2)%Z) \/
  (major v1 = major v2 /\ minor v1 = minor v2 /\ (patch v1 < patch v2)%Z).

(** [part] is subordinate to [other]. *)
Definition below (part other : Part) : bool :=
  match part, other with
  | Minor, Major | Patch, Major | Patch, Minor => true
  | _, _ => false
  end.

(** The version with the parts subordinate to [part] at zero. *)
Definition reset_below (part : Part) (v : SemanticVersion) : SemanticVersion :=
  match part with
  | Major => mkVersion (major v) 0 0 (build v)
  | Minor => mkVersion (major v) (minor v) 0 (build v)
  | Patch => v
  end.

End Version.

(* ================================================================== *)
(** ** src/cli/commands.ts: the command handlers *)
(* ================================================================== *)

Module Commands.
Import Js Node Version.

(** The [Options] a handler receives (its other keys are unknown). *)
Record Options : Type := mkOptions {
  package : option string;
  type_ : option string;
  subject : option string;
  up : option bool;
  down : option bool
}.

(** [PathSchema]: the issue it raises, if any. *)
Definition PathSchema (value : string) : option string :=
  match value with
  | EmptyString => Some "Path must not be empty"
  | String _ _ => None
  end.

(** [OptionsSchema]: the fields are typed; [type], when present, is
    ['node']. *)
Definition OptionsSchema (options : Options) : option string :=
  match type_ options with
  | Some t =>
      if String.eqb t "node" then None
      else Some ("Invalid enum value. Expected 'node', received '" +:+ t +:+ "'")
  | None => None
  end.

(** [validateParams] over the outcome of each schema on its value: the
    first issue is reported and makes the result [false]. *)
Fixpoint validateParams (issues : list (option string)) : M bool :=
  match issues with
  | [] => ret true
  | None :: rest => validateParams rest
  | Some msg :: _ => error ("Validation error: " +:+ msg) ;;; ret false
  end.

(** [validatePath] of [utils.ts]. *)
Definition validatePath (path : string) (want_file : bool) : M bool :=
  try_catch
    (stats <- statSync path ;;
     if want_file && negb (isFile stats) then
       error ("Path is not a file: " +:+ path) ;;; ret false
     else if negb want_file && negb (isDirectory stats) then
       error ("Path is not a directory: " +:+ path) ;;; ret false
     else ret true)
    (fun _ => error ("Path does not exist: " +:+ path) ;;; ret false).

(** *** The regular expression [new RegExp(subject, 'g')] *)

(** The syntax characters of a pattern; any other character of a pattern
    matches itself. *)
Definition is_syntax_character (c : ascii) : bool :=
  match c with
  | "^" | "$" | "\" | "." | "*" | "+" | "?" | "(" | ")" | "[" | "]"
  | "{" | "}" | "|" => true
  | _ => false
  end%char.

(** The fragment of the patterns that is modelled: a sequence of
    characters that match themselves and of [.], which matches any
    character but a line terminator. *)
Inductive atom : Type :=
| Lit (c : ascii)
| AnyChar.

(** The atoms of a pattern of the fragment; [None] outside it. *)
Fixpoint compile (pattern : string) : option (list atom) :=
  match pattern with
  | EmptyString => Some []
  | String c rest =>
      match compile rest with
      | None => None
      | Some atoms =>
          if Ascii.eqb c "." then Some (AnyChar :: atoms)
          else if is_syntax_character c then None
          else Some (Lit c :: atoms)
      end
  end.

Definition atom_matches (a : atom) (c : ascii) : bool :=
  match a with
  | Lit x => Ascii.eqb x c
  | AnyChar => negb (is_line_terminator c)
  end.

(** A match of the atoms at the start of the string: the matched text
    and what follows it. *)
Fixpoint match_atoms (atoms : list atom) (s : string) : option (string * string) :=
  match atoms with
  | [] => Some (EmptyString, s)
  | a :: atoms' =>
      match s with
      | String c s' =>
          if atom_matches a c then
            match match_atoms atoms' s' with
            | Some (m, rest) => Some (String c m, rest)
            | None => None
            end
          else None
      | EmptyString => None
      end
  end.

(** [GetSubstitution] for a match without capture groups: in the
    replacement text [$$] is a dollar, [$&] the matched text, [$`] the
    text before the match and [$'] the text after it. *)
Fixpoint GetSubstitution (matched before after template : string) : string :=
  match template with
  | String c t =>
      if Ascii.eqb c "$" then
        match t with
        | String d t' =>
            if Ascii.eqb d "$" then
              String "$" (GetSubstitution matched before after t')
            else if Ascii.eqb d "&" then
              matched +:+ GetSubstitution matched before after t'
            else if Ascii.eqb d "`" then
              before +:+ GetSubstitution matched before after t'
            else if Ascii.eqb d "'" then
              after +:+ GetSubstitution matched before after t'
            else String c (GetSubstitution matched before after t)
        | EmptyString => String c EmptyString
        end
      else String c (GetSubstitution matched before after t)
  | EmptyString => EmptyString
  end.

(** The global replacement, scanning [s] from the left.  [before] is the
    text already scanned and [skip] the number of characters of [s] that
    the last match still covers.  After an empty match the scan moves on
    by one character. *)
Fixpoint replace_scan
    (atoms : list atom) (template before : string) (skip : nat) (s : string)
    : string :=
  match skip with
  | S skip' =>
      match s with
      | String c s' =>
          replace_scan atoms template (before +:+ String c EmptyString) skip' s'
      | EmptyString => EmptyString
      end
  | O =>
      match match_atoms atoms s with
      | Some (matched, after) =>
          let out := GetSubstitution matched before after template in
          match s with
          | String c s' =>
              match atoms with
              | [] =>
                  out +:+ String c
                    (replace_scan atoms template (before +:+ String c EmptyString) O s')
              | _ :: atoms' =>
                  out +:+
                  replace_scan atoms template (before +:+ String c EmptyString)
                    (List.length atoms') s'
              end
          | EmptyString => out
          end
      | None =>
          match s with
          | String c s' =>
              String c (replace_scan atoms template (before +:+ String c EmptyString) O s')
          | EmptyString => EmptyString
          end
      end
  end.

Section Handlers.
Context `{Platform}.

(** [content.replace(new RegExp(pattern, 'g'), replacement)]: computed
    on the modelled fragment, the platform's answer outside it. *)
Definition replace_RegExp_g (pattern replacement content : string) : M string :=
  match compile pattern with
  | Some atoms => ret (replace_scan atoms replacement EmptyString O content)
  | None =>
      match RegExp_replace_other pattern replacement content with
      | Some content' => ret content'
      | None => throw (Error ("Invalid regular expression: /" +:+ pattern +:+ "/"))
      end
  end.

(** [await glob('**/*', { cwd, nodir: true, dot: true, follow: false })]:
    the relative paths that the platform lists. *)
Definition glob (cwd : string) : M (list string) :=
  files <- get_fs ;;
  dir <- process_cwd ;;
  ret (glob_all files dir cwd).

(** The loop of the Filtering stage (lines 105-112). *)
Fixpoint filterFiles
    (targetPath subject : string) (files filesToUpdate : list string)
    : M (list string) :=
  match files with
  | [] => ret filesToUpdate
  | relativeFile :: rest =>
      let filePath := path_join targetPath relativeFile in
      fileContent <- readFileSync filePath ;;
      filterFiles targetPath subject rest
        (if includes fileContent subject
         then filesToUpdate ++ [filePath] else filesToUpdate)
  end.

(** The body of the [try] of the Rewriting stage (lines 139-149):
    whether the file was written. *)
Definition updateFile (subject versionString filePath : string) : M bool :=
  fileContent <- readFileSync filePath ;;
  let originalContent := fileContent in
  fileContent <- replace_RegExp_g subject versionString fileContent ;;
  if String.eqb fileContent originalContent then ret false
  else writeFileSync filePath fileContent ;;; ret true.

(** The loop of the Rewriting stage (lines 137-153). *)
Fixpoint rewriteFiles
    (subject versionString : string) (filesToUpdate : list string) (updatedCount : nat)
    : M nat :=
  match filesToUpdate with
  | [] => ret updatedCount
  | filePath :: rest =>
      updatedCount' <-
        try_catch
          (written <- updateFile subject versionString filePath ;;
           ret (if (written : bool) then S updatedCount else updatedCount))
          (fun _ =>
             warning ("Failed to update " +:+ filePath) ;;;
             ret updatedCount) ;;
      rewriteFiles subject versionString rest updatedCount'
  end.

(** The warning of the Rewriting stage for a candidate. *)
Definition failed_to_update (filePath : string) : event :=
  ConsoleWarning ("Failed to update " +:+ filePath).

(** The text is a result of the replacement of the placeholder by the
    version string. *)
Definition is_replacement (subject versionString content' : string) : Prop :=
  exists content w,
    replace_RegExp_g subject versionString content w = (Ok content', w).

Definition show_nat (n : nat) : string := Number_toString (Z.of_nat n).

(** [fs.existsSync(path) && fs.statSync(path).<test>()]. *)
Definition exists_and (test : node -> bool) (path : string) : M bool :=
  found <- existsSync path ;;
  if (found : bool) then stats <- statSync path ;; ret (test stats) else ret false.

(** The Discovering and Filtering stages (lines 91-125): the kept
    candidates, or [None] when the handler returns early. *)
Definition findFilesToUpdate (subject targetPath : string) : M (option (list string)) :=
  isDir <- exists_and isDirectory targetPath ;;
  if (isDir : bool) then
    files <- glob targetPath ;;
    filesToUpdate <- filterFiles targetPath subject files [] ;;
    ret (Some filesToUpdate)
  else
    isF <- exists_and isFile targetPath ;;
    if (isF : bool) then
      fileContent <- readFileSync targetPath ;;
      ret (Some (if includes fileContent subject then [targetPath] else []))
    else
      emit (SpinnerFail
              ("Target path does not exist or is not a file/directory: " +:+ targetPath)) ;;;
      ret None.

(** The engine once the version is resolved (lines 86-155). *)
Definition copyVersion (versionString subject targetPath : string) : M unit :=
  emit (SpinnerStart "Finding files to update...") ;;;
  found <- findFilesToUpdate subject targetPath ;;
  match found with
  | None => ret tt
  | Some filesToUpdate =>
      emit (SpinnerText ("Updating " +:+ show_nat (List.length filesToUpdate) +:+ " files...")) ;;;
      match filesToUpdate with
      | [] => emit (SpinnerInfo ("No files found containing '" +:+ subject +:+ "'"))
      | _ :: _ =>
          updatedCount <- rewriteFiles subject versionString filesToUpdate O ;;
          emit (SpinnerSucceed
                  ("Updated " +:+ show_nat updatedCount +:+ " of " +:+
                   show_nat (List.length filesToUpdate) +:+
                   " files with version " +:+ versionString))
      end
  end.

(** The manifest both handlers read (lines 65-81 and 185-201): its
    path and version, or [None] when the handler returns early. *)
Definition resolveVersion (options : Options) : M (option (string * SemanticVersion)) :=
  packagePath <-
    match truthy_string (package options) with
    | Some p => ret (Some p)
    | None => dir <- process_cwd ;; findPackageJson dir
    end ;;
  match packagePath with
  | None =>
      error "No package.json found. Please specify with --package option." ;;;
      ret None
  | Some packagePath =>
      ok <- validatePath packagePath true ;;
      if (ok : bool) then
        version <- readPackageVersion packagePath ;;
        ret (match version with
             | Some v => Some (packagePath, v)
             | None => None
             end)
      else ret None
  end.

(** [options.subject || '__VERSION__']. *)
Definition subject_of (options : Options) : string :=
  match truthy_string (subject options) with
  | Some s => s
  | None => "__VERSION__"
  end.

(** [handleCopyTo]. *)
Definition handleCopyTo (targetPath : string) (options : Options) : M unit :=
  valid <- validateParams [PathSchema targetPath; OptionsSchema options] ;;
  if (valid : bool) then
    try_catch
      (resolved <- resolveVersion options ;;
       match resolved with
       | None => ret tt
       | Some (_, version) =>
           copyVersion (formatVersion version) (subject_of options) targetPath
       end)
      (fun err => error ("Failed to copy version: " +:+ message err))
  else ret tt.

(** Lines 180-183: up, unless [options.down] is truthy. *)
Definition direction_of (options : Options) : Direction :=
  let direction := Up in
  if truthy_bool (down options) then Down else direction.

Definition part_name (part : Part) : string :=
  match part with Major => "major" | Minor => "minor" | Patch => "patch" end.

Definition direction_name (direction : Direction) : string :=
  match direction with Up => "up" | Down => "down" end.

(** [handleUpdateVersionPart]; the type [Part] is the enumeration its
    first schema checks. *)
Definition handleUpdateVersionPart (part : Part) (options : Options) : M unit :=
  valid <- validateParams [None; OptionsSchema options] ;;
  if (valid : bool) then
    try_catch
      (let direction := direction_of options in
       resolved <- resolveVersion options ;;
       match resolved with
       | None => ret tt
       | Some (packagePath, currentVersion) =>
           info ("Current version: " +:+ formatVersion currentVersion) ;;;
           let newVersion := adjustVersionPart currentVersion part direction in
           emit (SpinnerStart ("Updating " +:+ part_name part +:+ " version " +:+
                               direction_name direction +:+ "...")) ;;;
           updated <- updatePackageVersion packagePath newVersion ;;
           if (updated : bool) then
             emit (SpinnerSucceed
                     ("Successfully updated version from " +:+
                      formatVersion currentVersion +:+ " to " +:+
                      formatVersion newVersion))
           else emit (SpinnerFail "Failed to update version")
       end)
      (fun err => error ("Failed to update version: " +:+ message err))
  else ret tt.

End Handlers.

(** Following the words of the specification: the global,
    non-overlapping, left-to-right replacement of the literal substring
    [sub] by [new].  [skip] counts the characters of [s] that the last
    occurrence still covers. *)
Fixpoint spec_replace_scan (sub new : string) (skip : nat) (s : string) : string :=
  match skip with
  | S skip' =>
      match s with
      | String _ s' => spec_replace_scan sub new skip' s'
      | EmptyString => EmptyString
      end
  | O =>
      match s with
      | String c s' =>
          if String.prefix sub s then
            match sub with
            | EmptyString => new +:+ String c (spec_replace_scan sub new O s')
            | String _ sub' =>
                new +:+ spec_replace_scan sub new (String.length sub') s'
            end
          else String c (spec_replace_scan sub new O s')
      | EmptyString => if String.prefix sub s then new else EmptyString
      end
  end.

Definition spec_replace_all (sub new s : string) : string :=
  spec_replace_scan sub new O s.

(** Predicates used to state the laws of the replacement. *)

(** No character of the placeholder is a syntax character of patterns. *)
Fixpoint plain (pattern : string) : bool :=
  match pattern with
  | String c rest => negb (is_syntax_character c) && plain rest
  | EmptyString => true
  end.

(** The atoms of a plain pattern. *)
Fixpoint literals (pattern : string) : list atom :=
  match pattern with
  | String c rest => Lit c :: literals rest
  | EmptyString => []
  end.

(** The replacement text holds no dollar sign. *)
Definition no_dollar (template : string) : bool := negb (occurs "$" template).

(** Predicates used to state the laws of the handlers and of the
    engine. *)

(** The console entries that tell the outcome of an invocation: an
    error, or the line that ends the progress indicator. *)
Definition final_status (e : event) : bool :=
  match e with
  | ConsoleError _ | SpinnerInfo _ | SpinnerFail _ | SpinnerSucceed _ => true
  | ConsoleWarning _ | ConsoleInfo _ | SpinnerStart _ | SpinnerText _ => false
  end.

(** The last entry of the console tells an outcome. *)
Definition ends_with_status (w : World) : Prop :=
  exists e, last (console w) = Some e /\ final_status e = true.

(** The file at [path] holds the placeholder, as a literal text. *)
Definition holds_placeholder (subject : string) (files : gmap string node) (path : string)
    : bool :=
  match files !! path with
  | Some (File content) => includes content subject
  | _ => false
  end.

(** The progress lines of the engine for [n] kept candidates. *)
Definition progress (n : nat) : list event :=
  [SpinnerStart "Finding files to update...";
   SpinnerText ("Updating " +:+ show_nat n +:+ " files...")].

(** The line that ends a run of the engine that kept [n] candidates and
    wrote [updated] of them. *)
Definition summary (subject versionString : string) (updated n : nat) : event :=
  match n with
  | O => SpinnerInfo ("No files found containing '" +:+ subject +:+ "'")
  | S _ =>
      SpinnerSucceed ("Updated " +:+ show_nat updated +:+ " of " +:+ show_nat n +:+
                      " files with version " +:+ versionString)
  end.

Section Targets.
Context `{Platform}.

(** The manifest a handler uses (lines 66 and 186): the [package] option
    when it is truthy, and otherwise [package.json] in the working
    directory, when it exists. *)
Definition packagePath_of (options : Options) (w : World) : option string :=
  match truthy_string (package options) with
  | Some p => Some p
  | None =>
      let p := path_join (cwd w) "package.json" in
      match fs w !! p with
      | Some _ => Some p
      | None => None
      end
  end.

(** The file at [packagePath] is a manifest that [JSON.parse] reads as an
    object, whose [version] member is a string that [parseVersion] reads
    as [version]. *)
Definition manifest_holds
    (w : World) (packagePath : string) (members : list (string * json))
    (version : SemanticVersion) : Prop :=
  exists content s,
    fs w !! packagePath = Some (File content) /\
    JSON_parse content = Some (JObject members) /\
    lookup_member "version" members = Some (JString s) /\
    parseVersion s = Some version.

(** The paths the engine reads for a target: the target itself when it
    names a file; for a directory, the target joined with each relative
    path that [glob] lists, in that order. *)
Definition scanned (targetPath : string) (w : World) : list string :=
  match fs w !! targetPath with
  | Some Directory =>
      List.map (path_join targetPath) (glob_all (fs w) (cwd w) targetPath)
  | Some (File _) => [targetPath]
  | None => []
  end.

(** Every path the engine reads names a file. *)
Definition readable (targetPath : string) (w : World) : Prop :=
  forall path, path ∈ scanned targetPath w ->
    exists content, fs w !! path = Some (File content).

(** The candidates the Filtering stage keeps when every read succeeds:
    the paths it reads whose files hold the placeholder. *)
Definition candidates (subject targetPath : string) (w : World) : list string :=
  List.filter (holds_placeholder subject (fs w)) (scanned targetPath w).


End Targets.

End Commands.

(* ================================================================== *)
(** ** src/cli/utils.ts: the size of a file, for the reader *)
(* ================================================================== *)

Module Utils.
Import Js.

(** [x.toFixed(fractionDigits)], for a finite [x] below 10^21, by the
    steps of the language specification: the sign; the integer [n]
    nearest to [x] times ten to the number of digits, the larger one in
    a tie; the digits of [n], with zeros put before them until there is
    one more than the fraction takes; and the point.  A number is held
    as the rational it denotes. *)
Definition toFixed (x : Q) (fractionDigits : nat) : string :=
  let s := if Qle_bool 0 x then EmptyString else "-" in
  let x := Qabs x in
  let n := Qfloor (x * inject_Z (10 ^ Z.of_nat fractionDigits) + (1 # 2)) in
  let m := decimal n in
  match fractionDigits with
  | O => s +:+ m
  | S _ =>
      let k := String.length m in
      let m := if (k <=? fractionDigits)%nat
               then zeros (fractionDigits + 1 - k) +:+ m else m in
      let k := String.length m in
      let a := substring 0 (k - fractionDigits) m in
      let b := substring (k - fractionDigits) fractionDigits m in
      s +:+ a +:+ "." +:+ b
  end.

Definition units : list string := ["B"; "KB"; "MB"; "GB"; "TB"].

(** The loop of [formatFileSize]; every turn moves to the next unit, so
    that it makes no more turns than there are units. *)
Fixpoint scale (turns : nat) (formattedSize : Q) (unitIndex : nat) : Q * nat :=
  match turns with
  | O => (formattedSize, unitIndex)
  | S turns' =>
      if Qle_bool 1024 formattedSize && (unitIndex <? List.length units - 1)%nat
      then scale turns' (formattedSize / 1024) (S unitIndex)
      else (formattedSize, unitIndex)
  end.

(** [formatFileSize], on a size that is an integer.  The divisions by
    1024 are exact on the numbers of the language, as long as the size
    is a safe integer. *)
Definition formatFileSize (size : Z) : string :=
  let (formattedSize, unitIndex) := scale (List.length units) (inject_Z size) O in
  toFixed formattedSize 2 +:+ " " +:+ nth unitIndex units "undefined".

End Utils.

(* ================================================================== *)
(** ** The worlds of the scenarios *)
(* ================================================================== *)

Module ScenarioData.
Import Js Node Version Commands.

(** The manifest of the scenarios, [{"version":"1.2.3"}]. *)
Definition manifest_text : string :=
  "{" +:+ String DQ ("version" +:+ String DQ (":" +:+ String DQ ("1.2.3" +:+
  String DQ "}"))).

(** The path of [b] inside [a], on a system whose separator is the
    slash, for two segments in normal form. *)
Definition join_with_slash (a b : string) : string := a +:+ "/" +:+ b.

(** The files below [cwd], by their paths relative to it, in a file
    system where a path names a file of its own. *)
Definition relative_to (cwd : string) (entry : string * node) : option string :=
  if isFile (snd entry) then
    match remove_prefix (cwd +:+ "/") (fst entry) with
    | Some (String c rest) => Some (String c rest)
    | _ => None
    end
  else None.

Definition files_below (files : gmap string node) (dir cwd : string) : list string :=
  omap (relative_to cwd) (map_to_list files).

(** A platform for the scenarios: [JSON.parse] is given on the manifest
    above, the only text the scenarios parse, and no pattern outside the
    modelled fragment is used. *)
Definition scenario_platform : Platform := {|
  JSON_parse text :=
    if String.eqb text manifest_text
    then Some (JObject [("version", JString "1.2.3")])
    else None;
  JSON_parse_error _ := "Unexpected end of JSON input";
  RegExp_replace_other _ _ _ := None;
  path_join := join_with_slash;
  glob_all := files_below
|}.

(** A project: the manifest, and a directory [d] with two files. *)
Definition project (a b : string) : gmap string node :=
  list_to_map
    [("package.json", File manifest_text); ("d", Directory);
     ("d/a.txt", File a); ("d/b.txt", File b)].

Definition world (files : gmap string node) (schedule : list bool) : World :=
  mkWorld files "/project" schedule [] [].

Definition options_with (placeholder : option string) : Options :=
  mkOptions (Some "package.json") None placeholder None None.

(** [versioner copyto d], with or without [--subject]. *)
Definition copyto (placeholder : option string) (w : World) : result unit * World :=
  @handleCopyTo scenario_platform "d" (options_with placeholder) w.



(** A run where both files hold the placeholder; the read of the
    manifest succeeds and the first read of the Filtering stage fails. *)
Definition faulty_run : result unit * World :=
  copyto None (world (project "__VERSION__" "x __VERSION__") [false; true]).

(** The members of the manifest of the scenarios, and its text once the
    version is 2.0.0. *)
Definition manifest_members : list (string * json) := [("version", JString "1.2.3")].

Definition manifest_after : string := updated_manifest manifest_members "2.0.0".

(** A platform whose [JSON.parse] reads the manifest before and after
    that change. *)
Definition round_trip_platform : Platform := {|
  JSON_parse text :=
    if String.eqb text manifest_text then Some (JObject manifest_members)
    else if String.eqb text manifest_after
         then Some (JObject [("version", JString "2.0.0")])
         else None;
  JSON_parse_error _ := "Unexpected end of JSON input";
  RegExp_replace_other _ _ _ := None;
  path_join := join_with_slash;
  glob_all := files_below
|}.

(** Options that name no manifest. *)
Definition no_options : Options := mkOptions None None None None None.

(** Options with both flags of the direction set. *)
Definition up_and_down : Options :=
  mkOptions (Some "package.json") None None (Some true) (Some true).

(** The invocation of the test on read errors: the target is a single
    file; the read of the manifest succeeds and the read of the target
    fails. *)
Definition unreadable_target_run : result unit * World :=
  @handleCopyTo scenario_platform "d/a.txt" (options_with None)
    (world (project "__VERSION__" "x __VERSION__") [false; true]).

(** A platform whose [JSON.parse] reads the text of an empty array, and
    a world whose manifest holds that text. *)
Definition array_platform : Platform := {|
  JSON_parse text := if String.eqb text "[]" then Some (JArray []) else None;
  JSON_parse_error _ := "Unexpected end of JSON input";
  RegExp_replace_other _ _ _ := None;
  path_join := join_with_slash;
  glob_all := files_below
|}.

Definition array_manifest : World :=
  world (list_to_map [("package.json", File "[]")]) [].

End ScenarioData.

(* ================================================================== *)
(** ** Facts about numbers and their numerals *)
(* ================================================================== *)

Module NumberFacts.
Import Js Version.

Local Open Scope Z_scope.

(** *** Rounding to a number *)

Lemma ulp_exponent_small (n : Z) : n < 2 ^ 53 -> ulp_exponent n = 0.
Proof.
  intros Hn. unfold ulp_exponent.
  destruct (Z.le_gt_cases n 0) as [Hle | Hpos].
  - rewrite Z.log2_nonpos by exact Hle. reflexivity.
  - apply Z.log2_lt_pow2 in Hn; [lia | exact Hpos].
Qed.

(** Every integer up to 2^53 is a number. *)
Lemma round_small (n : Z) : 0 <= n < 2 ^ 53 -> round_nearest_even n = n.
Proof.
  intros [H0 Hn]. unfold round_nearest_even.
  rewrite (ulp_exponent_small n Hn). change (2 ^ 0) with 1.
  rewrite Z.div_1_r, Z.mod_1_r.
  destruct (Z.ltb_spec (2 * 0) 1); lia.
Qed.

Lemma ulp_exponent_large (n : Z) :
  2 ^ 53 <= n -> ulp_exponent n = Z.log2 n - 52 /\ 1 <= Z.log2 n - 52.
Proof.
  intros Hn. unfold ulp_exponent.
  assert (53 <= Z.log2 n).
  { rewrite <- (Z.log2_pow2 53) by lia. now apply Z.log2_le_mono. }
  lia.
Qed.

(** The significand of an integer from 2^53 on. *)
Lemma significand_bounds (n : Z) :
  2 ^ 53 <= n ->
  let u := 2 ^ ulp_exponent n in
  0 < u /\ 2 ^ 52 <= n / u < 2 ^ 53.
Proof.
  intros Hn u. destruct (ulp_exponent_large n Hn) as [He H1].
  assert (Hpos : 0 < n) by (pose proof (Z.pow_pos_nonneg 2 53); lia).
  destruct (Z.log2_spec n Hpos) as [Hlo Hhi].
  assert (Hu : 0 < u) by (apply Z.pow_pos_nonneg; lia).
  assert (E1 : 2 ^ Z.log2 n = 2 ^ 52 * u).
  { unfold u. rewrite He, <- Z.pow_add_r by lia. f_equal. lia. }
  assert (E2 : 2 ^ Z.succ (Z.log2 n) = 2 ^ 53 * u).
  { unfold u. rewrite He, <- Z.pow_add_r by lia. f_equal. lia. }
  split; [exact Hu|]. split.
  - apply Z.div_le_lower_bound; [exact Hu|]. lia.
  - apply Z.div_lt_upper_bound; [exact Hu|]. lia.
Qed.

(** The result of the rounding is one of the two multiples of the unit
    around the integer. *)
Lemma round_cases (n : Z) :
  let u := 2 ^ ulp_exponent n in
  round_nearest_even n = n / u * u \/ round_nearest_even n = (n / u + 1) * u.
Proof.
  unfold round_nearest_even. cbv zeta.
  destruct (_ <? _); [now left|]. destruct (_ <? _); [now right|].
  destruct (Z.even _); [now left | now right].
Qed.

(** A multiple of a power of two with a significand of 53 bits is a
    number. *)
Lemma round_multiple (m e : Z) :
  0 <= e -> 2 ^ 52 <= m <= 2 ^ 53 -> round_nearest_even (m * 2 ^ e) = m * 2 ^ e.
Proof.
  intros He [Hlo Hhi].
  assert (Hu : 0 < 2 ^ e) by (apply Z.pow_pos_nonneg; lia).
  assert (Hm : 0 < m) by (pose proof (Z.pow_pos_nonneg 2 52); lia).
  destruct (Z.eq_dec m (2 ^ 53)) as [-> | Hne].
  - (* the significand is 2^53: one more bit *)
    assert (L : Z.log2 (2 ^ 53 * 2 ^ e) = 53 + e).
    { rewrite <- Z.pow_add_r by lia. apply Z.log2_pow2. lia. }
    unfold round_nearest_even, ulp_exponent. rewrite L.
    rewrite Z.max_r by lia. replace (53 + e - 52) with (e + 1) by lia.
    rewrite Z.pow_add_r by lia. change (2 ^ 1) with 2.
    replace (2 ^ 53 * 2 ^ e) with (2 ^ 52 * (2 ^ e * 2)) by (change (2 ^ 53) with (2 ^ 52 * 2); ring).
    rewrite Z.div_mul, Z.mod_mul by lia.
    cbv zeta. destruct (Z.ltb_spec (2 * 0) (2 ^ e * 2)); [reflexivity | lia].
  - assert (L : Z.log2 (m * 2 ^ e) = e + 52).
    { rewrite Z.log2_mul_pow2 by lia. f_equal.
      apply Z.log2_unique; [lia|]. change (2 ^ Z.succ 52) with (2 ^ 53). lia. }
    unfold round_nearest_even, ulp_exponent. rewrite L.
    rewrite Z.max_r by lia. replace (e + 52 - 52) with e by lia.
    rewrite Z.div_mul, Z.mod_mul by lia.
    cbv zeta. destruct (Z.ltb_spec (2 * 0) (2 ^ e)); [reflexivity | lia].
Qed.

(** What the rounding gives from 2^53 on. *)
Lemma round_large (n : Z) :
  2 ^ 53 <= n ->
  exists m e, 1 <= e /\ 2 ^ 52 <= m <= 2 ^ 53 /\ round_nearest_even n = m * 2 ^ e.
Proof.
  intros Hn. destruct (ulp_exponent_large n Hn) as [He H1].
  destruct (significand_bounds n Hn) as [Hu [Hlo Hhi]].
  destruct (round_cases n) as [E | E]; rewrite E.
  - exists (n / 2 ^ ulp_exponent n), (ulp_exponent n). lia.
  - exists (n / 2 ^ ulp_exponent n + 1), (ulp_exponent n). lia.
Qed.

Lemma round_nonneg (n : Z) : 0 <= n -> 0 <= round_nearest_even n.
Proof.
  intros Hn. destruct (Z.lt_ge_cases n (2 ^ 53)) as [Hs | Hl].
  - rewrite round_small; lia.
  - destruct (round_large n Hl) as (m & e & He & Hm & ->).
    pose proof (Z.pow_pos_nonneg 2 e). pose proof (Z.pow_pos_nonneg 2 52). nia.
Qed.

Lemma round_ge_2_53 (n : Z) : 2 ^ 53 <= n -> 2 ^ 53 <= round_nearest_even n.
Proof.
  intros Hn. destruct (round_large n Hn) as (m & e & He & Hm & ->).
  assert (2 ^ 1 <= 2 ^ e) by (apply Z.pow_le_mono_r; lia).
  change (2 ^ 53) with (2 ^ 52 * 2 ^ 1) at 1.
  pose proof (Z.pow_pos_nonneg 2 52). nia.
Qed.

(** Rounding a number gives the number. *)
Lemma round_idempotent (n : Z) :
  0 <= n -> round_nearest_even (round_nearest_even n) = round_nearest_even n.
Proof.
  intros Hn. destruct (Z.lt_ge_cases n (2 ^ 53)) as [Hs | Hl].
  - rewrite (round_small n) by lia. apply round_small. lia.
  - destruct (round_large n Hl) as (m & e & He & Hm & ->).
    apply round_multiple; lia.
Qed.

(** From 2^53 on the numbers are even. *)
Lemma round_even (n : Z) : 2 ^ 53 <= n -> Z.even (round_nearest_even n) = true.
Proof.
  intros Hn. destruct (round_large n Hn) as (m & e & He & Hm & ->).
  rewrite Z.even_mul, Z.even_pow by lia. apply orb_true_r.
Qed.

(** Up to 2^53 included, every integer is a number. *)
Lemma round_exact (n : Z) : 0 <= n <= 2 ^ 53 -> round_nearest_even n = n.
Proof.
  intros [H0 Hn]. destruct (Z.eq_dec n (2 ^ 53)) as [-> | Hne].
  - vm_compute. reflexivity.
  - apply round_small. lia.
Qed.

Lemma round_ge_1e21 (v : Z) : 10 ^ 21 <= v -> 10 ^ 21 <= round_nearest_even v.
Proof.
  intros Hv.
  assert (Hl : 2 ^ 53 <= v) by (assert (2 ^ 53 <= 10 ^ 21) by (vm_compute; discriminate); lia).
  destruct (ulp_exponent_large v Hl) as [He _].
  destruct (significand_bounds v Hl) as [Hu [Hlo Hhi]].
  assert (H69 : 69 <= Z.log2 v).
  { change 69 with (Z.log2 (10 ^ 21)). now apply Z.log2_le_mono. }
  assert (Hq : 10 ^ 21 <= v / 2 ^ ulp_exponent v * 2 ^ ulp_exponent v).
  { destruct (Z.eq_dec (ulp_exponent v) 17) as [E | E].
    - rewrite E. change (10 ^ 21) with (10 ^ 21 / 2 ^ 17 * 2 ^ 17) at 1.
      apply Z.mul_le_mono_nonneg_r; [lia|]. apply Z.div_le_mono; lia.
    - assert (2 ^ 18 <= 2 ^ ulp_exponent v) by (apply Z.pow_le_mono_r; lia).
      assert (10 ^ 21 <= 2 ^ 52 * 2 ^ 18) by (vm_compute; discriminate).
      nia. }
  destruct (round_cases v) as [E | E]; rewrite E; lia.
Qed.

(** *** Numbers that are not negative *)

Lemma to_Number_nonneg (z : Z) : 0 <= z -> to_Number z = round_nearest_even z.
Proof.
  intros Hz. unfold to_Number. destruct (Z.eq_dec z 0) as [-> | Hne].
  - vm_compute. reflexivity.
  - rewrite Z.sgn_pos, Z.abs_eq by lia. apply Z.mul_1_l.
Qed.

Lemma to_Number_nonpos (z : Z) : z <= 0 -> to_Number z <= 0.
Proof.
  intros Hz. unfold to_Number. destruct (Z.eq_dec z 0) as [-> | Hne].
  - vm_compute. discriminate.
  - rewrite Z.sgn_neg by lia. pose proof (round_nonneg (Z.abs z) (Z.abs_nonneg z)). lia.
Qed.

Lemma to_Number_exact (z : Z) : 0 <= z <= 2 ^ 53 -> to_Number z = z.
Proof. intros Hz. rewrite to_Number_nonneg by lia. now apply round_exact. Qed.

Lemma is_Number_small (z : Z) : 0 <= z <= 2 ^ 53 -> is_Number z.
Proof.
  intros Hz. split; [now apply to_Number_exact|].
  assert (2 ^ 53 < 2 ^ 1024) by (apply Z.pow_lt_mono_r; lia). lia.
Qed.

(** A number from 2^53 on is even. *)
Lemma is_Number_even (z : Z) : is_Number z -> 2 ^ 53 <= z -> Z.even z = true.
Proof.
  intros [E _] Hz. rewrite to_Number_nonneg in E.
  - rewrite <- E. now apply round_even.
  - pose proof (Z.pow_pos_nonneg 2 53). lia.
Qed.

(** One more than a number is a number exactly below 2^53. *)
Lemma successor_exact (x : Z) :
  is_Number x -> 0 <= x -> (to_Number (x + 1) = x + 1 <-> x < 2 ^ 53).
Proof.
  intros Hx H0. split.
  - intros E. destruct (Z.lt_ge_cases x (2 ^ 53)) as [Hs | Hl]; [exact Hs|].
    exfalso. pose proof (is_Number_even x Hx Hl) as Hev.
    rewrite to_Number_nonneg in E by lia.
    assert (Ho : Z.even (x + 1) = true) by (rewrite <- E; apply round_even; lia).
    rewrite Z.even_add, Hev in Ho. discriminate Ho.
  - intros Hs. apply to_Number_exact. lia.
Qed.

(** One less than a positive number is a number exactly up to 2^53. *)
Lemma predecessor_exact (x : Z) :
  is_Number x -> 0 < x -> (to_Number (x - 1) = x - 1 <-> x <= 2 ^ 53).
Proof.
  intros Hx H0. split.
  - intros E. destruct (Z.le_gt_cases x (2 ^ 53)) as [Hs | Hl]; [exact Hs|].
    exfalso. pose proof (is_Number_even x Hx ltac:(lia)) as Hev.
    rewrite to_Number_nonneg in E by lia.
    assert (Ho : Z.even (x - 1) = true) by (rewrite <- E; apply round_even; lia).
    rewrite Z.even_sub, Hev in Ho. discriminate Ho.
  - intros Hs. apply to_Number_exact. lia.
Qed.

Local Close Scope Z_scope.

(** *** Decimal digits *)

Lemma is_digit_cases (c : ascii) :
  is_digit c = true ->
  c = "0"%char \/ c = "1"%char \/ c = "2"%char \/ c = "3"%char \/ c = "4"%char \/
  c = "5"%char \/ c = "6"%char \/ c = "7"%char \/ c = "8"%char \/ c = "9"%char.
Proof.
  destruct c as [[] [] [] [] [] [] [] []]; cbv; intros E;
    try discriminate E; tauto.
Qed.

Lemma all_digits_of_uint (d : Decimal.uint) :
  all_digits (NilEmpty.string_of_uint d) = true.
Proof. induction d; simpl; auto. Qed.

Lemma all_digits_uint (g : string) :
  all_digits g = true -> exists d, g = NilEmpty.string_of_uint d.
Proof.
  induction g as [|c g IH]; simpl; intros E.
  - exists Decimal.Nil. reflexivity.
  - apply andb_true_iff in E. destruct E as [Ec Eg].
    destruct (IH Eg) as [d ->].
    destruct (is_digit_cases c Ec) as [-> | [-> | [-> | [-> | [-> | [-> | [-> | [-> | [-> | ->]]]]]]]]].
    + exists (Decimal.D0 d). reflexivity.
    + exists (Decimal.D1 d). reflexivity.
    + exists (Decimal.D2 d). reflexivity.
    + exists (Decimal.D3 d). reflexivity.
    + exists (Decimal.D4 d). reflexivity.
    + exists (Decimal.D5 d). reflexivity.
    + exists (Decimal.D6 d). reflexivity.
    + exists (Decimal.D7 d). reflexivity.
    + exists (Decimal.D8 d). reflexivity.
    + exists (Decimal.D9 d). reflexivity.
Qed.

Lemma parseInt_acc_pos (d : Decimal.uint) (acc : positive) :
  parseInt_acc (Z.pos acc) (NilEmpty.string_of_uint d) = Z.pos (Pos.of_uint_acc d acc).
Proof.
  revert acc. induction d; intros acc; simpl; try reflexivity;
    rewrite <- IHd; f_equal; lia.
Qed.

Lemma parseInt_acc_zero (d : Decimal.uint) :
  parseInt_acc 0 (NilEmpty.string_of_uint d) = Z.of_uint d.
Proof.
  unfold Z.of_uint.
  induction d; simpl; try reflexivity; try assumption;
    apply (parseInt_acc_pos d).
Qed.

Lemma string_of_uint_nonnil (d : Decimal.uint) :
  d <> Decimal.Nil -> NilZero.string_of_uint d = NilEmpty.string_of_uint d.
Proof. destruct d; congruence || reflexivity. Qed.

(** The numeral of a non-negative integer: the digits of its decimal
    numeral, which is not empty. *)
Lemma decimal_nonneg (z : Z) :
  (0 <= z)%Z ->
  exists d, d <> Decimal.Nil /\ Z.of_uint d = z /\
            decimal z = NilEmpty.string_of_uint d.
Proof.
  intros Hz. destruct z as [|p|p]; try lia.
  - exists (Decimal.D0 Decimal.Nil). repeat split. discriminate.
  - exists (Pos.to_uint p). split; [apply Unsigned.to_uint_nonnil|]. split.
    + unfold Z.of_uint. now rewrite DecimalPos.Unsigned.of_to.
    + unfold decimal. simpl.
      apply string_of_uint_nonnil, Unsigned.to_uint_nonnil.
Qed.

Lemma decimal_value (z : Z) : (0 <= z)%Z -> parseInt_acc 0 (decimal z) = z.
Proof.
  intros Hz. destruct (decimal_nonneg z Hz) as (d & Hd & Hv & ->).
  now rewrite parseInt_acc_zero.
Qed.

Lemma decimal_digits (z : Z) : (0 <= z)%Z -> all_digits (decimal z) = true.
Proof.
  intros Hz. destruct (decimal_nonneg z Hz) as (d & _ & _ & ->).
  apply all_digits_of_uint.
Qed.

Lemma decimal_nonempty (z : Z) : decimal z <> EmptyString.
Proof.
  destruct z as [|p|p]; unfold decimal; simpl; try discriminate.
  rewrite string_of_uint_nonnil by apply Unsigned.to_uint_nonnil.
  pose proof (Unsigned.to_uint_nonnil p) as Hp.
  destruct (Pos.to_uint p); simpl; congruence.
Qed.

Lemma decimal_numeric (z : Z) : (0 <= z)%Z -> numeric (decimal z).
Proof. intros Hz. split; [apply decimal_nonempty | now apply decimal_digits]. Qed.

(** A run of digits without superfluous leading zero is the numeral of
    the integer it denotes. *)
Lemma decimal_of_digits (g : string) :
  numeric g -> no_leading_zero g = true -> decimal (parseInt_acc 0 g) = g.
Proof.
  intros [Hne Hg] Hz. destruct (all_digits_uint g Hg) as [d ->].
  assert (Hd : d <> Decimal.Nil) by (intros ->; now apply Hne).
  rewrite parseInt_acc_zero. unfold decimal.
  change (Z.of_uint d) with (Z.of_int (Decimal.Pos d)).
  rewrite DecimalZ.to_of. simpl.
  assert (Hn : Decimal.unorm d = d).
  { destruct d as [|d|d|d|d|d|d|d|d|d|d]; try reflexivity; try congruence.
    destruct d; try reflexivity; discriminate Hz. }
  rewrite Hn. now apply string_of_uint_nonnil.
Qed.

Lemma append_assoc (a b c : string) : (a +:+ b) +:+ c = a +:+ (b +:+ c).
Proof. induction a; simpl; congruence. Qed.

Lemma append_empty_r (a : string) : a +:+ EmptyString = a.
Proof. induction a; simpl; congruence. Qed.

Lemma parseInt_acc_app (a b : string) (acc : Z) :
  all_digits a = true ->
  parseInt_acc acc (a +:+ b) = parseInt_acc (parseInt_acc acc a) b.
Proof.
  revert acc. induction a as [|c a IH]; intros acc Ha; [reflexivity|].
  cbn [all_digits] in Ha. apply andb_true_iff in Ha. destruct Ha as [Hc Ha].
  cbn [String.append parseInt_acc]. unfold is_digit in Hc.
  destruct (digit_value c) as [d|]; [|discriminate]. now apply IH.
Qed.

Lemma all_digits_app (a b : string) :
  all_digits a = true -> all_digits b = true -> all_digits (a +:+ b) = true.
Proof.
  intros Ha Hb. induction a as [|c a IH]; [exact Hb|].
  cbn [all_digits] in Ha. apply andb_true_iff in Ha. destruct Ha as [Hc Ha].
  cbn [String.append all_digits]. now rewrite Hc, IH.
Qed.

(** The numeral of a positive integer does not start with a zero. *)
Lemma decimal_head (z : Z) :
  (0 < z)%Z -> exists c s, decimal z = String c s /\ c <> "0"%char.
Proof.
  intros Hz. destruct z as [|p|p]; try lia.
  unfold decimal. cbn [Z.to_int NilZero.string_of_int].
  rewrite string_of_uint_nonnil by apply DecimalPos.Unsigned.to_uint_nonnil.
  assert (Hn : Pos.to_uint p = Decimal.nzhead (Pos.to_uint p)).
  { pose proof (DecimalPos.Unsigned.to_of (Pos.to_uint p)) as T.
    rewrite DecimalPos.Unsigned.of_to in T. cbn [N.to_uint] in T.
    rewrite T at 1. apply unorm_nzhead.
    intros E. apply unorm_0 in E. rewrite <- T in E.
    now apply (DecimalPos.Unsigned.to_uint_nonzero p). }
  pose proof (nzhead_nonzero (Pos.to_uint p)) as Hz0.
  pose proof (DecimalPos.Unsigned.to_uint_nonnil p) as Hnil.
  rewrite <- Hn in Hz0.
  destruct (Pos.to_uint p) as [|d|d|d|d|d|d|d|d|d|d]; try congruence;
    cbn [NilEmpty.string_of_uint]; try (eexists _, _; split; [reflexivity|discriminate]).
Qed.

(** Ten times a positive integer is written with one more zero. *)
Lemma decimal_tenfold (z : Z) : (0 < z)%Z -> decimal (z * 10) = decimal z +:+ "0".
Proof.
  intros Hz.
  assert (Hd : all_digits (decimal z) = true) by (apply decimal_digits; lia).
  assert (Hn : numeric (decimal z +:+ "0")).
  { split; [|apply all_digits_app; [exact Hd | reflexivity]].
    pose proof (decimal_nonempty z).
    destruct (decimal z); [congruence | discriminate]. }
  rewrite <- (decimal_of_digits (decimal z +:+ "0") Hn).
  - f_equal. rewrite parseInt_acc_app, decimal_value by (try exact Hd; lia).
    cbn. lia.
  - destruct (decimal_head z Hz) as (c & s & -> & Hc).
    cbn [String.append no_leading_zero].
    destruct (s +:+ "0") eqn:E.
    + destruct s; discriminate E.
    + apply negb_true_iff. now destruct (Ascii.eqb_spec c "0").
Qed.

Lemma zeros_snoc (j : nat) : zeros j +:+ "0" = zeros (S j).
Proof. induction j as [|j IH]; [reflexivity|]. cbn [zeros String.append]. now rewrite IH. Qed.

(** A positive integer followed by [j] zeros. *)
Lemma decimal_shift (s : Z) (j : nat) :
  (0 < s)%Z -> decimal (s * 10 ^ Z.of_nat j) = decimal s +:+ zeros j.
Proof.
  intros Hs. induction j as [|j IH].
  - cbn [zeros]. rewrite append_empty_r. f_equal. change (10 ^ Z.of_nat 0)%Z with 1%Z. lia.
  - rewrite Nat2Z.inj_succ, Z.pow_succ_r by lia.
    replace (s * (10 * 10 ^ Z.of_nat j))%Z with (s * 10 ^ Z.of_nat j * 10)%Z by ring.
    rewrite decimal_tenfold.
    + now rewrite IH, append_assoc, zeros_snoc.
    + pose proof (Z.pow_pos_nonneg 10 (Z.of_nat j)). nia.
Qed.

(** *** [parseInt] *)

Lemma Number_of_Integer (n a : Z) :
  (0 <= n)%Z -> Number_of n = Integer a ->
  a = round_nearest_even n /\ (0 <= a)%Z /\ is_Number a.
Proof.
  intros Hn. unfold Number_of.
  destruct (Z.ltb_spec (round_nearest_even n) (2 ^ 1024)) as [Hlt | _]; [|discriminate].
  intros [= <-]. pose proof (round_nonneg n Hn) as H0.
  split; [reflexivity|]. split; [exact H0|]. split.
  - rewrite to_Number_nonneg by exact H0. now apply round_idempotent.
  - now rewrite Z.abs_eq.
Qed.

Lemma Number_of_exact (n : Z) : (0 <= n <= 2 ^ 53)%Z -> Number_of n = Integer n.
Proof.
  intros Hn. unfold Number_of. rewrite round_exact by exact Hn.
  assert (2 ^ 53 < 2 ^ 1024)%Z by (apply Z.pow_lt_mono_r; lia).
  destruct (Z.ltb_spec n (2 ^ 1024)); [reflexivity | lia].
Qed.

(** On a run of digits [parseInt] gives the number for its value. *)
Lemma parseInt_numeric (g : string) :
  numeric g -> parseInt g = Number_of (parseInt_acc 0 g).
Proof.
  intros [Hne Hd]. destruct g as [|c g]; [congruence|].
  cbn [all_digits] in Hd. apply andb_true_iff in Hd. destruct Hd as [Hc _].
  unfold parseInt. now rewrite Hc.
Qed.

Lemma digit_value_nonneg (c : ascii) (d : Z) :
  digit_value c = Some d -> (0 <= d)%Z.
Proof.
  destruct c as [[] [] [] [] [] [] [] []]; cbv; intros E;
    try discriminate E; injection E as <-; discriminate.
Qed.

Lemma parseInt_acc_nonneg (s : string) (acc : Z) :
  (0 <= acc)%Z -> (0 <= parseInt_acc acc s)%Z.
Proof.
  revert acc. induction s as [|c s IH]; intros acc Ha; simpl; [assumption|].
  destruct (digit_value c) as [d|] eqn:E; [|assumption].
  apply IH. pose proof (digit_value_nonneg c d E). lia.
Qed.

(** What [parseInt] returns is a number that is not negative. *)
Lemma parseInt_Integer (g : string) (a : Z) :
  parseInt g = Integer a -> (0 <= a)%Z /\ is_Number a.
Proof.
  unfold parseInt. destruct g as [|c g]; [discriminate|].
  destruct (is_digit c); [|discriminate]. intros E.
  apply Number_of_Integer in E; [tauto|].
  apply (parseInt_acc_nonneg (String c g) 0). lia.
Qed.

(** The numeral of an integer is read as the number nearest to it. *)
Lemma parseInt_decimal (v : Z) : (0 <= v)%Z -> parseInt (decimal v) = Number_of v.
Proof.
  intros Hv. rewrite parseInt_numeric by now apply decimal_numeric.
  now rewrite decimal_value.
Qed.

(** *** [Number::toString] *)

Lemma shortest_at_fit (x : Z) (d k : nat) (s : Z) (j : nat) :
  shortest_at x d k = Some (s, j) -> to_Number (s * 10 ^ Z.of_nat j) = x.
Proof.
  unfold shortest_at. cbv zeta.
  set (p := (10 ^ Z.of_nat (d - k))%Z). set (q := (x / p)%Z).
  assert (Hhigh : forall c : Z * nat,
             (if (q + 1 =? 10 ^ Z.of_nat k)%Z then (1%Z, (d - k + k)%nat)
              else ((q + 1)%Z, (d - k)%nat)) = c ->
             (fst c * 10 ^ Z.of_nat (snd c) = (q + 1) * p)%Z).
  { intros c <-. destruct (Z.eqb_spec (q + 1) (10 ^ Z.of_nat k)) as [E | _].
    - cbn [fst snd]. rewrite E, Nat2Z.inj_add, Z.pow_add_r by lia. unfold p. ring.
    - reflexivity. }
  destruct (Z.eqb_spec (to_Number (q * p)) x) as [El | _];
    destruct (Z.eqb_spec (to_Number ((q + 1) * p)) x) as [Eh | _];
    try discriminate.
  - destruct (_ <? _)%Z; [now intros [= <- <-]|].
    destruct (_ <? _)%Z; [intros E; injection E as E; specialize (Hhigh _ E); cbn [fst snd] in Hhigh; now rewrite Hhigh|].
    destruct (Z.even q); [now intros [= <- <-]|].
    intros E. injection E as E. specialize (Hhigh _ E). cbn [fst snd] in Hhigh.
    now rewrite Hhigh.
  - now intros [= <- <-].
  - intros E. injection E as E. specialize (Hhigh _ E). cbn [fst snd] in Hhigh.
    now rewrite Hhigh.
Qed.

Lemma shortest_from_fit (x : Z) (d k fuel : nat) (s : Z) (j : nat) :
  shortest_from x d k fuel = Some (s, j) -> to_Number (s * 10 ^ Z.of_nat j) = x.
Proof.
  revert k. induction fuel as [|fuel IH]; intros k; [discriminate|].
  cbn [shortest_from]. destruct (shortest_at x d k) as [[s' j']|] eqn:E.
  - intros [= <- <-]. now apply shortest_at_fit in E.
  - apply IH.
Qed.

(** The digits chosen for a number denote an integer that is rounded to
    the number. *)
Lemma shortest_fit (x : Z) :
  to_Number x = x ->
  to_Number (fst (shortest x) * 10 ^ Z.of_nat (snd (shortest x))) = x.
Proof.
  intros Hx. unfold shortest.
  destruct (shortest_from x _ 1 17) as [[s j]|] eqn:E.
  - now apply shortest_from_fit in E.
  - cbn [fst snd]. change (10 ^ Z.of_nat 0)%Z with 1%Z. now rewrite Z.mul_1_r.
Qed.

(** A positive number below 10^21 is printed as the numeral of an
    integer that is rounded to it. *)
Lemma Number_toString_positional (x : Z) :
  (0 < x)%Z -> positional x ->
  exists v : Z,
    (0 < v)%Z /\ round_nearest_even v = x /\ Number_toString x = decimal v.
Proof.
  intros Hpos [[Hx _] Hlt]. rewrite Z.abs_eq in Hlt by lia.
  pose proof (shortest_fit x Hx) as Hfit.
  unfold Number_toString.
  destruct (Z.eqb_spec x 0) as [E | _]; [lia|].
  destruct (Z.ltb_spec x 0) as [E | _]; [lia|].
  unfold Number_toString_positive.
  destruct (shortest x) as [s j]. cbn [fst snd] in Hfit.
  set (v := (s * 10 ^ Z.of_nat j)%Z) in *.
  assert (Hv : (0 < v)%Z).
  { destruct (Z.lt_ge_cases 0%Z v) as [H | H]; [exact H|].
    pose proof (to_Number_nonpos v H). lia. }
  rewrite to_Number_nonneg in Hfit by lia.
  assert (Hs : (0 < s)%Z).
  { pose proof (Z.pow_pos_nonneg 10 (Z.of_nat j)). unfold v in Hv. nia. }
  exists v. split; [exact Hv|]. split; [exact Hfit|].
  destruct (Z.ltb_spec v (10 ^ 21)) as [_ | Hge].
  - symmetry. now apply decimal_shift.
  - pose proof (round_ge_1e21 v Hge). lia.
Qed.

(** An integer below 2^53 is printed as its numeral. *)
Lemma Number_toString_safe (z : Z) :
  (0 <= z < 2 ^ 53)%Z -> Number_toString z = decimal z.
Proof.
  intros [H0 Hz]. destruct (Z.eq_dec z 0%Z) as [-> | Hne]; [reflexivity|].
  assert (H21 : (2 ^ 53 < 10 ^ 21)%Z) by (vm_compute; reflexivity).
  destruct (Number_toString_positional z) as (v & Hv & Hr & ->); [lia| |].
  { split; [apply is_Number_small; lia | rewrite Z.abs_eq; lia]. }
  f_equal. destruct (Z.lt_ge_cases v (2 ^ 53)) as [Hs | Hl].
  - rewrite round_small in Hr; lia.
  - pose proof (round_ge_2_53 v Hl). lia.
Qed.

(** The text of a number below 10^21 that is not negative is a run of
    digits, read by [parseInt] as the number. *)
Lemma Number_toString_read (x : Z) :
  (0 <= x)%Z -> positional x ->
  numeric (Number_toString x) /\ parseInt (Number_toString x) = Integer x.
Proof.
  intros H0 Hp. destruct (Z.eq_dec x 0%Z) as [-> | Hne].
  - split; [split; [discriminate | reflexivity] | reflexivity].
  - destruct (Number_toString_positional x) as (v & Hv & Hr & ->); [lia | exact Hp |].
    split; [apply decimal_numeric; lia|].
    rewrite parseInt_decimal by lia. unfold Number_of. rewrite Hr.
    destruct Hp as [[_ Hb] _]. rewrite Z.abs_eq in Hb by lia.
    destruct (Z.ltb_spec x (2 ^ 1024)); [reflexivity | lia].
Qed.

(** Numbers below 10^21 with the same text are the same. *)
Lemma Number_toString_inj (a b : Z) :
  (0 <= a)%Z -> positional a -> (0 <= b)%Z -> positional b ->
  Number_toString a = Number_toString b -> a = b.
Proof.
  intros Ha Pa Hb Pb E.
  destruct (Number_toString_read a Ha Pa) as [_ Ra].
  destruct (Number_toString_read b Hb Pb) as [_ Rb].
  rewrite E in Ra. congruence.
Qed.

(** A run of digits without superfluous leading zero that denotes an
    integer below 2^53 is written as the language prints its number. *)
Lemma printed_safe (g : string) :
  numeric g -> no_leading_zero g = true -> (parseInt_acc 0 g < 2 ^ 53)%Z ->
  printed g = true.
Proof.
  intros Hg Hz Hs. unfold printed.
  pose proof (parseInt_acc_nonneg g 0 ltac:(lia)) as H0.
  rewrite parseInt_numeric, Number_of_exact by (try exact Hg; lia).
  rewrite Number_toString_safe by lia.
  rewrite decimal_of_digits by assumption. apply String.eqb_refl.
Qed.

End NumberFacts.

(* ================================================================== *)
(** ** Facts about the version model *)
(* ================================================================== *)

Module VersionFacts.
Import Js Node Version NumberFacts.

(** *** The structure of an accepted string *)

Lemma span_digits_app (a rest : string) :
  all_digits a = true -> starts_nondigit rest ->
  span_digits (a +:+ rest) = (a, rest).
Proof.
  intros Ha Hr. induction a as [|c a IH]; simpl in *.
  - destruct rest as [|c r]; simpl in *; [reflexivity | now rewrite Hr].
  - apply andb_true_iff in Ha. destruct Ha as [Hc Ha].
    rewrite Hc, (IH Ha). reflexivity.
Qed.

Lemma span_digits_spec (s d r : string) :
  span_digits s = (d, r) ->
  s = d +:+ r /\ all_digits d = true /\ starts_nondigit r.
Proof.
  revert d r. induction s as [|c s IH]; simpl; intros d r E.
  - injection E as <- <-. simpl. auto.
  - destruct (is_digit c) eqn:Hc.
    + destruct (span_digits s) as [d' r'] eqn:Es. injection E as <- <-.
      destruct (IH d' r' eq_refl) as (-> & Hd & Hr). simpl. rewrite Hc. auto.
    + injection E as <- <-. simpl. auto.
Qed.

Lemma digits_group_app (a rest : string) :
  all_digits a = true -> a <> EmptyString -> starts_nondigit rest ->
  digits_group (a +:+ rest) = Some (a, rest).
Proof.
  intros Ha Hne Hr. unfold digits_group. rewrite span_digits_app by assumption.
  destruct a; congruence.
Qed.

Lemma digits_group_spec (s g r : string) :
  digits_group s = Some (g, r) ->
  s = g +:+ r /\ all_digits g = true /\ g <> EmptyString.
Proof.
  unfold digits_group. destruct (span_digits s) as [d r'] eqn:E.
  destruct (span_digits_spec _ _ _ E) as (-> & Hd & _).
  destruct d; intros [= <- <-]. repeat split; [assumption | discriminate].
Qed.

Lemma literal_dot_spec (s r : string) :
  literal_dot s = Some r -> s = "." +:+ r.
Proof.
  destruct s as [|c s]; simpl; [discriminate|].
  destruct (Ascii.eqb_spec c ".") as [-> | Hc]; [|discriminate].
  now intros [= ->].
Qed.

Lemma build_suffix_spec (s : string) (b : option string) :
  build_suffix s = Some b ->
  s = suffix_text b /\ truthy_string b = b /\
  match b with Some x => no_line_terminator x = true | None => True end.
Proof.
  unfold build_suffix. destruct s as [|c s].
  - intros [= <-]. auto.
  - destruct (Ascii.eqb_spec c "-") as [-> | Hc]; [|discriminate].
    destruct s as [|d s]; [discriminate|].
    destruct (no_line_terminator (String d s)) eqn:E; [|discriminate].
    intros [= <-]. auto.
Qed.

Lemma build_suffix_text (b : option string) :
  truthy_string b = b ->
  match b with Some x => no_line_terminator x = true | None => True end ->
  build_suffix (suffix_text b) = Some b.
Proof.
  destruct b as [[|c x]|]; intros T L; try discriminate; try reflexivity.
  simpl in *. now rewrite L.
Qed.

(** What a successful match says about the string. *)
Lemma version_match_spec (s : string) (m : VersionMatch) :
  version_match s = Some m ->
  s = majorStr m +:+ "." +:+ minorStr m +:+ "." +:+ patchStr m +:+
      suffix_text (buildStr m) /\
  (all_digits (majorStr m) = true /\ all_digits (minorStr m) = true /\
   all_digits (patchStr m) = true) /\
  truthy_string (buildStr m) = buildStr m.
Proof.
  unfold version_match.
  destruct (digits_group s) as [[g1 r1]|] eqn:E1; [|discriminate].
  destruct (literal_dot r1) as [r1'|] eqn:D1; [|discriminate].
  destruct (digits_group r1') as [[g2 r2]|] eqn:E2; [|discriminate].
  destruct (literal_dot r2) as [r2'|] eqn:D2; [|discriminate].
  destruct (digits_group r2') as [[g3 r3]|] eqn:E3; [|discriminate].
  destruct (build_suffix r3) as [b|] eqn:B; [|discriminate].
  intros [= <-]. simpl.
  apply digits_group_spec in E1, E2, E3.
  apply literal_dot_spec in D1, D2. apply build_suffix_spec in B.
  destruct E1 as (-> & H1 & _), E2 as (-> & H2 & _), E3 as (-> & H3 & _).
  destruct B as (-> & Hb & _). subst r1 r2. auto.
Qed.

(** The match of a string built from three numerals and a suffix. *)
Lemma version_match_build (g1 g2 g3 : string) (b : option string) :
  all_digits g1 = true -> g1 <> EmptyString ->
  all_digits g2 = true -> g2 <> EmptyString ->
  all_digits g3 = true -> g3 <> EmptyString ->
  truthy_string b = b ->
  match b with Some x => no_line_terminator x = true | None => True end ->
  version_match (g1 +:+ "." +:+ g2 +:+ "." +:+ g3 +:+ suffix_text b)
  = Some (mkMatch g1 g2 g3 b).
Proof.
  intros H1 N1 H2 N2 H3 N3 T L. unfold version_match.
  rewrite digits_group_app by (try assumption; reflexivity). simpl.
  rewrite digits_group_app by (try assumption; reflexivity). simpl.
  rewrite digits_group_app; try assumption.
  - now rewrite build_suffix_text.
  - destruct b as [x|]; simpl; [reflexivity | exact I].
Qed.

Lemma formatVersion_text (v : SemanticVersion) :
  formatVersion v =
  Number_toString (major v) +:+ "." +:+ Number_toString (minor v) +:+ "." +:+
  Number_toString (patch v) +:+ suffix_text (truthy_string (build v)).
Proof.
  unfold formatVersion.
  destruct (truthy_string (build v)) as [b|]; simpl.
  - repeat (rewrite append_assoc; simpl). reflexivity.
  - now rewrite append_empty_r.
Qed.

Lemma truthy_string_idem (o : option string) :
  truthy_string (truthy_string o) = truthy_string o.
Proof. destruct o as [[|c s]|]; reflexivity. Qed.

Lemma formatVersion_nonempty (v : SemanticVersion) :
  formatVersion v <> EmptyString.
Proof.
  rewrite formatVersion_text. now destruct (Number_toString (major v)).
Qed.

(** *** Parsing and formatting *)

Lemma build_text_truthy (b : option string) : build_text b -> truthy_string b = b.
Proof. destruct b as [[|c t]|]; simpl; try reflexivity. now intros [Hne _]. Qed.

(** A successful match, in full: the string is three numeric groups
    between dots, and then the build tag. *)
Lemma version_match_full (s : string) (m : VersionMatch) :
  version_match s = Some m ->
  s = majorStr m +:+ "." +:+ minorStr m +:+ "." +:+ patchStr m +:+
      suffix_text (buildStr m) /\
  numeric (majorStr m) /\ numeric (minorStr m) /\ numeric (patchStr m) /\
  build_text (buildStr m).
Proof.
  unfold version_match.
  destruct (digits_group s) as [[g1 r1]|] eqn:E1; [|discriminate].
  destruct (literal_dot r1) as [r1'|] eqn:D1; [|discriminate].
  destruct (digits_group r1') as [[g2 r2]|] eqn:E2; [|discriminate].
  destruct (literal_dot r2) as [r2'|] eqn:D2; [|discriminate].
  destruct (digits_group r2') as [[g3 r3]|] eqn:E3; [|discriminate].
  destruct (build_suffix r3) as [b|] eqn:B; [|discriminate].
  intros [= <-]. simpl.
  apply digits_group_spec in E1, E2, E3.
  apply literal_dot_spec in D1, D2. apply build_suffix_spec in B.
  destruct E1 as (-> & H1 & N1), E2 as (-> & H2 & N2), E3 as (-> & H3 & N3).
  destruct B as (-> & Hb & Hl). subst r1 r2.
  repeat split; try assumption.
  destruct b as [[|c t]|]; simpl in *; try discriminate; auto.
Qed.

(** What [parseVersion] returns was written in the string. *)
Lemma parseVersion_sound (version : string) (v : SemanticVersion) :
  parseVersion version = Some v ->
  exists g1 g2 g3 : string,
    version = g1 +:+ "." +:+ g2 +:+ "." +:+ g3 +:+ suffix_text (build v) /\
    numeric g1 /\ numeric g2 /\ numeric g3 /\
    parseInt g1 = Integer (major v) /\ parseInt g2 = Integer (minor v) /\
    parseInt g3 = Integer (patch v) /\ build_text (build v).
Proof.
  unfold parseVersion. intros P.
  destruct (version_match version) as [m|] eqn:E; [|discriminate].
  destruct (version_match_full _ _ E) as (Hs & H1 & H2 & H3 & Hb).
  destruct (parseInt (majorStr m)) as [| |a] eqn:P1; try discriminate.
  destruct (parseInt (minorStr m)) as [| |b] eqn:P2; try discriminate.
  destruct (parseInt (patchStr m)) as [| |c] eqn:P3; try discriminate.
  unfold SemanticVersionSchema_parse in P.
  destruct (SemanticVersionSchema _); [|discriminate].
  injection P as <-. cbn [major minor patch build].
  rewrite (build_text_truthy _ Hb).
  exists (majorStr m), (minorStr m), (patchStr m). split_and!; assumption.
Qed.

(** A string of that form is accepted. *)
Lemma parseVersion_complete (g1 g2 g3 : string) (v : SemanticVersion) :
  numeric g1 -> numeric g2 -> numeric g3 ->
  parseInt g1 = Integer (major v) -> parseInt g2 = Integer (minor v) ->
  parseInt g3 = Integer (patch v) -> build_text (build v) ->
  parseVersion (g1 +:+ "." +:+ g2 +:+ "." +:+ g3 +:+ suffix_text (build v)) = Some v.
Proof.
  intros [N1 H1] [N2 H2] [N3 H3] P1 P2 P3 Hb. unfold parseVersion.
  rewrite version_match_build; try assumption.
  - cbn [majorStr minorStr patchStr buildStr]. rewrite P1, P2, P3.
    rewrite (build_text_truthy _ Hb).
    unfold SemanticVersionSchema_parse, SemanticVersionSchema.
    cbn [major minor patch].
    apply parseInt_Integer in P1, P2, P3.
    destruct (Z.leb_spec 0 (major v)), (Z.leb_spec 0 (minor v)),
      (Z.leb_spec 0 (patch v)); try lia.
    now destruct v.
  - now apply build_text_truthy.
  - destruct (build v) as [t|]; [apply Hb | exact I].
Qed.

Lemma valid_build_truthy (v : SemanticVersion) :
  valid v -> truthy_string (build v) = build v.
Proof.
  intros (_ & _ & _ & Hb). destruct (build v) as [[|c t]|]; try reflexivity.
  congruence.
Qed.

(** The text of a valid version whose parts are printed in positional
    notation, with a build tag on one line, is read back as that
    version. *)
Lemma parseVersion_formatVersion (v : SemanticVersion) :
  valid v -> printable v -> build_on_one_line v = true ->
  parseVersion (formatVersion v) = Some v.
Proof.
  intros Hv (Pa & Pb & Pc) Hl. pose proof (valid_build_truthy v Hv) as T.
  destruct Hv as (Ha & Hb & Hc & Hbd).
  destruct (Number_toString_read _ Ha Pa) as [Na Ra].
  destruct (Number_toString_read _ Hb Pb) as [Nb Rb].
  destruct (Number_toString_read _ Hc Pc) as [Nc Rc].
  rewrite formatVersion_text, T.
  apply parseVersion_complete; try assumption.
  unfold build_on_one_line in Hl. unfold build_text.
  destruct (build v) as [t|]; [|exact I].
  split; [congruence | exact Hl].
Qed.

(** What [parseVersion] returns is a valid version whose parts are
    numbers, with a build tag on one line. *)
Lemma parseVersion_valid (s : string) (v : SemanticVersion) :
  parseVersion s = Some v ->
  valid v /\ build_on_one_line v = true /\
  is_Number (major v) /\ is_Number (minor v) /\ is_Number (patch v).
Proof.
  intros P.
  destruct (parseVersion_sound _ _ P) as (g1 & g2 & g3 & _ & _ & _ & _ & P1 & P2 & P3 & Hb).
  apply parseInt_Integer in P1, P2, P3.
  unfold valid, build_on_one_line. unfold build_text in Hb.
  destruct (build v) as [t|].
  - destruct Hb as [Hne Hl]. split_and!; try tauto. congruence.
  - split_and!; try tauto. discriminate.
Qed.

Lemma printed_spec (g : string) (a : Z) :
  parseInt g = Integer a -> printed g = true -> Number_toString a = g.
Proof. unfold printed. intros ->. apply String.eqb_eq. Qed.

(** *** The claims on the version model *)

(** C3 (as amended): [parseVersion] and [formatVersion] are mutually
    inverse on the forms that the language prints.  Parsing the text of
    a valid version gives the version back when its parts are numbers
    below 10^21, which are printed in positional notation, and its build
    tag, when present, has no line terminator.  Formatting the version
    parsed from a string gives the string back when each of its three
    numeric groups is written as the language prints the number read
    from it; so is every group without superfluous leading zero that
    denotes an integer below 2^53. *)
Theorem C3_round_trip_canonical :
  (forall v : SemanticVersion,
     valid v -> printable v -> build_on_one_line v = true ->
     parseVersion (formatVersion v) = Some v) /\
  (forall (s : string) (v : SemanticVersion),
     parseVersion s = Some v -> canonical_groups s = true ->
     formatVersion v = s) /\
  (forall s : string, safe_groups s = true -> canonical_groups s = true).
Proof.
  split; [exact parseVersion_formatVersion|]. split.
  - intros s v P C. unfold parseVersion in P. unfold canonical_groups in C.
    destruct (version_match s) as [m|] eqn:E; [|discriminate].
    destruct (version_match_spec s m E) as (Hs & (H1 & H2 & H3) & T).
    apply andb_true_iff in C. destruct C as [C C3].
    apply andb_true_iff in C. destruct C as [C1 C2].
    destruct (parseInt (majorStr m)) as [| |a] eqn:P1; try discriminate.
    destruct (parseInt (minorStr m)) as [| |b] eqn:P2; try discriminate.
    destruct (parseInt (patchStr m)) as [| |c] eqn:P3; try discriminate.
    unfold SemanticVersionSchema_parse in P.
    destruct (SemanticVersionSchema _); [|discriminate].
    injection P as <-. rewrite formatVersion_text. cbn [major minor patch build].
    rewrite truthy_string_idem, T.
    rewrite (printed_spec _ _ P1 C1), (printed_spec _ _ P2 C2), (printed_spec _ _ P3 C3).
    symmetry. exact Hs.
  - intros s. unfold safe_groups, canonical_groups.
    destruct (version_match s) as [m|] eqn:E; [|reflexivity].
    destruct (version_match_full _ _ E) as (_ & N1 & N2 & N3 & _).
    unfold safe_group. rewrite !andb_true_iff, !Z.ltb_lt.
    intros [[[Z1 S1] [Z2 S2]] [Z3 S3]].
    now rewrite !printed_safe.
Qed.

Lemma C3_round_trip_canonical_witness :
  parseVersion (formatVersion (mkVersion 1 2 3 (Some "beta.1")))
  = Some (mkVersion 1 2 3 (Some "beta.1")) /\
  formatVersion (mkVersion 10 0 7 None) = "10.0.7" /\
  canonical_groups "10.0.7" = true.
Proof.
  split; [|split].
  - apply (proj1 C3_round_trip_canonical).
    + unfold valid. simpl. repeat split; try lia. discriminate.
    + repeat split; vm_compute; reflexivity.
    + reflexivity.
  - apply (proj1 (proj2 C3_round_trip_canonical) "10.0.7"); reflexivity.
  - apply (proj2 (proj2 C3_round_trip_canonical) "10.0.7"). reflexivity.
Defined.

(** C3 (as stated) fails in both directions.  A valid version whose
    build tag holds a line feed is formatted to a string that
    [parseVersion] rejects, and so is the valid version of major 10^21,
    a number that is printed as [1e+21]; the accepted string ["01.2.3"]
    is formatted back as ["1.2.3"], and the accepted string
    ["9007199254740993.0.0"], whose major is no number, as
    ["9007199254740992.0.0"]. *)
Lemma C3_round_trip_counterexample :
  (valid (mkVersion 1 2 3 (Some (String "a" (String LF "b")))) /\
   parseVersion (formatVersion (mkVersion 1 2 3 (Some (String "a" (String LF "b")))))
   = None) /\
  (valid (mkVersion (10 ^ 21) 0 0 None) /\ is_Number (10 ^ 21) /\
   formatVersion (mkVersion (10 ^ 21) 0 0 None) = "1e+21.0.0" /\
   parseVersion "1e+21.0.0" = None) /\
  (parseVersion "01.2.3" = Some (mkVersion 1 2 3 None) /\
   formatVersion (mkVersion 1 2 3 None) = "1.2.3") /\
  (parseVersion "9007199254740993.0.0" = Some (mkVersion (2 ^ 53) 0 0 None) /\
   formatVersion (mkVersion (2 ^ 53) 0 0 None) = "9007199254740992.0.0").
Proof.
  split_and!; try (vm_compute; reflexivity);
    try (unfold valid; simpl; repeat split; try lia; discriminate).
Qed.

(** C5 (as amended): the adjustment rules, on the numbers of the
    language.  Up on major resets minor and patch, up on minor resets
    patch and keeps major, up on patch keeps major and minor; the
    selected part becomes the number nearest to the part plus one, which
    is the part plus one exactly when the part is below 2^53.  Down
    returns the version unchanged when the selected part is not greater
    than zero; otherwise the part becomes the number nearest to the part
    minus one, which is the part minus one exactly when the part is at
    most 2^53; the other parts are kept in every case. *)
Theorem C5_adjust_part (v : SemanticVersion) :
  (minor (adjustVersionPart v Major Up) = 0%Z /\
   patch (adjustVersionPart v Major Up) = 0%Z) /\
  (major (adjustVersionPart v Minor Up) = major v /\
   patch (adjustVersionPart v Minor Up) = 0%Z) /\
  (major (adjustVersionPart v Patch Up) = major v /\
   minor (adjustVersionPart v Patch Up) = minor v) /\
  (forall part : Part,
     get_part part (adjustVersionPart v part Up) = to_Number (get_part part v + 1) /\
     ((0 <= get_part part v)%Z -> is_Number (get_part part v) ->
      (get_part part (adjustVersionPart v part Up) = (get_part part v + 1)%Z <->
       (get_part part v < 2 ^ 53)%Z)) /\
     ((0 < get_part part v)%Z ->
      get_part part (adjustVersionPart v part Down) = to_Number (get_part part v - 1)) /\
     ((0 < get_part part v)%Z -> is_Number (get_part part v) ->
      (get_part part (adjustVersionPart v part Down) = (get_part part v - 1)%Z <->
       (get_part part v <= 2 ^ 53)%Z)) /\
     (~ (0 < get_part part v)%Z -> adjustVersionPart v part Down = v) /\
     (forall other : Part,
        other <> part ->
        get_part other (adjustVersionPart v part Down) = get_part other v)).
Proof.
  destruct v as [a b c bd].
  split; [split; reflexivity|]. split; [split; reflexivity|].
  split; [split; reflexivity|]. intros part.
  assert (Up_part : get_part part (adjustVersionPart (mkVersion a b c bd) part Up)
                    = to_Number (get_part part (mkVersion a b c bd) + 1))
    by (destruct part; reflexivity).
  assert (Down_part : (0 < get_part part (mkVersion a b c bd))%Z ->
            get_part part (adjustVersionPart (mkVersion a b c bd) part Down)
            = to_Number (get_part part (mkVersion a b c bd) - 1)).
  { intros Hpos. unfold adjustVersionPart.
    destruct (Z.ltb_spec 0 (get_part part (mkVersion a b c bd))); [|lia].
    destruct part; reflexivity. }
  split_and!.
  - exact Up_part.
  - intros H0 Hn. rewrite Up_part. now apply successor_exact.
  - exact Down_part.
  - intros H0 Hn. rewrite (Down_part H0). now apply predecessor_exact.
  - intros Hnot. unfold adjustVersionPart.
    destruct (Z.ltb_spec 0 (get_part part (mkVersion a b c bd))); [lia|].
    reflexivity.
  - intros other Hne. unfold adjustVersionPart.
    destruct (0 <? get_part part (mkVersion a b c bd))%Z; [|reflexivity].
    destruct part, other; try reflexivity; congruence.
Qed.

(** C5 at 1.2.3: minor goes up to 3 and down to 1, and a minor part at
    zero is left as it is. *)
Lemma C5_adjust_part_witness :
  minor (adjustVersionPart (mkVersion 1 2 3 None) Minor Up) = 3%Z /\
  minor (adjustVersionPart (mkVersion 1 2 3 None) Minor Down) = 1%Z /\
  adjustVersionPart (mkVersion 1 0 3 None) Minor Down = mkVersion 1 0 3 None.
Proof.
  destruct (C5_adjust_part (mkVersion 1 2 3 None)) as (_ & _ & _ & Hp).
  destruct (Hp Minor) as (_ & Hup & _ & Hdown & _).
  destruct (C5_adjust_part (mkVersion 1 0 3 None)) as (_ & _ & _ & Hq).
  destruct (Hq Minor) as (_ & _ & _ & _ & Hfloor & _).
  split; [|split].
  - apply Hup.
    + vm_compute. discriminate.
    + split; vm_compute; reflexivity.
    + vm_compute. reflexivity.
  - apply Hdown.
    + vm_compute. reflexivity.
    + split; vm_compute; reflexivity.
    + vm_compute. discriminate.
  - apply Hfloor. vm_compute. discriminate.
Defined.

(** C5 (as stated) fails from 2^53 on: the version 9007199254740992.0.0,
    which [parseVersion] accepts, keeps its major part when it is
    raised, because 2^53 + 1 is no number of the language. *)
Lemma C5_adjust_counterexample :
  parseVersion "9007199254740992.0.0" = Some (mkVersion (2 ^ 53) 0 0 None) /\
  major (adjustVersionPart (mkVersion (2 ^ 53) 0 0 None) Major Up) = (2 ^ 53)%Z /\
  major (adjustVersionPart (mkVersion (2 ^ 53) 0 0 None) Major Up)
  <> (major (mkVersion (2 ^ 53) 0 0 None) + 1)%Z.
Proof. split_and!; try (vm_compute; reflexivity). vm_compute. discriminate. Qed.

(** C6: the build field is the same after any adjustment, whether it is
    present or absent. *)
Theorem C6_adjust_preserves_build
    (v : SemanticVersion) (part : Part) (direction : Direction) :
  build (adjustVersionPart v part direction) = build v.
Proof.
  unfold adjustVersionPart. destruct direction.
  - destruct part; reflexivity.
  - destruct (0 <? get_part part v)%Z; [destruct part|]; reflexivity.
Qed.

Lemma successor_nonneg (x : Z) : (0 <= x)%Z -> (0 <= to_Number (x + 1))%Z.
Proof.
  intros Hx. rewrite to_Number_nonneg by lia. apply round_nonneg. lia.
Qed.

Lemma predecessor_nonneg (x : Z) : (0 < x)%Z -> (0 <= to_Number (x - 1))%Z.
Proof.
  intros Hx. rewrite to_Number_nonneg by lia. apply round_nonneg. lia.
Qed.

(** An adjustment keeps the invariant of a version. *)
Lemma adjustVersionPart_valid
    (v : SemanticVersion) (part : Part) (direction : Direction) :
  valid v -> valid (adjustVersionPart v part direction).
Proof.
  destruct v as [a b c bd]. intros (Ha & Hb & Hc & Hbd). simpl in *.
  unfold adjustVersionPart, valid. destruct direction.
  - destruct part; simpl; repeat split; try assumption; try lia;
      now apply successor_nonneg.
  - destruct (Z.ltb_spec 0 (get_part part (mkVersion a b c bd))) as [Hp|Hp].
    + destruct part; simpl in *; repeat split; try assumption;
        now apply predecessor_nonneg.
    + simpl. auto.
Qed.

(** C9: the invariant of a version.  A version that [parseVersion]
    returns has non-negative parts and a build tag that, when present,
    is not empty; and [adjustVersionPart], which is a total function,
    keeps the invariant in every direction. *)
Theorem C9_version_invariant :
  (forall (s : string) (v : SemanticVersion), parseVersion s = Some v -> valid v) /\
  (forall (v : SemanticVersion) (part : Part) (direction : Direction),
     valid v -> valid (adjustVersionPart v part direction)).
Proof.
  split.
  - intros s v P. unfold parseVersion in P.
    destruct (version_match s) as [m|]; [|discriminate].
    destruct (parseInt (majorStr m)) as [| |a]; try discriminate.
    destruct (parseInt (minorStr m)) as [| |b]; try discriminate.
    destruct (parseInt (patchStr m)) as [| |c]; try discriminate.
    unfold SemanticVersionSchema_parse, SemanticVersionSchema in P. simpl in P.
    destruct (Z.leb_spec 0 a), (Z.leb_spec 0 b), (Z.leb_spec 0 c);
      simpl in P; try discriminate.
    injection P as <-. unfold valid. simpl. repeat split; try assumption.
    destruct (buildStr m) as [[|x y]|]; discriminate.
  - intros [a b c bd] part direction (Ha & Hb & Hc & Hbd). simpl in *.
    unfold adjustVersionPart, valid. destruct direction.
    + destruct part; simpl; repeat split; try assumption; try lia;
        now apply successor_nonneg.
    + destruct (Z.ltb_spec 0 (get_part part (mkVersion a b c bd))) as [Hp|Hp].
      * destruct part; simpl in *; repeat split; try assumption;
          now apply predecessor_nonneg.
      * simpl. auto.
Qed.

End VersionFacts.
(* ================================================================== *)
(** ** Facts about the runtime *)
(* ================================================================== *)

Module RuntimeFacts.
Import Js Node.

Lemma bind_ok {A B : Type} (m : M A) (k : A -> M B) (w w' : World) (a : A) :
  m w = (Ok a, w') -> bind m k w = k a w'.
Proof. intros E. unfold bind. now rewrite E. Qed.

Lemma bind_throw {A B : Type} (m : M A) (k : A -> M B) (w w' : World) (e : exn) :
  m w = (Throw e, w') -> bind m k w = (Throw e, w').
Proof. intros E. unfold bind. now rewrite E. Qed.

Lemma try_ok {A : Type} (m : M A) (h : exn -> M A) (w w' : World) (a : A) :
  m w = (Ok a, w') -> try_catch m h w = (Ok a, w').
Proof. intros E. unfold try_catch. now rewrite E. Qed.

Lemma try_throw {A : Type} (m : M A) (h : exn -> M A) (w w' : World) (e : exn) :
  m w = (Throw e, w') -> try_catch m h w = h e w'.
Proof. intros E. unfold try_catch. now rewrite E. Qed.

Lemma same_files_refl (w : World) : same_files w w.
Proof. repeat split. Qed.

Lemma same_files_trans (w1 w2 w3 : World) :
  same_files w1 w2 -> same_files w2 w3 -> same_files w1 w3.
Proof. unfold same_files. intros (-> & -> & ->) (-> & -> & ->). auto. Qed.

Lemma same_files_log (e : event) (w : World) : same_files w (log_event e w).
Proof. repeat split. Qed.

Ltac unfold_io :=
  unfold readFileSync, writeFileSync, store, bind, next_fault, get_fs, throw, ret.

(** A read changes neither the files nor the logs. *)
Lemma readFileSync_frame (path : string) (w w' : World) (r : result string) :
  readFileSync path w = (r, w') ->
  same_files w w' /\ console w' = console w.
Proof.
  unfold same_files. unfold_io. intros E.
  destruct (faults w) as [|[] rest]; simpl in E;
    try (injection E as <- <-; simpl; now auto);
    destruct (fs w !! path) as [[c|]|]; injection E as <- <-; simpl; auto.
Qed.

(** A value that a read returns is the content of the file. *)
Lemma readFileSync_ok (path content : string) (w w' : World) :
  readFileSync path w = (Ok content, w') -> fs w !! path = Some (File content).
Proof.
  unfold_io. intros E.
  destruct (faults w) as [|[] rest]; simpl in E; try discriminate E;
    destruct (fs w !! path) as [[c|]|]; try discriminate E;
    now injection E as <- <-.
Qed.

(** Without a fault, a file is read. *)
Lemma readFileSync_nofault (path content : string) (w : World) :
  faults w = [] -> fs w !! path = Some (File content) ->
  readFileSync path w = (Ok content, w).
Proof. intros F L. unfold_io. rewrite F. simpl. now rewrite L. Qed.

(** A write that succeeds stores the content and logs it. *)
Lemma writeFileSync_ok (path content : string) (w w' : World) (u : unit) :
  writeFileSync path content w = (Ok u, w') ->
  fs w' = <[path := File content]> (fs w) /\
  writes w' = writes w ++ [(path, content)] /\
  console w' = console w /\ cwd w' = cwd w.
Proof.
  unfold_io. intros E.
  destruct (faults w) as [|[] rest]; simpl in E; try discriminate E;
    destruct (fs w !! path) as [[c|]|]; try discriminate E;
    injection E as _ <-; simpl; auto.
Qed.

(** A write that fails changes neither the files nor the logs. *)
Lemma writeFileSync_throw (path content : string) (w w' : World) (e : exn) :
  writeFileSync path content w = (Throw e, w') ->
  same_files w w' /\ console w' = console w.
Proof.
  unfold same_files. unfold_io. intros E.
  destruct (faults w) as [|[] rest]; simpl in E;
    try (injection E as _ <-; simpl; now auto);
    destruct (fs w !! path) as [[c|]|]; try discriminate E;
    injection E as _ <-; simpl; auto.
Qed.

(** Without a fault, a file is overwritten. *)
Lemma writeFileSync_nofault (path content old : string) (w : World) :
  faults w = [] -> fs w !! path = Some (File old) ->
  writeFileSync path content w =
  (Ok tt, mkWorld (<[path := File content]> (fs w)) (cwd w) [] (console w)
                  (writes w ++ [(path, content)])).
Proof. intros F L. unfold_io. rewrite F. simpl. rewrite L. now rewrite F. Qed.

End RuntimeFacts.

(* ================================================================== *)
(** ** Facts about the replacement *)
(* ================================================================== *)

Module ReplaceFacts.
Import Js Node Version Commands.

(** *** Prefixes and occurrences *)

Lemma prefix_empty (s : string) : String.prefix EmptyString s = true.
Proof. destruct s; reflexivity. Qed.

Lemma prefix_cons (a b : ascii) (p s : string) :
  String.prefix (String a p) (String b s) =
  Ascii.eqb a b && String.prefix p s.
Proof.
  simpl. destruct (ascii_dec a b) as [-> | Hne].
  - now rewrite Ascii.eqb_refl.
  - destruct (Ascii.eqb_spec a b); [contradiction | reflexivity].
Qed.

Lemma prefix_nonempty_empty (a : ascii) (p : string) :
  String.prefix (String a p) EmptyString = false.
Proof. reflexivity. Qed.

Lemma includes_cons (c : ascii) (s sub : string) :
  includes (String c s) sub = String.prefix sub (String c s) || includes s sub.
Proof. reflexivity. Qed.

Lemma includes_empty (sub : string) :
  includes EmptyString sub = String.prefix sub EmptyString.
Proof. simpl. apply orb_false_r. Qed.

(** *** The modelled fragment on plain patterns *)

Lemma plain_not_dot (c : ascii) :
  is_syntax_character c = false -> Ascii.eqb c "." = false.
Proof.
  intros Hc. destruct (Ascii.eqb_spec c ".") as [-> | _]; [discriminate Hc | reflexivity].
Qed.

Lemma compile_plain (pattern : string) :
  plain pattern = true -> compile pattern = Some (literals pattern).
Proof.
  induction pattern as [|c rest IH]; simpl; intros Hp; [reflexivity|].
  apply andb_true_iff in Hp. destruct Hp as [Hc Hrest].
  apply negb_true_iff in Hc.
  rewrite (IH Hrest), (plain_not_dot c Hc), Hc. reflexivity.
Qed.

Lemma length_literals (pattern : string) :
  List.length (literals pattern) = String.length pattern.
Proof. induction pattern; simpl; congruence. Qed.

(** On a plain pattern a match is an occurrence of the pattern. *)
Lemma match_literals (sub s : string) :
  match match_atoms (literals sub) s with
  | Some (matched, _) => String.prefix sub s = true /\ matched = sub
  | None => String.prefix sub s = false
  end.
Proof.
  revert s. induction sub as [|a sub IH]; intros s; simpl literals.
  - simpl. split; [apply prefix_empty | reflexivity].
  - destruct s as [|b s]; [reflexivity|].
    cbn [match_atoms atom_matches]. rewrite prefix_cons.
    destruct (Ascii.eqb_spec a b) as [-> | Hne]; [|reflexivity].
    specialize (IH s). destruct (match_atoms (literals sub) s) as [[m r]|].
    + destruct IH as [-> ->]. auto.
    + rewrite IH. reflexivity.
Qed.

Lemma GetSubstitution_no_dollar (matched before after template : string) :
  no_dollar template = true ->
  GetSubstitution matched before after template = template.
Proof.
  unfold no_dollar. induction template as [|c t IH]; [reflexivity|].
  cbn [occurs]. rewrite negb_orb, andb_true_iff. intros [Hc Ht].
  apply negb_true_iff in Hc. rewrite Ascii.eqb_sym in Hc.
  cbn [GetSubstitution]. rewrite Hc, (IH Ht). reflexivity.
Qed.

(** On a plain placeholder and a replacement text without dollar sign,
    the replacement the code does is the literal one of the
    specification. *)
Lemma replace_scan_plain (sub new : string) :
  no_dollar new = true ->
  forall (s before : string) (skip : nat),
    replace_scan (literals sub) new before skip s = spec_replace_scan sub new skip s.
Proof.
  intros Hn. induction s as [|c s IH]; intros before skip.
  - destruct skip; [|reflexivity]. cbn [replace_scan spec_replace_scan].
    pose proof (match_literals sub EmptyString) as Hm.
    destruct (match_atoms (literals sub) EmptyString) as [[m r]|].
    + destruct Hm as [-> _]. now apply GetSubstitution_no_dollar.
    + now rewrite Hm.
  - destruct skip as [|k]; cbn [replace_scan spec_replace_scan]; [|apply IH].
    pose proof (match_literals sub (String c s)) as Hm.
    destruct (match_atoms (literals sub) (String c s)) as [[m r]|].
    + destruct Hm as [-> _]. rewrite (GetSubstitution_no_dollar _ _ _ _ Hn).
      destruct sub as [|a sub]; cbn [literals].
      * now rewrite IH.
      * now rewrite IH, length_literals.
    + rewrite Hm. now rewrite IH.
Qed.

(** *** The literal replacement changes a text that holds the placeholder *)

Lemma length_append (a b : string) :
  String.length (a +:+ b) = String.length a + String.length b.
Proof. induction a as [|c a IH]; simpl; [reflexivity | now rewrite IH]. Qed.

Lemma append_inj_length (a a' b b' : string) :
  String.length a = String.length a' -> a +:+ b = a' +:+ b' -> a = a' /\ b = b'.
Proof.
  revert a'. induction a as [|c a IH]; intros [|c' a'] L E; simpl in *;
    try discriminate L.
  - auto.
  - injection E as -> E. injection L as L.
    destruct (IH a' L E) as [-> ->]. auto.
Qed.

Lemma prefix_split (sub s : string) :
  String.prefix sub s = true -> exists rest, s = sub +:+ rest.
Proof.
  revert s. induction sub as [|a sub IH]; intros s E.
  - now exists s.
  - destruct s as [|b s]; [discriminate E|].
    rewrite prefix_cons in E. apply andb_true_iff in E. destruct E as [Eab E].
    apply Ascii.eqb_eq in Eab. subst b.
    destruct (IH s E) as [rest ->]. now exists rest.
Qed.

Lemma prefix_app (sub rest : string) : String.prefix sub (sub +:+ rest) = true.
Proof.
  induction sub as [|a sub IH]; [apply prefix_empty|].
  simpl String.append. rewrite prefix_cons, Ascii.eqb_refl. exact IH.
Qed.

Lemma scan_skip (sub new a rest : string) :
  spec_replace_scan sub new (String.length a) (a +:+ rest)
  = spec_replace_scan sub new O rest.
Proof. induction a as [|c a IH]; [reflexivity | exact IH]. Qed.

Section Literal.
Variables sub new : string.
Hypothesis sub_nonempty : sub <> EmptyString.

Lemma replace_empty : spec_replace_all sub new EmptyString = EmptyString.
Proof. unfold spec_replace_all. destruct sub; [congruence | reflexivity]. Qed.

Lemma replace_at_match (rest : string) :
  spec_replace_all sub new (sub +:+ rest) = new +:+ spec_replace_all sub new rest.
Proof.
  unfold spec_replace_all. pose proof (prefix_app sub rest) as Hp.
  destruct sub as [|a sub'] eqn:E; [congruence|].
  simpl String.append in *. cbn [spec_replace_scan]. rewrite Hp.
  now rewrite scan_skip.
Qed.

Lemma replace_no_match (c : ascii) (s : string) :
  String.prefix sub (String c s) = false ->
  spec_replace_all sub new (String c s) = String c (spec_replace_all sub new s).
Proof. unfold spec_replace_all. cbn [spec_replace_scan]. now intros ->. Qed.

Lemma sub_length_pos : 0 < String.length sub.
Proof. destruct sub; [congruence | simpl; lia]. Qed.

Lemma replace_length_le :
  String.length new <= String.length sub ->
  forall (n : nat) (s : string),
    String.length s <= n ->
    String.length (spec_replace_all sub new s) <= String.length s.
Proof.
  intros Hl. pose proof sub_length_pos as Hs.
  induction n as [|n IH]; intros s Hn.
  - destruct s; [|simpl in Hn; lia]. now rewrite replace_empty.
  - destruct s as [|c s]; [now rewrite replace_empty|].
    destruct (String.prefix sub (String c s)) eqn:Hp.
    + destruct (prefix_split _ _ Hp) as [rest E]. rewrite E in *.
      rewrite replace_at_match, !length_append.
      rewrite length_append in Hn.
      assert (String.length (spec_replace_all sub new rest) <= String.length rest)
        by (apply IH; lia).
      lia.
    + rewrite (replace_no_match _ _ Hp). simpl in *.
      assert (String.length (spec_replace_all sub new s) <= String.length s)
        by (apply IH; lia).
      lia.
Qed.

Lemma replace_length_ge :
  String.length sub <= String.length new ->
  forall (n : nat) (s : string),
    String.length s <= n ->
    String.length s <= String.length (spec_replace_all sub new s).
Proof.
  intros Hl. pose proof sub_length_pos as Hs.
  induction n as [|n IH]; intros s Hn.
  - destruct s; [|simpl in Hn; lia]. now rewrite replace_empty.
  - destruct s as [|c s]; [now rewrite replace_empty|].
    destruct (String.prefix sub (String c s)) eqn:Hp.
    + destruct (prefix_split _ _ Hp) as [rest E]. rewrite E in *.
      rewrite replace_at_match, !length_append.
      rewrite length_append in Hn.
      assert (String.length rest <= String.length (spec_replace_all sub new rest))
        by (apply IH; lia).
      lia.
    + rewrite (replace_no_match _ _ Hp). simpl in *.
      assert (String.length s <= String.length (spec_replace_all sub new s))
        by (apply IH; lia).
      lia.
Qed.

(** A text that holds the placeholder is changed by the replacement,
    unless the placeholder is replaced by itself. *)
Lemma replace_changes (s : string) :
  new <> sub -> includes s sub = true -> spec_replace_all sub new s <> s.
Proof.
  intros Hne. induction s as [|c s IH]; intros Hi.
  - rewrite includes_empty in Hi. destruct sub; [congruence | discriminate Hi].
  - rewrite includes_cons in Hi.
    destruct (String.prefix sub (String c s)) eqn:Hp.
    + destruct (prefix_split _ _ Hp) as [rest E]. rewrite E.
      rewrite replace_at_match. intros Heq.
      destruct (Nat.lt_trichotomy (String.length new) (String.length sub))
        as [Hlt | [Hl | Hgt]].
      * pose proof (replace_length_le (Nat.lt_le_incl _ _ Hlt) _ rest (le_n _)) as L.
        apply (f_equal String.length) in Heq. rewrite !length_append in Heq. lia.
      * destruct (append_inj_length _ _ _ _ Hl Heq) as [Hn _]. contradiction.
      * pose proof (replace_length_ge (Nat.lt_le_incl _ _ Hgt) _ rest (le_n _)) as L.
        apply (f_equal String.length) in Heq. rewrite !length_append in Heq. lia.
    + rewrite (replace_no_match _ _ Hp). intros [= Heq]. now apply IH.
Qed.

End Literal.

(** The text of a version is no plain placeholder: it holds a dot. *)
Lemma occurs_append (c : ascii) (a b : string) :
  occurs c (a +:+ b) = occurs c a || occurs c b.
Proof.
  induction a as [|x a IH]; cbn [String.append occurs]; [reflexivity|].
  now rewrite IH, orb_assoc.
Qed.

Lemma formatVersion_dot (v : SemanticVersion) : occurs "." (formatVersion v) = true.
Proof.
  rewrite VersionFacts.formatVersion_text, occurs_append. simpl. apply orb_true_r.
Qed.

Lemma plain_no_dot (s : string) : plain s = true -> occurs "." s = false.
Proof.
  induction s as [|c s IH]; cbn [plain occurs]; [reflexivity|]. intros E.
  apply andb_true_iff in E. destruct E as [Hc Hs]. apply negb_true_iff in Hc.
  rewrite (IH Hs), orb_false_r. rewrite Ascii.eqb_sym. now apply plain_not_dot.
Qed.

Lemma formatVersion_not_plain (v : SemanticVersion) (subject : string) :
  plain subject = true -> formatVersion v <> subject.
Proof.
  intros Hp E. pose proof (formatVersion_dot v) as Hd.
  rewrite E, (plain_no_dot _ Hp) in Hd. discriminate.
Qed.


End ReplaceFacts.

(* ================================================================== *)
(** ** Facts about the substitution engine *)
(* ================================================================== *)

Module EngineFacts.
Import Js Node Version Commands RuntimeFacts ReplaceFacts.

Section Engine.
Context `{Platform}.
Variables subject versionString : string.

Lemma replace_RegExp_g_frame (content : string) (w w' : World) (r : result string) :
  replace_RegExp_g subject versionString content w = (r, w') -> w' = w.
Proof.
  unfold replace_RegExp_g. destruct (compile subject).
  - now intros [= _ <-].
  - destruct (RegExp_replace_other _ _ _); now intros [= _ <-].
Qed.

(** *** One candidate of the Rewriting stage *)




(** What one attempt does to the world. *)
Lemma updateFile_spec (filePath : string) (w w' : World) (r : result bool) :
  updateFile subject versionString filePath w = (r, w') ->
  console w' = console w /\ cwd w' = cwd w /\
  match r with
  | Ok true =>
      exists content', is_replacement subject versionString content' /\
        fs w' = <[filePath := File content']> (fs w) /\
        writes w' = writes w ++ [(filePath, content')]
  | _ => fs w' = fs w /\ writes w' = writes w
  end.
Proof.
  unfold updateFile, bind.
  destruct (readFileSync filePath w) as [[content|e] w1] eqn:R;
    destruct (readFileSync_frame _ _ _ _ R) as ((Rf & Rw & Rc) & Ro).
  - destruct (replace_RegExp_g subject versionString content w1)
      as [[content'|e] w2] eqn:G;
      pose proof (replace_RegExp_g_frame _ _ _ _ G) as ->.
    + destruct (String.eqb content' content).
      * intros [= <- <-]. auto.
      * destruct (writeFileSync filePath content' w1) as [[[]|e] w3] eqn:W.
        -- destruct (writeFileSync_ok _ _ _ _ _ W) as (Wf & Ww & Wo & Wc).
           intros [= <- <-]. repeat split; try congruence.
           exists content'. repeat split; try congruence.
           now exists content, w1.
        -- destruct (writeFileSync_throw _ _ _ _ _ W) as ((Wf & Ww & Wc) & Wo).
           intros [= <- <-]. repeat split; congruence.
    + intros [= <- <-]. auto.
  - intros [= <- <-]. auto.
Qed.

(** *** The loop of the Rewriting stage *)

Lemma rewriteFiles_cons_ok
    (filePath : string) (rest : list string) (n : nat) (w w1 : World) (written : bool) :
  updateFile subject versionString filePath w = (Ok written, w1) ->
  rewriteFiles subject versionString (filePath :: rest) n w =
  rewriteFiles subject versionString rest (if written then S n else n) w1.
Proof.
  intros U. cbn [rewriteFiles]. unfold bind at 1, try_catch.
  now rewrite (bind_ok _ _ _ _ _ U).
Qed.

Lemma rewriteFiles_cons_throw
    (filePath : string) (rest : list string) (n : nat) (w w1 : World) (e : exn) :
  updateFile subject versionString filePath w = (Throw e, w1) ->
  rewriteFiles subject versionString (filePath :: rest) n w =
  rewriteFiles subject versionString rest n (log_event (failed_to_update filePath) w1).
Proof.
  intros U. cbn [rewriteFiles]. unfold bind at 1, try_catch.
  now rewrite (bind_throw _ _ _ _ _ U).
Qed.

Lemma apply_writes_app (log1 log2 : list (string * string)) (files : gmap string node) :
  apply_writes (log1 ++ log2) files = apply_writes log2 (apply_writes log1 files).
Proof. unfold apply_writes. apply fold_left_app. Qed.

(** The loop never throws.  Its count grows by the number of writes it
    made; these are on the log in order, and the files are the former
    ones with exactly these writes applied; the console grows by one
    warning for each candidate that failed. *)
Lemma rewriteFiles_spec (files : list string) (n : nat) (w : World) :
  exists n' w' new failed,
    rewriteFiles subject versionString files n w = (Ok n', w') /\
    writes w' = writes w ++ new /\
    n' = n + List.length new /\
    fs w' = apply_writes new (fs w) /\
    Forall (fun entry => fst entry ∈ files /\ is_replacement subject versionString (snd entry)) new /\
    console w' = console w ++ List.map failed_to_update failed /\
    sublist failed files /\
    List.length new + List.length failed <= List.length files.
Proof.
  revert n w. induction files as [|filePath rest IH]; intros n w.
  - exists n, w, [], []. cbn [rewriteFiles]. unfold ret. simpl.
    rewrite !app_nil_r. repeat split; auto; lia.
  - destruct (updateFile subject versionString filePath w) as [[written|e] w1] eqn:U;
      destruct (updateFile_spec _ _ _ _ U) as (Uo & Uc & Uw).
    + rewrite (rewriteFiles_cons_ok _ _ _ _ _ _ U).
      destruct (IH (if written then S n else n) w1)
        as (n' & w' & new & failed & E & Ew & En & Ef & Er & Eo & Es & El).
      destruct written.
      * destruct Uw as (content' & Hr & Uf & Uw).
        exists n', w', ((filePath, content') :: new), failed.
        split; [exact E|]. rewrite Ew, Uw, Ef, Uf, Eo, Uo, <- app_assoc.
        repeat split; auto.
        -- simpl. lia.
        -- constructor; [split; [left|exact Hr]|].
           eapply Forall_impl; [exact Er|]. intros entry [Hin Hrep].
           split; [now right | exact Hrep].
        -- now apply sublist_cons.
        -- simpl. lia.
      * destruct Uw as (Uf & Uw).
        exists n', w', new, failed.
        split; [exact E|]. rewrite Ew, Uw, Ef, Uf, Eo, Uo.
        repeat split; auto.
        -- eapply Forall_impl; [exact Er|]. intros entry [Hin Hrep].
           split; [now right | exact Hrep].
        -- now apply sublist_cons.
        -- simpl. lia.
    + rewrite (rewriteFiles_cons_throw _ _ _ _ _ _ U).
      destruct (IH n (log_event (failed_to_update filePath) w1))
        as (n' & w' & new & failed & E & Ew & En & Ef & Er & Eo & Es & El).
      destruct Uw as (Uf & Uw). simpl in Ew, Ef, Eo.
      exists n', w', new, (filePath :: failed).
      split; [exact E|]. rewrite Ew, Uw, Ef, Uf, Eo, Uo, <- app_assoc.
      repeat split; auto.
      * eapply Forall_impl; [exact Er|]. intros entry [Hin Hrep].
        split; [now right | exact Hrep].
      * now apply sublist_skip.
      * simpl. lia.
Qed.

(** *** The Discovering and Filtering stages *)

Lemma glob_run (directory : string) (w : World) :
  glob directory w = (Ok (glob_all (fs w) (cwd w) directory), w).
Proof. reflexivity. Qed.

Lemma exists_and_spec (test : node -> bool) (path : string) (w : World) :
  exists_and test path w =
  (Ok (match fs w !! path with Some n => test n | None => false end), w).
Proof.
  unfold exists_and, existsSync, statSync, bind, get_fs, ret.
  destruct (fs w !! path) eqn:E; simpl; rewrite ?E; reflexivity.
Qed.

Lemma filterFiles_cons_throw
    (targetPath relativeFile : string) (rest kept : list string)
    (w w1 : World) (e : exn) :
  readFileSync (path_join targetPath relativeFile) w = (Throw e, w1) ->
  filterFiles targetPath subject (relativeFile :: rest) kept w = (Throw e, w1).
Proof. intros R. cbn [filterFiles]. now rewrite (bind_throw _ _ _ _ _ R). Qed.

Lemma filterFiles_cons_ok
    (targetPath relativeFile content : string) (rest kept : list string)
    (w w1 : World) :
  readFileSync (path_join targetPath relativeFile) w = (Ok content, w1) ->
  filterFiles targetPath subject (relativeFile :: rest) kept w =
  filterFiles targetPath subject rest
    (if includes content subject
     then kept ++ [path_join targetPath relativeFile] else kept) w1.
Proof. intros R. cbn [filterFiles]. now rewrite (bind_ok _ _ _ _ _ R). Qed.

Lemma filterFiles_frame
    (targetPath : string) (files kept : list string) (w w' : World)
    (r : result (list string)) :
  filterFiles targetPath subject files kept w = (r, w') ->
  same_files w w' /\ console w' = console w.
Proof.
  revert kept w. induction files as [|relativeFile rest IH]; intros kept w.
  - intros [= _ <-]. split; [apply same_files_refl | reflexivity].
  - destruct (readFileSync (path_join targetPath relativeFile) w)
      as [[content|e] w1] eqn:R;
      destruct (readFileSync_frame _ _ _ _ R) as (Rs & Ro).
    + rewrite (filterFiles_cons_ok _ _ _ _ _ _ _ R). intros E.
      destruct (IH _ _ E) as (Es & Eo).
      split; [eapply same_files_trans; eassumption | congruence].
    + rewrite (filterFiles_cons_throw _ _ _ _ _ _ _ R). now intros [= _ <-].
Qed.

(** The stages before the rewriting write nothing; they leave the
    console as it was unless the target is neither a directory nor a
    file. *)
Lemma findFilesToUpdate_frame
    (targetPath : string) (w w' : World) (r : result (option (list string))) :
  findFilesToUpdate subject targetPath w = (r, w') ->
  same_files w w' /\
  match r with
  | Ok None => exists text, console w' = console w ++ [SpinnerFail text]
  | _ => console w' = console w
  end.
Proof.
  unfold findFilesToUpdate.
  rewrite (bind_ok _ _ _ _ _ (exists_and_spec isDirectory targetPath w)).
  destruct (match fs w !! targetPath with Some n => isDirectory n | None => false end).
  - rewrite (bind_ok _ _ _ _ _ (glob_run targetPath w)). unfold bind, ret.
    destruct (filterFiles targetPath subject _ [] w) as [[kept|e] w1] eqn:E;
      destruct (filterFiles_frame _ _ _ _ _ _ E) as (Es & Eo);
      now intros [= <- <-].
  - rewrite (bind_ok _ _ _ _ _ (exists_and_spec isFile targetPath w)).
    destruct (match fs w !! targetPath with Some n => isFile n | None => false end).
    + unfold bind.
      destruct (readFileSync targetPath w) as [[content|e] w1] eqn:R;
        destruct (readFileSync_frame _ _ _ _ R) as (Rs & Ro);
        now intros [= <- <-].
    + unfold bind, emit, ret. intros [= <- <-].
      split; [apply same_files_log | eexists; reflexivity].
Qed.

(** A failure of the stages before the rewriting is a failure of the
    engine: nothing of it is caught there. *)
Lemma copyVersion_find_throws (targetPath : string) (w w1 : World) (e : exn) :
  findFilesToUpdate subject targetPath
    (log_event (SpinnerStart "Finding files to update...") w) = (Throw e, w1) ->
  copyVersion versionString subject targetPath w = (Throw e, w1).
Proof.
  intros E. unfold copyVersion. unfold bind at 1, emit.
  now rewrite (bind_throw _ _ _ _ _ E).
Qed.


(** Every write of a run of the engine is a write of the Rewriting
    stage: its content is a result of the replacement. *)
Lemma copyVersion_writes (targetPath : string) (w w' : World) (r : result unit) :
  copyVersion versionString subject targetPath w = (r, w') ->
  exists new,
    writes w' = writes w ++ new /\
    Forall (fun entry => is_replacement subject versionString (snd entry)) new.
Proof.
  unfold copyVersion. unfold bind at 1, emit.
  set (w0 := log_event (SpinnerStart "Finding files to update...") w).
  unfold bind at 1.
  destruct (findFilesToUpdate subject targetPath w0) as [[[kept|]|e] w1] eqn:E;
    destruct (findFilesToUpdate_frame _ _ _ _ E) as ((Ef & Ew & Ec) & Eo).
  - unfold bind at 1, emit. destruct kept as [|filePath rest].
    + intros [= _ <-]. exists []. simpl. rewrite Ew, app_nil_r. auto.
    + set (w2 := log_event _ w1).
      destruct (rewriteFiles_spec (filePath :: rest) 0 w2)
        as (n' & w3 & new & failed & R & Rw & _ & _ & Rr & _).
      rewrite (bind_ok _ _ _ _ _ R). unfold emit. intros [= _ <-].
      exists new. simpl. rewrite Rw. subst w2. simpl. rewrite Ew. split; [reflexivity|].
      eapply Forall_impl; [exact Rr|]. now intros entry [_ Hr].
  - intros [= _ <-]. exists []. rewrite Ew, app_nil_r. auto.
  - intros [= _ <-]. exists []. rewrite Ew, app_nil_r. auto.
Qed.

(** The engine, stage by stage. *)
Lemma copyVersion_run (targetPath : string) (w : World) :
  copyVersion versionString subject targetPath w =
  match findFilesToUpdate subject targetPath
          (log_event (SpinnerStart "Finding files to update...") w) with
  | (Throw e, w1) => (Throw e, w1)
  | (Ok None, w1) => (Ok tt, w1)
  | (Ok (Some filesToUpdate), w1) =>
      let w2 :=
        log_event
          (SpinnerText ("Updating " +:+ show_nat (List.length filesToUpdate) +:+
                        " files...")) w1 in
      match filesToUpdate with
      | [] =>
          (Ok tt,
           log_event (SpinnerInfo ("No files found containing '" +:+ subject +:+ "'")) w2)
      | _ :: _ =>
          match rewriteFiles subject versionString filesToUpdate O w2 with
          | (Ok updatedCount, w3) =>
              (Ok tt,
               log_event
                 (SpinnerSucceed
                    ("Updated " +:+ show_nat updatedCount +:+ " of " +:+
                     show_nat (List.length filesToUpdate) +:+
                     " files with version " +:+ versionString)) w3)
          | (Throw e, w3) => (Throw e, w3)
          end
      end
  end.
Proof.
  unfold copyVersion. unfold bind at 1, emit. unfold bind at 1.
  destruct (findFilesToUpdate subject targetPath _) as [[[kept|]|e] w1];
    try reflexivity.
  unfold bind at 1. destruct kept as [|filePath rest]; [reflexivity|].
  unfold bind at 1.
  now destruct (rewriteFiles subject versionString (filePath :: rest) 0 _)
    as [[n'|e] w3].
Qed.

End Engine.

Section Handler.
Context `{Platform}.

(** *** The manifest is only read *)

Lemma validateParams_none (issues : list (option string)) (w : World) :
  Forall (fun issue => issue = None) issues ->
  validateParams issues w = (Ok true, w).
Proof.
  induction 1 as [|issue rest -> _ IH]; [reflexivity | exact IH].
Qed.

Lemma validatePath_frame (path : string) (want_file : bool) (w w' : World)
    (r : result bool) :
  validatePath path want_file w = (r, w') -> same_files w w'.
Proof.
  unfold validatePath, try_catch, statSync, bind, get_fs, error, emit, ret, throw.
  destruct (fs w !! path) as [n|]; simpl.
  - destruct (want_file && negb (isFile n)); simpl.
    + intros [= _ <-]. apply same_files_log.
    + destruct (negb want_file && negb (isDirectory n)); simpl;
        intros [= _ <-]; [apply same_files_log | apply same_files_refl].
  - intros [= _ <-]. apply same_files_log.
Qed.

Lemma readPackageVersion_frame (packagePath : string) (w w' : World)
    (r : result (option SemanticVersion)) :
  readPackageVersion packagePath w = (r, w') -> same_files w w'.
Proof.
  unfold readPackageVersion, try_catch. unfold bind at 1.
  destruct (readFileSync packagePath w) as [[content|e] w1] eqn:R;
    destruct (readFileSync_frame _ _ _ _ R) as (Rs & _).
  - unfold bind, parse_json, get_property, error, emit, ret, throw.
    intros E. apply (same_files_trans _ _ _ Rs).
    destruct (JSON_parse content) as [[| | | | |members]|];
      try (injection E as _ <-; apply same_files_log).
    destruct (lookup_member "version" members) as [[| | |[|c s]| |]|];
      try (injection E as _ <-; apply same_files_log).
    destruct (parseVersion (String c s));
      injection E as _ <-; [apply same_files_refl | apply same_files_log].
  - unfold bind, error, emit, ret. intros [= _ <-].
    apply (same_files_trans _ _ _ Rs), same_files_log.
Qed.

Lemma resolveVersion_frame (options : Options) (w w' : World)
    (r : result (option (string * SemanticVersion))) :
  resolveVersion options w = (r, w') -> same_files w w'.
Proof.
  unfold resolveVersion. unfold bind at 1.
  assert (Hp : exists o,
             match truthy_string (package options) with
             | Some p => ret (Some p)
             | None => dir <- process_cwd ;; findPackageJson dir
             end w = (Ok o, w)).
  { destruct (truthy_string (package options)); [eexists; reflexivity|].
    unfold bind, process_cwd, findPackageJson, existsSync, bind, get_fs, ret.
    eexists; reflexivity. }
  destruct Hp as [o ->]. destruct o as [packagePath|].
  - unfold bind at 1.
    destruct (validatePath packagePath true w) as [[ok|e] w1] eqn:V;
      pose proof (validatePath_frame _ _ _ _ _ V) as Vs.
    + destruct ok.
      * unfold bind, ret.
        destruct (readPackageVersion packagePath w1) as [[v|e] w2] eqn:R;
          pose proof (readPackageVersion_frame _ _ _ _ R) as Rs;
          intros [= _ <-]; eapply same_files_trans; eassumption.
      * now intros [= _ <-].
    + now intros [= _ <-].
  - unfold bind, error, emit, ret. intros [= _ <-]. apply same_files_log.
Qed.

(** *** The handler's catch-all *)

Lemma handleCopyTo_catches
    (targetPath packagePath : string) (options : Options)
    (version : SemanticVersion) (w w1 w2 : World) (e : exn) :
  PathSchema targetPath = None -> OptionsSchema options = None ->
  resolveVersion options w = (Ok (Some (packagePath, version)), w1) ->
  copyVersion (formatVersion version) (subject_of options) targetPath w1
  = (Throw e, w2) ->
  handleCopyTo targetPath options w =
  (Ok tt, log_event (ConsoleError ("Failed to copy version: " +:+ message e)) w2).
Proof.
  intros Vp Vo R C. unfold handleCopyTo.
  rewrite (bind_ok _ _ w w true)
    by (apply validateParams_none; repeat constructor; assumption).
  unfold try_catch. rewrite (bind_ok _ _ _ _ _ R). now rewrite C.
Qed.

(** C2 (the code where a read of the Filtering stage fails).  The
    reads of lines 107 and 116 are outside the [try] of the Rewriting
    stage, so a read that fails there is not set aside per file, as the
    specification and the test on read errors of the repository expect
    and as the Rewriting stage does.  It ends the loop at that
    candidate, so the remaining ones are not read; it makes the stage
    and the engine fail without any file written; and the handler
    reports it once, as ["Failed to copy version: <message>"], and
    returns with the files and the log of writes as they were before
    the invocation. *)
Theorem C2_filter_read_failure_aborts (targetPath : string) (options : Options) :
  (forall (relativeFile : string) (rest kept : list string)
          (w w1 : World) (e : exn),
     readFileSync (path_join targetPath relativeFile) w = (Throw e, w1) ->
     filterFiles targetPath (subject_of options) (relativeFile :: rest) kept w
     = (Throw e, w1)) /\
  (forall (w w1 : World) (e : exn),
     fs w !! targetPath = Some Directory ->
     (files <- glob targetPath ;;
      filterFiles targetPath (subject_of options) files []) w = (Throw e, w1) ->
     findFilesToUpdate (subject_of options) targetPath w = (Throw e, w1)) /\
  (forall (content : string) (w w1 : World) (e : exn),
     fs w !! targetPath = Some (File content) ->
     readFileSync targetPath w = (Throw e, w1) ->
     findFilesToUpdate (subject_of options) targetPath w = (Throw e, w1)) /\
  (forall (packagePath : string) (version : SemanticVersion)
          (w w1 w2 : World) (e : exn),
     PathSchema targetPath = None -> OptionsSchema options = None ->
     resolveVersion options w = (Ok (Some (packagePath, version)), w1) ->
     findFilesToUpdate (subject_of options) targetPath
       (log_event (SpinnerStart "Finding files to update...") w1) = (Throw e, w2) ->
     handleCopyTo targetPath options w =
     (Ok tt, log_event (ConsoleError ("Failed to copy version: " +:+ message e)) w2) /\
     fs w2 = fs w /\ writes w2 = writes w).
Proof.
  repeat split.
  - intros. now apply filterFiles_cons_throw.
  - intros w w1 e D E. unfold findFilesToUpdate.
    rewrite (bind_ok _ _ _ _ _ (exists_and_spec isDirectory targetPath w)).
    rewrite D. cbn [isDirectory].
    unfold bind at 1. unfold bind at 1 in E.
    destruct (glob targetPath w) as [[files|e'] w'] eqn:G.
    + now rewrite (bind_throw _ _ _ _ _ E).
    + injection E as <- <-. reflexivity.
  - intros content w w1 e F R. unfold findFilesToUpdate.
    rewrite (bind_ok _ _ _ _ _ (exists_and_spec isDirectory targetPath w)).
    rewrite F. cbn [isDirectory].
    rewrite (bind_ok _ _ _ _ _ (exists_and_spec isFile targetPath w)).
    rewrite F. cbn [isFile]. now rewrite (bind_throw _ _ _ _ _ R).
  - eapply handleCopyTo_catches; try eassumption.
    now apply copyVersion_find_throws.
  - destruct (resolveVersion_frame _ _ _ _ H2) as (Rf & _ & _).
    destruct (findFilesToUpdate_frame _ _ _ _ _ H3) as ((Ff & _ & _) & _).
    rewrite Ff. simpl. exact Rf.
  - destruct (resolveVersion_frame _ _ _ _ H2) as (_ & Rw & _).
    destruct (findFilesToUpdate_frame _ _ _ _ _ H3) as ((_ & Fw & _) & _).
    rewrite Fw. simpl. exact Rw.
Qed.


(** C1 (the code at the failing inputs).  The placeholder is compiled
    as a pattern: with the placeholder [a.c] the text [abc], which does
    not contain the placeholder, is replaced too, where the literal
    replacement of the specification leaves it; and in the version
    string the pair [$&] stands for the matched text, so that the
    placeholder is written back. *)
Theorem C1_placeholder_is_a_pattern (w : World) :
  replace_RegExp_g "a.c" "1.2.3" "abc a.c" w = (Ok "1.2.3 1.2.3", w) /\
  spec_replace_all "a.c" "1.2.3" "abc a.c" = "abc 1.2.3" /\
  replace_RegExp_g "__VERSION__" "1.2.3-$&" "v__VERSION__" w
  = (Ok "v1.2.3-__VERSION__", w) /\
  spec_replace_all "__VERSION__" "1.2.3-$&" "v__VERSION__" = "v1.2.3-$&".
Proof. repeat split. Qed.

(** The replacement on a plain placeholder, as the scan computes it. *)
Lemma replace_RegExp_g_literal (subject versionString content : string) (w : World) :
  plain subject = true -> no_dollar versionString = true ->
  replace_RegExp_g subject versionString content w
  = (Ok (spec_replace_all subject versionString content), w).
Proof.
  intros Hp Hd. unfold replace_RegExp_g, spec_replace_all.
  rewrite (compile_plain _ Hp). unfold ret.
  now rewrite replace_scan_plain.
Qed.

(** X1: on a placeholder without syntax character and a version string
    without dollar sign, the code does the literal replacement. *)
Lemma replace_RegExp_g_plain (subject versionString content : string) (w : World) :
  plain subject = true -> no_dollar versionString = true ->
  replace_RegExp_g subject versionString content w
  = (Ok (spec_replace_all subject versionString content), w).
Proof. intros Hp Hd. now apply replace_RegExp_g_literal. Qed.

End Handler.

End EngineFacts.

(* ================================================================== *)
(** ** Facts about the manifest *)
(* ================================================================== *)

Module ManifestFacts.
Import Js Node Version Commands RuntimeFacts.

Lemma lookup_assign_same (key : string) (v : json) (members : list (string * json)) :
  lookup_member key (assign_member key v members) = Some v.
Proof.
  induction members as [|[k x] rest IH]; simpl.
  - now rewrite String.eqb_refl.
  - destruct (String.eqb_spec k key) as [-> | Hne]; simpl.
    + now rewrite String.eqb_refl.
    + destruct (String.eqb_spec k key); [contradiction | exact IH].
Qed.

Lemma lookup_assign_other (key other : string) (v : json)
    (members : list (string * json)) :
  other <> key ->
  lookup_member other (assign_member key v members) = lookup_member other members.
Proof.
  intros Hne. induction members as [|[k x] rest IH]; simpl.
  - destruct (String.eqb_spec key other); [congruence | reflexivity].
  - destruct (String.eqb_spec k key) as [-> | Hk]; simpl.
    + destruct (String.eqb_spec key other); [congruence | reflexivity].
    + now rewrite IH.
Qed.

Lemma keys_assign (key : string) (v : json) (members : list (string * json)) :
  List.map fst (assign_member key v members) =
  match lookup_member key members with
  | Some _ => List.map fst members
  | None => List.map fst members ++ [key]
  end.
Proof.
  induction members as [|[k x] rest IH]; simpl; [reflexivity|].
  destruct (String.eqb_spec k key) as [-> | Hk]; simpl; [reflexivity|].
  rewrite IH. now destruct (lookup_member key rest).
Qed.

Section Manifest.
Context `{Platform}.

(** [updatePackageVersion], step by step. *)
Lemma updatePackageVersion_run
    (packagePath : string) (version : SemanticVersion) (w : World) :
  updatePackageVersion packagePath version w =
  match readFileSync packagePath w with
  | (Throw e, w1) => (Ok false, log_event (update_failed e) w1)
  | (Ok content, w1) =>
      match JSON_parse content with
      | None =>
          (Ok false, log_event (update_failed (Error (JSON_parse_error content))) w1)
      | Some packageJson =>
          match set_property packageJson "version"
                  (JString (formatVersion version)) w1 with
          | (Throw e, w2) => (Ok false, log_event (update_failed e) w2)
          | (Ok packageJson', w2) =>
              match writeFileSync packagePath (document packageJson') w2 with
              | (Ok _, w3) => (Ok true, w3)
              | (Throw e, w3) => (Ok false, log_event (update_failed e) w3)
              end
          end
      end
  end.
Proof.
  unfold updatePackageVersion, try_catch, parse_json, document. unfold bind at 1.
  destruct (readFileSync packagePath w) as [[content|e] w1]; [|reflexivity].
  unfold bind at 1. destruct (JSON_parse content) as [packageJson|]; [|reflexivity].
  unfold ret at 1. unfold bind at 1.
  destruct (set_property packageJson "version" _ w1) as [[packageJson'|e] w2];
    [|reflexivity].
  unfold bind at 1.
  destruct (writeFileSync packagePath _ w2) as [[[]|e] w3]; reflexivity.
Qed.

(** The assignment of the [version] property: on an object it sets the
    member and keeps the others and the order; on an array it changes no
    element; on anything else it throws. *)
Lemma set_version_spec
    (version : SemanticVersion) (packageJson : json) (w w' : World)
    (r : result json) :
  set_property packageJson "version" (JString (formatVersion version)) w = (r, w') ->
  w' = w /\
  forall packageJson', r = Ok packageJson' ->
    match packageJson with
    | JObject members =>
        exists members',
          packageJson' = JObject members' /\
          lookup_member "version" members' = Some (JString (formatVersion version)) /\
          (forall key, key <> "version" ->
             lookup_member key members' = lookup_member key members) /\
          List.map fst members' =
          match lookup_member "version" members with
          | Some _ => List.map fst members
          | None => List.map fst members ++ ["version"]
          end
    | JArray elements => packageJson' = JArray elements
    | _ => False
    end.
Proof.
  destruct packageJson as [|b|text|s|elements|members];
    intros [= <- <-]; (split; [reflexivity|]); intros packageJson' [= <-];
    try reflexivity.
  eexists. split; [reflexivity|]. split; [apply lookup_assign_same|].
  split; [intros key Hk; now apply lookup_assign_other | apply keys_assign].
Qed.

(** C8 (as amended): [updatePackageVersion] always returns a boolean.
    It is [true] exactly when the read, the parse of the text, the
    assignment of the [version] property and the write all succeed, and
    [false] whenever one of them fails; after [false] the files and the
    log of writes are as they were and the failure is reported.  After
    [true] the manifest holds the document that was written, with
    two-space indentation and a final line feed; for a manifest that is
    a JSON object it is the former object with its [version] member set
    to the formatted version, every other member with its former value,
    and the members in their former order ([version] last when it is
    new). *)
Theorem C8_update_manifest
    (packagePath : string) (version : SemanticVersion) (w : World) :
  exists (updated : bool) (w' : World),
    updatePackageVersion packagePath version w = (Ok updated, w') /\
    (updated = true <->
     exists (content : string) (packageJson packageJson' : json) (w1 w2 w3 : World),
       readFileSync packagePath w = (Ok content, w1) /\
       JSON_parse content = Some packageJson /\
       set_property packageJson "version" (JString (formatVersion version)) w1
       = (Ok packageJson', w2) /\
       writeFileSync packagePath (document packageJson') w2 = (Ok tt, w3)) /\
    (updated = false ->
     fs w' = fs w /\ writes w' = writes w /\
     exists e : exn, console w' = console w ++ [update_failed e]) /\
    (updated = true ->
     exists (content : string) (packageJson packageJson' : json),
       fs w !! packagePath = Some (File content) /\
       JSON_parse content = Some packageJson /\
       fs w' = <[packagePath := File (document packageJson')]> (fs w) /\
       writes w' = writes w ++ [(packagePath, document packageJson')] /\
       console w' = console w /\
       forall members : list (string * json),
         packageJson = JObject members ->
         exists members',
           packageJson' = JObject members' /\
           lookup_member "version" members'
           = Some (JString (formatVersion version)) /\
           (forall key, key <> "version" ->
              lookup_member key members' = lookup_member key members) /\
           List.map fst members' =
           match lookup_member "version" members with
           | Some _ => List.map fst members
           | None => List.map fst members ++ ["version"]
           end).
Proof.
  rewrite updatePackageVersion_run.
  destruct (readFileSync packagePath w) as [[content|e] w1] eqn:R;
    destruct (readFileSync_frame _ _ _ _ R) as ((Rf & Rw & _) & Ro).
  2: { eexists false, _. split; [reflexivity|]. split_and!.
       - split; [discriminate|]. intros (c & pj & pj' & v1 & v2 & v3 & [=] & _).
       - intros _. cbn [fs writes console log_event]. split_and!; try congruence.
         exists e. now rewrite Ro.
       - discriminate. }
  pose proof (readFileSync_ok _ _ _ _ R) as Hc.
  destruct (JSON_parse content) as [packageJson|] eqn:P.
  2: { eexists false, _. split; [reflexivity|]. split_and!.
       - split; [discriminate|].
         intros (c & pj & pj' & v1 & v2 & v3 & [= <- <-] & P' & _). congruence.
       - intros _. cbn [fs writes console log_event]. split_and!; try congruence.
         eexists. now rewrite Ro.
       - discriminate. }
  destruct (set_property packageJson "version" _ w1) as [[packageJson'|e] w2] eqn:S;
    destruct (set_version_spec _ _ _ _ _ S) as (-> & Shape).
  2: { eexists false, _. split; [reflexivity|]. split_and!.
       - split; [discriminate|].
         intros (c & pj & pj' & v1 & v2 & v3 & [= <- <-] & P' & S' & _).
         assert (pj = packageJson) as -> by congruence. congruence.
       - intros _. cbn [fs writes console log_event]. split_and!; try congruence.
         exists e. now rewrite Ro.
       - discriminate. }
  destruct (writeFileSync packagePath (document packageJson') w1)
    as [[[]|e] w3] eqn:W.
  - destruct (writeFileSync_ok _ _ _ _ _ W) as (Wf & Ww & Wo & _).
    exists true, w3. split; [reflexivity|]. split_and!.
    + split; [|reflexivity]. intros _.
      now exists content, packageJson, packageJson', w1, w1, w3.
    + discriminate.
    + intros _. exists content, packageJson, packageJson'.
      split_and!; try congruence.
      intros members ->. now apply (Shape packageJson').
  - destruct (writeFileSync_throw _ _ _ _ _ W) as ((Wf & Ww & _) & Wo).
    eexists false, _. split; [reflexivity|]. split_and!.
    + split; [discriminate|].
      intros (c & pj & pj' & v1 & v2 & v3 & [= <- <-] & P' & S' & W').
      assert (pj = packageJson) as -> by congruence.
      rewrite S in S'. injection S' as <- <-. congruence.
    + intros _. cbn [fs writes console log_event]. split_and!; try congruence.
      exists e. now rewrite Wo, Ro.
    + discriminate.
Qed.

End Manifest.

End ManifestFacts.

(* ================================================================== *)
(** ** Facts about a run of the engine over a target *)
(* ================================================================== *)

Module IdempotenceFacts.
Import Js Node Version Commands RuntimeFacts ReplaceFacts EngineFacts.

Section Run.
Context `{Platform}.
Variables subject versionString : string.

(** *** The paths the engine reads *)

Lemma holds_placeholder_file
    (files : gmap string node) (path content : string) :
  files !! path = Some (File content) ->
  holds_placeholder subject files path = includes content subject.
Proof. intros E. unfold holds_placeholder. now rewrite E. Qed.

Lemma holds_placeholder_true (files : gmap string node) (path : string) :
  holds_placeholder subject files path = true ->
  exists content,
    files !! path = Some (File content) /\ includes content subject = true.
Proof.
  unfold holds_placeholder. destruct (files !! path) as [[content|]|];
    try discriminate. intros E. now exists content.
Qed.


Lemma candidates_hold (targetPath path : string) (w : World) :
  path ∈ candidates subject targetPath w ->
  path ∈ scanned targetPath w /\ holds_placeholder subject (fs w) path = true.
Proof.
  unfold candidates. rewrite !list_elem_of_In, filter_In. auto.
Qed.

(** A test of [readable] by computation. *)
Lemma readable_check (targetPath : string) (w : World) :
  forallb (fun path => match fs w !! path with
                       | Some (File _) => true
                       | _ => false
                       end) (scanned targetPath w) = true ->
  readable targetPath w.
Proof.
  intros Hc path Hin. rewrite forallb_forall in Hc.
  apply list_elem_of_In in Hin. specialize (Hc _ Hin).
  destruct (fs w !! path) as [[content|]|]; try discriminate. now exists content.
Qed.

(** *** The Filtering stage *)

(** The candidates the loop adds are paths it read whose files hold the
    placeholder, whatever reads fail. *)
Lemma filterFiles_sound
    (targetPath : string) (files kept kept' : list string) (w w' : World) :
  filterFiles targetPath subject files kept w = (Ok kept', w') ->
  exists added,
    kept' = kept ++ added /\
    Forall (fun path =>
              path ∈ List.map (path_join targetPath) files /\
              holds_placeholder subject (fs w) path = true) added.
Proof.
  revert kept w. induction files as [|relativeFile rest IH]; intros kept w.
  - intros [= <- <-]. exists []. now rewrite app_nil_r.
  - destruct (readFileSync (path_join targetPath relativeFile) w)
      as [[content|e] w1] eqn:R.
    + rewrite (filterFiles_cons_ok _ _ _ _ _ _ _ _ R). intros E.
      destruct (readFileSync_frame _ _ _ _ R) as ((Rf & _ & _) & _).
      pose proof (readFileSync_ok _ _ _ _ R) as Rc.
      destruct (IH _ _ E) as (added & -> & Ha).
      assert (Ha' : Forall (fun path =>
                path ∈ List.map (path_join targetPath) (relativeFile :: rest) /\
                holds_placeholder subject (fs w) path = true) added).
      { eapply Forall_impl; [exact Ha|]. intros path [Hin Hh].
        split; [now right | now rewrite <- Rf]. }
      destruct (includes content subject) eqn:Hi.
      * exists (path_join targetPath relativeFile :: added).
        split; [now rewrite <- app_assoc|].
        constructor; [|exact Ha'].
        split; [left|]. now rewrite (holds_placeholder_file _ _ _ Rc).
      * now exists added.
    + rewrite (filterFiles_cons_throw _ _ _ _ _ _ _ _ R). discriminate.
Qed.

(** Without a fault, over paths that name files, the loop keeps the
    paths whose files hold the placeholder, in the order it read
    them. *)
Lemma filterFiles_nofault
    (targetPath : string) (files kept : list string) (w : World) :
  faults w = [] ->
  (forall relativeFile, relativeFile ∈ files ->
     exists content, fs w !! path_join targetPath relativeFile = Some (File content)) ->
  filterFiles targetPath subject files kept w =
  (Ok (kept ++ List.filter (holds_placeholder subject (fs w))
                  (List.map (path_join targetPath) files)), w).
Proof.
  intros F. revert kept. induction files as [|relativeFile rest IH]; intros kept Hr.
  - simpl. now rewrite app_nil_r.
  - destruct (Hr relativeFile) as (content & Hc); [left|].
    rewrite (filterFiles_cons_ok _ _ _ _ _ _ _ _ (readFileSync_nofault _ _ _ F Hc)).
    rewrite IH by (intros r Hin; apply Hr; now right).
    simpl. rewrite (holds_placeholder_file _ _ _ Hc).
    destruct (includes content subject); [now rewrite <- app_assoc | reflexivity].
Qed.

(** The candidates of the two stages before the rewriting: paths the
    engine reads for the target, whose files hold the placeholder. *)
Lemma findFilesToUpdate_sound
    (targetPath : string) (kept : list string) (w w' : World) :
  findFilesToUpdate subject targetPath w = (Ok (Some kept), w') ->
  Forall (fun path =>
            path ∈ scanned targetPath w /\
            holds_placeholder subject (fs w) path = true) kept.
Proof.
  unfold findFilesToUpdate, scanned.
  rewrite (bind_ok _ _ _ _ _ (exists_and_spec isDirectory targetPath w)).
  destruct (fs w !! targetPath) as [[content|]|] eqn:Et; cbn [isDirectory].
  - rewrite (bind_ok _ _ _ _ _ (exists_and_spec isFile targetPath w)).
    rewrite Et. cbn [isFile]. unfold bind.
    destruct (readFileSync targetPath w) as [[content'|e] w1] eqn:R; [|discriminate].
    pose proof (readFileSync_ok _ _ _ _ R) as Rc.
    intros [= <- <-]. destruct (includes content' subject) eqn:Hi; [|constructor].
    constructor; [|constructor]. split; [left|].
    now rewrite (holds_placeholder_file _ _ _ Rc).
  - rewrite (bind_ok _ _ _ _ _ (glob_run targetPath w)). unfold bind, ret.
    destruct (filterFiles targetPath subject _ [] w) as [[kept'|e] w1] eqn:E;
      [|discriminate].
    intros [= <- <-]. destruct (filterFiles_sound _ _ _ _ _ _ E) as (added & -> & Ha).
    exact Ha.
  - rewrite (bind_ok _ _ _ _ _ (exists_and_spec isFile targetPath w)).
    rewrite Et. unfold bind, emit, ret. discriminate.
Qed.

(** Without a fault, when the target names a file or a directory and
    every path read names a file, the two stages keep the candidates. *)
Lemma findFilesToUpdate_nofault (targetPath : string) (w : World) :
  is_Some (fs w !! targetPath) -> faults w = [] -> readable targetPath w ->
  findFilesToUpdate subject targetPath w =
  (Ok (Some (candidates subject targetPath w)), w).
Proof.
  intros [n Et] F Hr. unfold findFilesToUpdate, candidates, readable in *.
  unfold scanned in *. rewrite Et in *.
  rewrite (bind_ok _ _ _ _ _ (exists_and_spec isDirectory targetPath w)).
  rewrite Et. destruct n as [content|]; cbn [isDirectory].
  - rewrite (bind_ok _ _ _ _ _ (exists_and_spec isFile targetPath w)).
    rewrite Et. cbn [isFile].
    rewrite (bind_ok _ _ _ _ _ (readFileSync_nofault _ _ _ F Et)).
    unfold ret. simpl. rewrite (holds_placeholder_file _ _ _ Et).
    now destruct (includes content subject).
  - rewrite (bind_ok _ _ _ _ _ (glob_run targetPath w)).
    rewrite (bind_ok _ _ _ _ _
               (filterFiles_nofault targetPath _ [] w F
                  (fun r Hin => Hr _ (list_elem_of_fmap_2 (path_join targetPath) _ _ Hin)))).
    reflexivity.
Qed.

(** *** One candidate, without a fault *)

Lemma updateFile_nofault (filePath content : string) (w : World) :
  plain subject = true -> no_dollar versionString = true ->
  faults w = [] -> fs w !! filePath = Some (File content) ->
  updateFile subject versionString filePath w =
  if String.eqb (spec_replace_all subject versionString content) content
  then (Ok false, w)
  else (Ok true,
        mkWorld (<[filePath := File (spec_replace_all subject versionString content)]>
                   (fs w))
                (cwd w) [] (console w)
                (writes w ++
                 [(filePath, spec_replace_all subject versionString content)])).
Proof.
  intros Hp Hd F Hc. unfold updateFile.
  rewrite (bind_ok _ _ _ _ _ (readFileSync_nofault _ _ _ F Hc)).
  rewrite (bind_ok _ _ _ _ _ (replace_RegExp_g_literal _ _ content w Hp Hd)).
  destruct (String.eqb _ content); [reflexivity|].
  now rewrite (bind_ok _ _ _ _ _ (writeFileSync_nofault _ _ _ _ F Hc)).
Qed.

(** *** The loop of the Rewriting stage, without a fault *)

Lemma rewriteFiles_nofault (files : list string) (n : nat) (w : World) :
  plain subject = true -> no_dollar versionString = true ->
  faults w = [] ->
  (forall path, path ∈ files -> exists content, fs w !! path = Some (File content)) ->
  exists n' w' new,
    rewriteFiles subject versionString files n w = (Ok n', w') /\
    writes w' = writes w ++ new /\
    n' = n + List.length new /\
    fs w' = apply_writes new (fs w) /\
    console w' = console w /\ cwd w' = cwd w /\ faults w' = [] /\
    List.length new <= List.length files /\
    (forall first rest,
       files = first :: rest ->
       subject <> EmptyString -> versionString <> subject ->
       holds_placeholder subject (fs w) first = true ->
       exists content more,
         fs w !! first = Some (File content) /\
         new = (first, spec_replace_all subject versionString content) :: more).
Proof.
  intros Hp Hd. revert n w. induction files as [|filePath rest IH]; intros n w F Hf.
  - exists n, w, []. simpl. unfold ret. rewrite app_nil_r.
    repeat split; auto; discriminate.
  - destruct (Hf filePath) as (content & Hc); [left|].
    pose proof (updateFile_nofault filePath content w Hp Hd F Hc) as U.
    destruct (String.eqb_spec (spec_replace_all subject versionString content) content)
      as [Heq | Hne].
    + rewrite (rewriteFiles_cons_ok _ _ _ _ _ _ _ _ U).
      destruct (IH n w F) as (n' & w' & new & E & Ew & En & Ef & Eo & Ec & Ea & El & _).
      { intros path Hin. apply Hf. now right. }
      exists n', w', new. repeat split; auto.
      * simpl. lia.
      * intros first rest' [= <- <-] Hs Hv Hh.
        rewrite (holds_placeholder_file _ _ _ Hc) in Hh.
        exfalso. now apply (replace_changes subject versionString Hs content Hv Hh).
    + rewrite (rewriteFiles_cons_ok _ _ _ _ _ _ _ _ U).
      set (content' := spec_replace_all subject versionString content) in *.
      set (w1 := mkWorld _ _ _ _ _) in *.
      destruct (IH (S n) w1) as (n' & w' & new & E & Ew & En & Ef & Eo & Ec & Ea & El & _).
      { reflexivity. }
      { intros path Hin. subst w1. simpl.
        destruct (decide (filePath = path)) as [<- | Hd'].
        - rewrite lookup_insert_eq. now exists content'.
        - rewrite lookup_insert_ne by exact Hd'. apply Hf. now right. }
      exists n', w', ((filePath, content') :: new).
      split; [exact E|]. subst w1. simpl in *.
      rewrite Ew, <- app_assoc.
      repeat split; auto; try (simpl; lia).
      intros first rest' [= <- <-] _ _ _. now exists content, new.
Qed.

(** *** The engine, without a fault *)

(** Without a fault, when the target names a file or a directory and
    every path read names a file, the engine keeps the candidates, goes
    through them without a warning and reports the count of its
    writes. *)
Lemma copyVersion_nofault (targetPath : string) (w : World) :
  plain subject = true -> no_dollar versionString = true ->
  is_Some (fs w !! targetPath) -> faults w = [] -> readable targetPath w ->
  exists w' new,
    copyVersion versionString subject targetPath w = (Ok tt, w') /\
    writes w' = writes w ++ new /\
    fs w' = apply_writes new (fs w) /\
    cwd w' = cwd w /\ faults w' = [] /\
    List.length new <= List.length (candidates subject targetPath w) /\
    console w' = console w ++
      progress (List.length (candidates subject targetPath w)) ++
      [summary subject versionString (List.length new)
         (List.length (candidates subject targetPath w))] /\
    (subject <> EmptyString -> versionString <> subject ->
     forall first rest,
       candidates subject targetPath w = first :: rest ->
       exists content more,
         fs w !! first = Some (File content) /\
         new = (first, spec_replace_all subject versionString content) :: more).
Proof.
  intros Hp Hd Ht F Hr. rewrite copyVersion_run.
  set (w0 := log_event (SpinnerStart "Finding files to update...") w).
  rewrite (findFilesToUpdate_nofault targetPath w0 Ht F Hr).
  change (candidates subject targetPath w0) with (candidates subject targetPath w).
  pose proof (candidates_hold targetPath) as Hh.
  destruct (candidates subject targetPath w) as [|first rest] eqn:Ec.
  - exists (log_event (SpinnerInfo ("No files found containing '" +:+ subject +:+ "'"))
              (log_event (SpinnerText ("Updating " +:+ show_nat 0 +:+ " files...")) w0)), [].
    simpl. rewrite app_nil_r, <- !app_assoc. repeat split; auto. discriminate.
  - cbv zeta.
    set (w2 := log_event _ w0).
    destruct (rewriteFiles_nofault (first :: rest) 0 w2 Hp Hd F)
      as (n' & w3 & new & E & Ew & En & Ef & Eo & Ecw & Ea & El & Hn).
    { intros path Hin. destruct (Hh path w) as (_ & Hp').
      - now rewrite Ec.
      - destruct (holds_placeholder_true _ _ Hp') as (content & Hc & _).
        now exists content. }
    rewrite E. eexists; exists new. split; [reflexivity|].
    simpl. rewrite Ew, Ef, Eo, Ecw, Ea. simpl in En. subst n'.
    subst w2 w0. simpl. rewrite <- !app_assoc. simpl.
    repeat split; auto.
    intros Hs Hv first' rest' [= <- <-]. apply (Hn first rest eq_refl Hs Hv).
    destruct (Hh first w) as (_ & Hp'); [rewrite Ec; left | exact Hp'].
Qed.

(** *** A run over a target that holds no placeholder *)



(** Every write of a run goes to a path the engine read for the target,
    whose file held the placeholder when the run began. *)
Lemma copyVersion_scope (targetPath : string) (w w' : World) (r : result unit) :
  copyVersion versionString subject targetPath w = (r, w') ->
  exists new,
    writes w' = writes w ++ new /\
    Forall (fun entry =>
              fst entry ∈ scanned targetPath w /\
              holds_placeholder subject (fs w) (fst entry) = true) new.
Proof.
  rewrite copyVersion_run.
  set (w0 := log_event (SpinnerStart "Finding files to update...") w).
  destruct (findFilesToUpdate subject targetPath w0) as [[[kept|]|e] w1] eqn:E;
    destruct (findFilesToUpdate_frame _ _ _ _ _ E) as ((Ef & Ew & _) & _).
  - pose proof (findFilesToUpdate_sound _ _ _ _ E) as Hk.
    destruct kept as [|filePath rest].
    + intros [= _ <-]. exists []. simpl. rewrite Ew, app_nil_r. auto.
    + cbv zeta. set (w2 := log_event _ w1).
      destruct (rewriteFiles_spec subject versionString (filePath :: rest) 0 w2)
        as (n' & w3 & new & failed & R & Rw & _ & _ & Rr & _).
      rewrite R. intros [= _ <-]. exists new. simpl. rewrite Rw. subst w2. simpl.
      rewrite Ew. split; [reflexivity|].
      eapply Forall_impl; [exact Rr|]. intros entry [Hin _].
      rewrite Forall_forall in Hk. exact (Hk _ Hin).
  - intros [= _ <-]. exists []. rewrite Ew, app_nil_r. auto.
  - intros [= _ <-]. exists []. rewrite Ew, app_nil_r. auto.
Qed.

End Run.


End IdempotenceFacts.
(* ================================================================== *)
(** ** Scenarios *)
(* ================================================================== *)

Module Scenarios.
Import Js Node Version Commands ScenarioData EngineFacts ManifestFacts IdempotenceFacts.

(** Scenario 3: one of two files holds the placeholder. *)
Example scenario_one_of_two :
  let w' := snd (copyto None (world (project "v = __VERSION__" "nothing") [])) in
  writes w' = [("d/a.txt", "v = 1.2.3")] /\
  fs w' !! "d/b.txt" = Some (File "nothing") /\
  last (console w') = Some (SpinnerSucceed "Updated 1 of 1 files with version 1.2.3").
Proof. vm_compute. repeat split. Qed.

(** The placeholder [a.c] at work: the text [abc] is replaced too. *)
Example scenario_pattern_placeholder :
  writes (snd (copyto (Some "a.c") (world (project "abc a.c" "nothing") [])))
  = [("d/a.txt", "1.2.3 1.2.3")].
Proof. vm_compute. reflexivity. Qed.

(** Scenario 1: the major part of the manifest goes up. *)
Example scenario_major_up :
  let w' := snd (@handleUpdateVersionPart scenario_platform Major (options_with None)
                   (world (project "a" "b") [])) in
  writes w' =
  [("package.json",
    "{" +:+ String LF ("  " +:+ String DQ ("version" +:+ String DQ (": " +:+
    String DQ ("2.0.0" +:+ String DQ (String LF ("}" +:+ String LF EmptyString)))))))].
Proof. vm_compute. reflexivity. Qed.

(** A directory whose first file cannot be read during the Filtering
    stage: the invocation stops there.  No file is written, the other
    candidate keeps its placeholder, and the console shows the error of
    the whole invocation. *)
Example scenario_filter_failure :
  fst faulty_run = Ok tt /\
  writes (snd faulty_run) = [] /\
  fs (snd faulty_run) !! "d/a.txt" = Some (File "__VERSION__") /\
  fs (snd faulty_run) !! "d/b.txt" = Some (File "x __VERSION__") /\
  console (snd faulty_run) =
  [SpinnerStart "Finding files to update...";
   ConsoleError "Failed to copy version: EIO: i/o error, read"].
Proof. vm_compute. repeat split. Qed.

(** The invocation of the test on read errors, a single file whose read
    fails: the console holds the error of the whole invocation and not
    the warning ["Failed to update d/a.txt"] that the test expects. *)
Example scenario_unreadable_target :
  fst unreadable_target_run = Ok tt /\
  writes (snd unreadable_target_run) = [] /\
  console (snd unreadable_target_run) =
  [SpinnerStart "Finding files to update...";
   ConsoleError "Failed to copy version: EIO: i/o error, read"] /\
  ~ In (ConsoleWarning "Failed to update d/a.txt") (console (snd unreadable_target_run)).
Proof.
  vm_compute. repeat split. intros [E | [E | []]]; discriminate E.
Qed.



(** C2 at the faulty run: the handler reports the failed read of the
    Filtering stage and writes nothing. *)
Lemma C2_filter_read_failure_aborts_witness :
  exists (w2 : World) (e : exn),
    @handleCopyTo scenario_platform "d" (options_with None)
      (world (project "__VERSION__" "x __VERSION__") [false; true])
    = (Ok tt, log_event (ConsoleError ("Failed to copy version: " +:+ message e)) w2) /\
    fs w2 = project "__VERSION__" "x __VERSION__" /\
    writes w2 = [].
Proof.
  eexists _, _.
  eapply (proj2 (proj2 (proj2
            (@C2_filter_read_failure_aborts scenario_platform "d" (options_with None))))).
  - reflexivity.
  - reflexivity.
  - reflexivity.
  - reflexivity.
Defined.


(** C8 (as stated) fails: a manifest that holds a JSON array is
    rewritten with success, and the document written is the array, as
    [JSON.stringify] prints it, without a version. *)
Lemma C8_array_manifest_counterexample :
  fst (@updatePackageVersion array_platform "package.json" (mkVersion 1 2 3 None)
         array_manifest) = Ok true /\
  writes (snd (@updatePackageVersion array_platform "package.json" (mkVersion 1 2 3 None)
                 array_manifest))
  = [("package.json", "[]" +:+ String LF EmptyString)] /\
  includes ("[]" +:+ String LF EmptyString) "1.2.3" = false.
Proof. vm_compute. repeat split. Qed.

(** C8 at the manifest of the scenarios: the update succeeds, and the
    document written is the manifest with its version set. *)
Lemma C8_update_manifest_witness :
  exists (updated : bool) (w' : World),
    @updatePackageVersion scenario_platform "package.json" (mkVersion 2 0 0 None)
      (world (project "a" "b") []) = (Ok updated, w') /\
    updated = true /\
    writes w' = [("package.json", manifest_after)].
Proof.
  destruct (@C8_update_manifest scenario_platform "package.json" (mkVersion 2 0 0 None)
              (world (project "a" "b") []))
    as (updated & w' & E & Hiff & _ & _).
  exists updated, w'. split; [exact E|].
  assert (Hu : updated = true).
  { apply Hiff. eexists _, _, _, _, _, _.
    split; [reflexivity|]. split; [reflexivity|].
    split; [reflexivity|]. reflexivity. }
  split; [exact Hu|].
  subst updated. vm_compute in E. injection E as <-. reflexivity.
Defined.

(** The literal replacement at the default placeholder. *)
Lemma replace_RegExp_g_plain_witness :
  @replace_RegExp_g scenario_platform "__VERSION__" "1.2.3" "v = __VERSION__"
    (world (project "a" "b") [])
  = (Ok (spec_replace_all "__VERSION__" "1.2.3" "v = __VERSION__"),
     world (project "a" "b") []).
Proof.
  apply (@replace_RegExp_g_plain scenario_platform); reflexivity.
Defined.

End Scenarios.

Module VersionExamples.
Import Js Version.

Example parse_plain : parseVersion "1.2.3" = Some (mkVersion 1 2 3 None).
Proof. reflexivity. Qed.

Example parse_build :
  parseVersion "1.2.3-beta.1" = Some (mkVersion 1 2 3 (Some "beta.1")).
Proof. reflexivity. Qed.

Example parse_rejects :
  parseVersion "1.2" = None /\ parseVersion "1.2.3.4" = None /\
  parseVersion "not.a.version" = None /\ parseVersion "1.2.3-" = None.
Proof. repeat split; reflexivity. Qed.

Example format_build :
  formatVersion (mkVersion 1 2 3 (Some "alpha.1")) = "1.2.3-alpha.1".
Proof. vm_compute. reflexivity. Qed.

Example adjust_major_up :
  adjustVersionPart (mkVersion 1 2 3 None) Major Up = mkVersion 2 0 0 None.
Proof. vm_compute. reflexivity. Qed.

Example adjust_floor :
  adjustVersionPart (mkVersion 0 2 3 None) Major Down = mkVersion 0 2 3 None.
Proof. reflexivity. Qed.

(** From 2 ^ 53 on, the numbers are not all integers: the part read is
    the nearest number, and the next integer is out of reach. *)
Example parse_rounds :
  parseVersion "9007199254740993.0.0" = Some (mkVersion (2 ^ 53) 0 0 None) /\
  adjustVersionPart (mkVersion (2 ^ 53) 0 0 None) Major Up = mkVersion (2 ^ 53) 0 0 None.
Proof. vm_compute. split; reflexivity. Qed.

(** From 10 ^ 21 on, a number is printed with an exponent. *)
Example format_exponent :
  formatVersion (mkVersion (10 ^ 21) 0 0 None) = "1e+21.0.0".
Proof. vm_compute. reflexivity. Qed.

End VersionExamples.
(* ================================================================== *)
(** ** Further laws of the version model *)
(* ================================================================== *)

Module VersionLaws.
Import Js Node Version NumberFacts VersionFacts.

(** *** The strings [parseVersion] accepts *)

(** X2: the strings [parseVersion] accepts, and what it reads in them.
    It returns a version exactly for the strings made of three non-empty
    runs of digits separated by dots, followed either by nothing or by a
    hyphen and a non-empty text without line terminator, where
    [parseInt] reads each run as a finite number; the parts of the
    version are these numbers (the integer the run denotes below 2^53,
    and the nearest number from there on), with leading zeros allowed,
    and the build tag is that text, whatever it holds. *)
Theorem parseVersion_accepts (version : string) (v : SemanticVersion) :
  parseVersion version = Some v <->
  exists g1 g2 g3 : string,
    version = g1 +:+ "." +:+ g2 +:+ "." +:+ g3 +:+ suffix_text (build v) /\
    numeric g1 /\ numeric g2 /\ numeric g3 /\
    parseInt g1 = Integer (major v) /\ parseInt g2 = Integer (minor v) /\
    parseInt g3 = Integer (patch v) /\ build_text (build v).
Proof.
  split; [apply parseVersion_sound|].
  intros (g1 & g2 & g3 & -> & H1 & H2 & H3 & P1 & P2 & P3 & Hb).
  now apply parseVersion_complete.
Qed.

(** The rounding does not go below a power of two that the integer
    reaches. *)
Lemma round_ge_pow2 (k n : Z) :
  (53 <= k)%Z -> (2 ^ k <= n)%Z -> (2 ^ k <= round_nearest_even n)%Z.
Proof.
  intros Hk Hn.
  assert (Hl : (2 ^ 53 <= n)%Z).
  { assert (2 ^ 53 <= 2 ^ k)%Z by (apply Z.pow_le_mono_r; lia). lia. }
  destruct (ulp_exponent_large n Hl) as [He H1].
  destruct (significand_bounds n Hl) as [Hu [Hlo Hhi]].
  assert (Hlog : (k <= Z.log2 n)%Z).
  { rewrite <- (Z.log2_pow2 k) by lia. now apply Z.log2_le_mono. }
  assert (Hp : (2 ^ k <= 2 ^ 52 * 2 ^ ulp_exponent n)%Z).
  { rewrite He, <- Z.pow_add_r by lia. apply Z.pow_le_mono_r; lia. }
  destruct (round_cases n) as [E | E]; rewrite E; nia.
Qed.

(** What [parseInt] reads in a run of digits: the number nearest to the
    integer the run denotes, which is that integer below 2^53; a run
    that denotes 2^1024 or more is read as [Infinity]. *)
Lemma parseInt_reads (g : string) :
  numeric g ->
  parseInt g = Number_of (parseInt_acc 0 g) /\
  ((parseInt_acc 0 g <= 2 ^ 53)%Z -> parseInt g = Integer (parseInt_acc 0 g)) /\
  ((2 ^ 1024 <= parseInt_acc 0 g)%Z -> parseInt g = Infinity).
Proof.
  intros Hg. pose proof (parseInt_acc_nonneg g 0 ltac:(lia)) as H0.
  rewrite (parseInt_numeric g Hg). split; [reflexivity|]. split.
  - intros Hs. unfold Number_of. rewrite round_exact by lia.
    assert (2 ^ 53 < 2 ^ 1024)%Z by (apply Z.pow_lt_mono_r; lia).
    destruct (Z.ltb_spec (parseInt_acc 0 g) (2 ^ 1024)); [reflexivity | lia].
  - intros Hl. unfold Number_of.
    assert (2 ^ 53 <= parseInt_acc 0 g)%Z.
    { assert (2 ^ 53 < 2 ^ 1024)%Z by (apply Z.pow_lt_mono_r; lia). lia. }
    pose proof (round_ge_pow2 1024 (parseInt_acc 0 g) ltac:(lia) Hl) as Hm.
    destruct (Z.ltb_spec (round_nearest_even (parseInt_acc 0 g)) (2 ^ 1024));
      [lia | reflexivity].
Qed.

(** *** Parsing what was formatted *)

(** X3: a version that [parseVersion] returned is read back from its
    own text when its parts are below 10^21: formatting it and parsing
    the result gives the same version, whatever the string it was first
    read from. *)
Theorem parse_format_parse (s : string) (v : SemanticVersion) :
  parseVersion s = Some v ->
  (major v < 10 ^ 21)%Z -> (minor v < 10 ^ 21)%Z -> (patch v < 10 ^ 21)%Z ->
  parseVersion (formatVersion v) = Some v.
Proof.
  intros P Ha Hb Hc.
  destruct (parseVersion_valid _ _ P) as (Hv & Hl & Na & Nb & Nc).
  apply parseVersion_formatVersion; [exact Hv | | exact Hl].
  destruct Hv as (A & B & C & _).
  unfold printable, positional. rewrite !Z.abs_eq by assumption. tauto.
Qed.

(** *** The text of a version determines it *)

Lemma starts_nondigit_suffix (b : option string) : starts_nondigit (suffix_text b).
Proof. destruct b; [reflexivity | exact I]. Qed.

(** Two runs of digits, each followed by a text that starts with no
    digit, are equal when the whole texts are. *)
Lemma digits_then_rest (a a' r r' : string) :
  all_digits a = true -> all_digits a' = true ->
  starts_nondigit r -> starts_nondigit r' ->
  a +:+ r = a' +:+ r' -> a = a' /\ r = r'.
Proof.
  intros Ha Ha' Hr Hr' E.
  pose proof (span_digits_app a r Ha Hr) as S.
  pose proof (span_digits_app a' r' Ha' Hr') as S'.
  rewrite E in S. rewrite S in S'. now injection S'.
Qed.

Lemma Number_toString_digits (z : Z) :
  (0 <= z)%Z -> positional z -> all_digits (Number_toString z) = true.
Proof. intros H0 Hp. now destruct (Number_toString_read z H0 Hp) as [[_ Hd] _]. Qed.

Lemma formatVersion_inj (v1 v2 : SemanticVersion) :
  valid v1 -> valid v2 -> printable v1 -> printable v2 ->
  formatVersion v1 = formatVersion v2 -> v1 = v2.
Proof.
  intros Hv1 Hv2 (Pa1 & Pb1 & Pc1) (Pa2 & Pb2 & Pc2) E.
  rewrite !formatVersion_text in E.
  rewrite (valid_build_truthy _ Hv1), (valid_build_truthy _ Hv2) in E.
  destruct Hv1 as (A1 & B1 & C1 & D1), Hv2 as (A2 & B2 & C2 & D2).
  apply digits_then_rest in E;
    auto using Number_toString_digits; try reflexivity.
  destruct E as [Ea E]. injection E as E.
  apply digits_then_rest in E;
    auto using Number_toString_digits; try reflexivity.
  destruct E as [Eb E]. injection E as E.
  apply digits_then_rest in E;
    auto using Number_toString_digits, starts_nondigit_suffix.
  destruct E as [Ec E].
  apply Number_toString_inj in Ea, Eb, Ec; try assumption.
  destruct v1 as [a1 b1 c1 d1], v2 as [a2 b2 c2 d2]. simpl in *. subst.
  f_equal.
  destruct d1 as [[|x t]|], d2 as [[|y u]|]; simpl in E;
    try congruence; try discriminate E.
Qed.

(** X4: [formatVersion] is injective on the valid versions whose parts
    are numbers below 10^21: two such versions, with non-negative parts
    and non-empty build tags, are written as the same text only when
    they are the same version. *)
Theorem formatVersion_injective (v1 v2 : SemanticVersion) :
  valid v1 -> valid v2 -> printable v1 -> printable v2 ->
  (formatVersion v1 = formatVersion v2 <-> v1 = v2).
Proof.
  intros Hv1 Hv2 Hp1 Hp2. split; [now apply formatVersion_inj | now intros ->].
Qed.

(** *** Adjustments, composed and ordered *)

(** X5: where an adjustment moves a version whose selected part is a
    non-negative integer below 2^53.  Up gives a version that comes
    strictly after the given one in the order by major, minor and
    patch; down gives one that comes strictly before it when the part
    is above zero, and the given version itself otherwise. *)
Theorem adjust_moves_in_order (v : SemanticVersion) (part : Part) :
  (0 <= get_part part v < 2 ^ 53)%Z ->
  precedes v (adjustVersionPart v part Up) /\
  (if (0 <? get_part part v)%Z
   then precedes (adjustVersionPart v part Down) v
   else adjustVersionPart v part Down = v).
Proof.
  intros Hs.
  assert (Eu : to_Number (get_part part v + 1) = (get_part part v + 1)%Z)
    by (apply to_Number_exact; lia).
  unfold adjustVersionPart, precedes. split.
  - rewrite Eu. destruct part; simpl in *; lia.
  - destruct (Z.ltb_spec 0 (get_part part v)) as [Hp|Hp]; [|reflexivity].
    assert (Ed : to_Number (get_part part v - 1) = (get_part part v - 1)%Z)
      by (apply to_Number_exact; lia).
    rewrite Ed. destruct part; simpl in *; lia.
Qed.

(** X6: an adjustment up of a part makes the earlier adjustments of
    its subordinate parts void: raising major after any change of minor
    or patch, or minor after any change of patch, gives what raising it
    alone gives. *)
Theorem adjust_up_absorbs
    (v : SemanticVersion) (part other : Part) (direction : Direction) :
  below other part = true ->
  adjustVersionPart (adjustVersionPart v other direction) part Up
  = adjustVersionPart v part Up.
Proof.
  unfold adjustVersionPart.
  destruct part, other; try discriminate; intros _; destruct direction;
    try reflexivity;
    cbn [get_part]; match goal with |- context [(0 <? ?x)%Z] =>
      destruct (0 <? x)%Z end; reflexivity.
Qed.

(** X7: up and then down on the same part.  On a part that is a
    non-negative integer below 2^53, going down after going up restores
    the part, and leaves its subordinate parts at the zero that going up
    set: the version is the one given exactly for patch, or when these
    parts were zero. *)
Theorem adjust_up_then_down (v : SemanticVersion) (part : Part) :
  (0 <= get_part part v < 2 ^ 53)%Z ->
  adjustVersionPart (adjustVersionPart v part Up) part Down = reset_below part v.
Proof.
  intros Hp.
  assert (Eu : to_Number (get_part part v + 1) = (get_part part v + 1)%Z)
    by (apply to_Number_exact; lia).
  assert (Ed : to_Number (get_part part v + 1 - 1) = get_part part v)
    by (rewrite to_Number_exact; lia).
  unfold adjustVersionPart. rewrite Eu.
  destruct v as [a b c bd].
  destruct part; cbn [get_part set_part major minor patch build] in *.
  - destruct (Z.ltb_spec 0 (a + 1)); [|lia]. unfold reset_below. simpl. now rewrite Ed.
  - destruct (Z.ltb_spec 0 (b + 1)); [|lia]. unfold reset_below. simpl. now rewrite Ed.
  - destruct (Z.ltb_spec 0 (c + 1)); [|lia]. unfold reset_below. simpl. now rewrite Ed.
Qed.

End VersionLaws.
(* ================================================================== *)
(** ** Further laws of the manifest *)
(* ================================================================== *)

Module ManifestLaws.
Import Js Node Version Commands RuntimeFacts VersionFacts ManifestFacts VersionLaws.

Section Manifest.
Context `{Platform}.

(** [readPackageVersion], step by step. *)
Lemma readPackageVersion_run (packagePath : string) (w : World) :
  readPackageVersion packagePath w =
  match readFileSync packagePath w with
  | (Throw e, w1) => (Ok None, log_event (read_failed e) w1)
  | (Ok content, w1) =>
      match JSON_parse content with
      | None => (Ok None, log_event (read_failed (Error (JSON_parse_error content))) w1)
      | Some packageJson =>
          match get_property packageJson "version" w1 with
          | (Throw e, w2) => (Ok None, log_event (read_failed e) w2)
          | (Ok (Some (JString (String c s))), w2) =>
              match parseVersion (String c s) with
              | Some version => (Ok (Some version), w2)
              | None =>
                  (Ok None,
                   log_event
                     (ConsoleError ("Invalid version format in " +:+ packagePath +:+
                                    ": " +:+ String c s)) w2)
              end
          | (Ok _, w2) =>
              (Ok None,
               log_event (ConsoleError ("No valid version found in " +:+ packagePath)) w2)
          end
      end
  end.
Proof.
  unfold readPackageVersion, try_catch, parse_json, read_failed. unfold bind at 1.
  destruct (readFileSync packagePath w) as [[content|e] w1]; [|reflexivity].
  unfold bind at 1. destruct (JSON_parse content) as [packageJson|]; [|reflexivity].
  unfold ret at 1. unfold bind at 1.
  destruct (get_property packageJson "version" w1) as [[field|e] w2]; [|reflexivity].
  destruct field as [[| | |[|c s]| |]|]; try reflexivity.
  destruct (parseVersion (String c s)); reflexivity.
Qed.

Lemma get_property_spec (value : json) (key : string) (w w' : World)
    (r : result (option json)) :
  get_property value key w = (r, w') ->
  w' = w /\
  forall field, r = Ok (Some field) ->
    exists members, value = JObject members /\ lookup_member key members = Some field.
Proof.
  destruct value as [|b|text|s|elements|members]; intros [= <- <-];
    (split; [reflexivity|]); intros field; try discriminate.
  intros [= E]. eauto.
Qed.

End Manifest.

(** A case where [readPackageVersion] prints one error and returns
    [null]. *)
Local Ltac one_error Ro :=
  eexists None, _; split; [reflexivity|]; simpl; split_and!; try assumption;
  eexists; rewrite Ro; split; [reflexivity|].

(** X8: what [readPackageVersion] does, in every case.  It never throws
    and never writes.  When it returns a version, the manifest is a file
    that holds a JSON object whose [version] member is a string that
    [parseVersion] reads as that version, and nothing is printed.  When
    it returns [null], exactly one error is printed: that no valid
    version was found (a member that is missing, empty or no string), or
    that the version has an invalid format, or the message of the
    failure that was caught (a file that cannot be read, a text that is
    no JSON, a manifest that is [null]). *)
Theorem readPackageVersion_outcome `{Platform} (packagePath : string) (w : World) :
  exists (r : option SemanticVersion) (w' : World),
    readPackageVersion packagePath w = (Ok r, w') /\
    fs w' = fs w /\ writes w' = writes w /\
    match r with
    | Some version =>
        console w' = console w /\
        exists (content : string) (members : list (string * json)) (s : string),
          fs w !! packagePath = Some (File content) /\
          JSON_parse content = Some (JObject members) /\
          lookup_member "version" members = Some (JString s) /\
          parseVersion s = Some version
    | None =>
        exists msg : string,
          console w' = console w ++ [ConsoleError msg] /\
          (msg = "No valid version found in " +:+ packagePath \/
           (exists s : string,
              msg = "Invalid version format in " +:+ packagePath +:+ ": " +:+ s /\
              parseVersion s = None) \/
           (exists e : exn, msg = "Failed to read package version: " +:+ message e))
    end.
Proof.
  rewrite readPackageVersion_run.
  destruct (readFileSync packagePath w) as [[content|e] w1] eqn:R;
    destruct (readFileSync_frame _ _ _ _ R) as ((Rf & Rw & _) & Ro).
  2: { one_error Ro. right. right. now exists e. }
  pose proof (readFileSync_ok _ _ _ _ R) as Hc.
  destruct (JSON_parse content) as [packageJson|] eqn:P.
  2: { one_error Ro. right. right. now exists (Error (JSON_parse_error content)). }
  destruct (get_property packageJson "version" w1) as [[field|e] w2] eqn:G;
    destruct (get_property_spec _ _ _ _ _ G) as (-> & Hfield).
  2: { one_error Ro. right. right. now exists e. }
  destruct field as [[| | |[|c s]| |]|]; try (one_error Ro; now left).
  destruct (Hfield _ eq_refl) as (members & -> & Hm).
  destruct (parseVersion (String c s)) as [version|] eqn:V.
  - exists (Some version), w1. split; [reflexivity|]. split_and!; try assumption.
    exists content, members, (String c s). auto.
  - one_error Ro. right. left. exists (String c s). auto.
Qed.

Section RoundTrip.
Context `{Platform}.

(** Without a fault, a manifest that holds a version is read. *)
Lemma readPackageVersion_nofault
    (packagePath : string) (w : World) (members : list (string * json))
    (version : SemanticVersion) :
  faults w = [] -> manifest_holds w packagePath members version ->
  readPackageVersion packagePath w = (Ok (Some version), w).
Proof.
  intros F (content & s & Hc & P & Hm & V).
  rewrite readPackageVersion_run, (readFileSync_nofault _ _ _ F Hc), P.
  cbn [get_property]. unfold ret. rewrite Hm.
  destruct s as [|c s]; [discriminate V|]. now rewrite V.
Qed.

(** Without a fault, a manifest that holds an object is rewritten. *)
Lemma updatePackageVersion_nofault
    (packagePath content : string) (w : World) (members : list (string * json))
    (version : SemanticVersion) :
  faults w = [] -> fs w !! packagePath = Some (File content) ->
  JSON_parse content = Some (JObject members) ->
  updatePackageVersion packagePath version w =
  (Ok true,
   mkWorld (<[packagePath := File (updated_manifest members (formatVersion version))]> (fs w))
           (cwd w) [] (console w)
           (writes w ++ [(packagePath, updated_manifest members (formatVersion version))])).
Proof.
  intros F Hc P.
  rewrite updatePackageVersion_run, (readFileSync_nofault _ _ _ F Hc), P.
  cbn [set_property]. unfold ret.
  now rewrite (writeFileSync_nofault _ _ _ _ F Hc).
Qed.

End RoundTrip.

(** X9: writing a version to the manifest and reading it back.  Let
    the manifest hold a JSON object, let no read or write fail, and let
    [JSON.parse] read the text that was written as the value it was
    printed from.  Then [updatePackageVersion] with a valid version
    whose parts are numbers below 10^21 and whose build tag is on one
    line succeeds, and [readPackageVersion] returns that version from
    the rewritten manifest, without any message. *)
Theorem update_then_read `{Platform}
    (packagePath content : string) (members : list (string * json))
    (version : SemanticVersion) (w : World) :
  valid version -> printable version -> build_on_one_line version = true ->
  faults w = [] -> fs w !! packagePath = Some (File content) ->
  JSON_parse content = Some (JObject members) ->
  JSON_parse (document (JObject (assign_member "version"
                                   (JString (formatVersion version)) members)))
  = Some (JObject (assign_member "version" (JString (formatVersion version)) members)) ->
  exists w' : World,
    updatePackageVersion packagePath version w = (Ok true, w') /\
    readPackageVersion packagePath w' = (Ok (Some version), w').
Proof.
  intros Hv Hn Hl F Hc P P'.
  rewrite (updatePackageVersion_nofault _ _ _ _ _ F Hc P).
  eexists. split; [reflexivity|].
  apply readPackageVersion_nofault with
    (members := assign_member "version" (JString (formatVersion version)) members);
    [reflexivity|].
  exists (updated_manifest members (formatVersion version)), (formatVersion version).
  cbn [fs]. rewrite lookup_insert_eq. split_and!; try reflexivity.
  - exact P'.
  - apply lookup_assign_same.
  - now apply parseVersion_formatVersion.
Qed.

End ManifestLaws.

(* ================================================================== *)
(** ** Further laws of the handlers *)
(* ================================================================== *)

Module HandlerLaws.
Import Js Node Version Commands RuntimeFacts VersionFacts EngineFacts ManifestFacts.
Import VersionLaws ManifestLaws.

Section Resolve.
Context `{Platform}.

(** Line 66: the path of the manifest. *)
Lemma resolve_path (options : Options) (w : World) :
  match truthy_string (package options) with
  | Some p => ret (Some p)
  | None => dir <- process_cwd ;; findPackageJson dir
  end w = (Ok (packagePath_of options w), w).
Proof.
  unfold packagePath_of. destruct (truthy_string (package options)); [reflexivity|].
  unfold bind, process_cwd, findPackageJson, existsSync, bind, get_fs, ret.
  now destruct (fs w !! path_join (cwd w) "package.json").
Qed.

(** [validatePath(path, 'file')], by what the path names. *)
Lemma validatePath_file (path : string) (w : World) :
  validatePath path true w =
  match fs w !! path with
  | Some (File _) => (Ok true, w)
  | Some Directory =>
      (Ok false, log_event (ConsoleError ("Path is not a file: " +:+ path)) w)
  | None =>
      (Ok false, log_event (ConsoleError ("Path does not exist: " +:+ path)) w)
  end.
Proof.
  unfold validatePath, try_catch, statSync, bind, get_fs, error, emit, ret, throw.
  now destruct (fs w !! path) as [[content|]|].
Qed.

(** Lines 65-81, step by step. *)
Lemma resolveVersion_run (options : Options) (w : World) :
  resolveVersion options w =
  match packagePath_of options w with
  | None =>
      (Ok None,
       log_event
         (ConsoleError "No package.json found. Please specify with --package option.") w)
  | Some packagePath =>
      match validatePath packagePath true w with
      | (Ok true, w1) =>
          match readPackageVersion packagePath w1 with
          | (Ok (Some version), w2) => (Ok (Some (packagePath, version)), w2)
          | (Ok None, w2) => (Ok None, w2)
          | (Throw e, w2) => (Throw e, w2)
          end
      | (Ok false, w1) => (Ok None, w1)
      | (Throw e, w1) => (Throw e, w1)
      end
  end.
Proof.
  unfold resolveVersion. rewrite (bind_ok _ _ _ _ _ (resolve_path options w)).
  destruct (packagePath_of options w) as [packagePath|]; [|reflexivity].
  unfold bind at 1.
  destruct (validatePath packagePath true w) as [[[]|e] w1]; try reflexivity.
  unfold bind, ret.
  now destruct (readPackageVersion packagePath w1) as [[[version|]|e] w2].
Qed.

(** [readPackageVersion] returns, and only reads. *)
Lemma readPackageVersion_returns (packagePath : string) (w : World) :
  exists (r : option SemanticVersion) (w' : World),
    readPackageVersion packagePath w = (Ok r, w') /\ same_files w w'.
Proof.
  destruct (readPackageVersion packagePath w) as [r w'] eqn:E.
  pose proof (readPackageVersion_frame _ _ _ _ E) as Hs.
  rewrite readPackageVersion_run in E.
  destruct (readFileSync packagePath w) as [[content|e] w1].
  - destruct (JSON_parse content) as [packageJson|].
    + destruct (get_property packageJson "version" w1) as [[field|e] w2].
      * destruct field as [[| | |[|c s]| |]|];
          try (injection E as <- <-; eauto).
        destruct (parseVersion (String c s)); injection E as <- <-; eauto.
      * injection E as <- <-; eauto.
    + injection E as <- <-; eauto.
  - injection E as <- <-; eauto.
Qed.

(** The manifest is resolved without a throw and without a write; the
    path that is returned is the one the options and the working
    directory give. *)
Lemma resolveVersion_returns (options : Options) (w : World) :
  exists (o : option (string * SemanticVersion)) (w' : World),
    resolveVersion options w = (Ok o, w') /\ same_files w w' /\
    forall packagePath version,
      o = Some (packagePath, version) -> packagePath_of options w = Some packagePath.
Proof.
  rewrite resolveVersion_run.
  destruct (packagePath_of options w) as [packagePath|].
  - rewrite validatePath_file.
    destruct (fs w !! packagePath) as [[content|]|].
    + destruct (readPackageVersion_returns packagePath w) as (r & w' & -> & Hs).
      destruct r as [version|].
      * eexists _, _. split; [reflexivity|]. split; [exact Hs|].
        now intros p v [= <- _].
      * eexists _, _. split; [reflexivity|]. split; [exact Hs|]. discriminate.
    + eexists _, _. split; [reflexivity|]. split; [apply same_files_log|]. discriminate.
    + eexists _, _. split; [reflexivity|]. split; [apply same_files_log|]. discriminate.
  - eexists _, _. split; [reflexivity|]. split; [apply same_files_log|]. discriminate.
Qed.

(** Without a fault, a manifest that holds a version is resolved, and
    nothing is printed. *)
Lemma resolveVersion_nofault
    (options : Options) (w : World) (packagePath : string)
    (members : list (string * json)) (version : SemanticVersion) :
  faults w = [] -> packagePath_of options w = Some packagePath ->
  manifest_holds w packagePath members version ->
  resolveVersion options w = (Ok (Some (packagePath, version)), w).
Proof.
  intros F Hp Hm. rewrite resolveVersion_run, Hp, validatePath_file.
  pose proof Hm as (content & s & -> & _).
  now rewrite (readPackageVersion_nofault _ _ _ _ F Hm).
Qed.

(** [validateParams] on the two schemas of a handler. *)
Lemma validateParams_run (first second : option string) (w : World) :
  validateParams [first; second] w =
  match first, second with
  | Some msg, _ | None, Some msg =>
      (Ok false, log_event (ConsoleError ("Validation error: " +:+ msg)) w)
  | None, None => (Ok true, w)
  end.
Proof. now destruct first, second. Qed.

(** [handleUpdateVersionPart] once its parameters are validated. *)
Lemma handleUpdateVersionPart_run (part : Part) (options : Options) (w : World) :
  OptionsSchema options = None ->
  handleUpdateVersionPart part options w =
  match resolveVersion options w with
  | (Throw e, w1) =>
      (Ok tt, log_event (ConsoleError ("Failed to update version: " +:+ message e)) w1)
  | (Ok None, w1) => (Ok tt, w1)
  | (Ok (Some (packagePath, currentVersion)), w1) =>
      let newVersion := adjustVersionPart currentVersion part (direction_of options) in
      let w2 :=
        log_event
          (SpinnerStart ("Updating " +:+ part_name part +:+ " version " +:+
                         direction_name (direction_of options) +:+ "..."))
          (log_event (ConsoleInfo ("Current version: " +:+ formatVersion currentVersion))
                     w1) in
      match updatePackageVersion packagePath newVersion w2 with
      | (Ok true, w3) =>
          (Ok tt,
           log_event
             (SpinnerSucceed ("Successfully updated version from " +:+
                              formatVersion currentVersion +:+ " to " +:+
                              formatVersion newVersion)) w3)
      | (Ok false, w3) => (Ok tt, log_event (SpinnerFail "Failed to update version") w3)
      | (Throw e, w3) =>
          (Ok tt, log_event (ConsoleError ("Failed to update version: " +:+ message e)) w3)
      end
  end.
Proof.
  intros Vo. unfold handleUpdateVersionPart.
  rewrite (bind_ok _ _ w w true) by (rewrite validateParams_run, Vo; reflexivity).
  unfold try_catch. unfold bind at 1.
  destruct (resolveVersion options w) as [[[[packagePath currentVersion]|]|e] w1];
    try reflexivity.
  unfold bind at 1, info, emit. unfold bind at 1. unfold bind at 1. cbv zeta.
  now destruct (updatePackageVersion packagePath _ _) as [[[]|e] w3].
Qed.

(** [handleCopyTo] once its parameters are validated. *)
Lemma handleCopyTo_run (targetPath : string) (options : Options) (w : World) :
  targetPath <> EmptyString -> OptionsSchema options = None ->
  handleCopyTo targetPath options w =
  match resolveVersion options w with
  | (Throw e, w1) =>
      (Ok tt, log_event (ConsoleError ("Failed to copy version: " +:+ message e)) w1)
  | (Ok None, w1) => (Ok tt, w1)
  | (Ok (Some (_, version)), w1) =>
      match copyVersion (formatVersion version) (subject_of options) targetPath w1 with
      | (Ok _, w2) => (Ok tt, w2)
      | (Throw e, w2) =>
          (Ok tt, log_event (ConsoleError ("Failed to copy version: " +:+ message e)) w2)
      end
  end.
Proof.
  intros Vp Vo. unfold handleCopyTo.
  rewrite (bind_ok _ _ w w true).
  2: { rewrite validateParams_run, Vo. now destruct targetPath. }
  unfold try_catch. unfold bind at 1.
  destruct (resolveVersion options w) as [[[[packagePath version]|]|e] w1];
    try reflexivity.
  now destruct (copyVersion _ _ _ w1) as [[[]|e] w2].
Qed.

End Resolve.

(** X10: parameters that fail the validation.  An empty target path
    makes [handleCopyTo] print the message of its schema and return;
    options that their schema rejects make both handlers print a
    validation error and return.  Nothing else happens: no file is read
    (the schedule of faults is untouched) and none is written. *)
Theorem invalid_parameters `{Platform}
    (targetPath : string) (part : Part) (options : Options) (w : World) :
  handleCopyTo EmptyString options w =
  (Ok tt, log_event (ConsoleError "Validation error: Path must not be empty") w) /\
  (forall issue : string,
     OptionsSchema options = Some issue ->
     handleUpdateVersionPart part options w =
     (Ok tt, log_event (ConsoleError ("Validation error: " +:+ issue)) w) /\
     (targetPath <> EmptyString ->
      handleCopyTo targetPath options w =
      (Ok tt, log_event (ConsoleError ("Validation error: " +:+ issue)) w))).
Proof.
  split; [reflexivity|]. intros issue Vo. split.
  - unfold handleUpdateVersionPart.
    rewrite (bind_ok _ _ w (log_event (ConsoleError ("Validation error: " +:+ issue)) w) false);
      [reflexivity|].
    now rewrite validateParams_run, Vo.
  - intros Vp. unfold handleCopyTo.
    rewrite (bind_ok _ _ w (log_event (ConsoleError ("Validation error: " +:+ issue)) w) false);
      [reflexivity|].
    rewrite validateParams_run, Vo. now destruct targetPath.
Qed.

(** X11: a manifest that cannot be used.  With valid parameters, both
    handlers print one error and return, without reading or writing any
    file, when no manifest is found (no truthy [package] option and no
    [package.json] in the working directory), when the path of the
    manifest does not exist, and when it is a directory. *)
Theorem unusable_manifest `{Platform}
    (targetPath : string) (part : Part) (options : Options) (w : World) :
  targetPath <> EmptyString -> OptionsSchema options = None ->
  forall msg : string,
    match packagePath_of options w with
    | None => msg = "No package.json found. Please specify with --package option."
    | Some packagePath =>
        match fs w !! packagePath with
        | None => msg = "Path does not exist: " +:+ packagePath
        | Some Directory => msg = "Path is not a file: " +:+ packagePath
        | Some (File _) => False
        end
    end ->
    handleCopyTo targetPath options w = (Ok tt, log_event (ConsoleError msg) w) /\
    handleUpdateVersionPart part options w = (Ok tt, log_event (ConsoleError msg) w).
Proof.
  intros Vp Vo msg Hmsg.
  rewrite (handleCopyTo_run _ _ _ Vp Vo), (handleUpdateVersionPart_run _ _ _ Vo).
  rewrite resolveVersion_run.
  destruct (packagePath_of options w) as [packagePath|]; [|now subst msg].
  rewrite validatePath_file.
  destruct (fs w !! packagePath) as [[content|]|]; [contradiction|now subst msg..].
Qed.

Section Update.
Context `{Platform}.

(** [updatePackageVersion] returns; it writes the manifest, or nothing. *)
Lemma updatePackageVersion_effect
    (packagePath : string) (version : SemanticVersion) (w : World) :
  exists (updated : bool) (w' : World),
    updatePackageVersion packagePath version w = (Ok updated, w') /\
    cwd w' = cwd w /\
    if updated
    then exists text,
           fs w' = <[packagePath := File text]> (fs w) /\
           writes w' = writes w ++ [(packagePath, text)]
    else fs w' = fs w /\ writes w' = writes w.
Proof.
  rewrite updatePackageVersion_run.
  destruct (readFileSync packagePath w) as [[content|e] w1] eqn:R;
    destruct (readFileSync_frame _ _ _ _ R) as ((Rf & Rw & Rc) & _).
  2: { eexists false, _. split; [reflexivity|]. simpl. auto. }
  destruct (JSON_parse content) as [packageJson|].
  2: { eexists false, _. split; [reflexivity|]. simpl. auto. }
  destruct (set_property packageJson "version" _ w1) as [[packageJson'|e] w2] eqn:S;
    destruct (set_version_spec _ _ _ _ _ S) as (-> & _).
  2: { eexists false, _. split; [reflexivity|]. simpl. auto. }
  destruct (writeFileSync packagePath (document packageJson') w1)
    as [[[]|e] w3] eqn:W.
  - destruct (writeFileSync_ok _ _ _ _ _ W) as (Wf & Ww & _ & Wc).
    exists true, w3. split; [reflexivity|]. split; [congruence|].
    exists (document packageJson'). split; congruence.
  - destruct (writeFileSync_throw _ _ _ _ _ W) as ((Wf & Ww & Wc) & _).
    eexists false, _. split; [reflexivity|]. simpl. split_and!; congruence.
Qed.

End Update.

(** X12: [handleUpdateVersionPart] never throws, and the only file it
    can write is the manifest: after any invocation, either the files
    are as they were and nothing was written, or there was exactly one
    write, to the path of the manifest that the options and the working
    directory give. *)
Theorem handleUpdateVersionPart_writes_manifest_only `{Platform}
    (part : Part) (options : Options) (w : World) :
  exists w' : World,
    handleUpdateVersionPart part options w = (Ok tt, w') /\
    cwd w' = cwd w /\
    ((fs w' = fs w /\ writes w' = writes w) \/
     exists packagePath text : string,
       packagePath_of options w = Some packagePath /\
       fs w' = <[packagePath := File text]> (fs w) /\
       writes w' = writes w ++ [(packagePath, text)]).
Proof.
  destruct (OptionsSchema options) as [issue|] eqn:Vo.
  { eexists. split; [|split; [|left]].
    - unfold handleUpdateVersionPart.
      rewrite (bind_ok _ _ w (log_event (ConsoleError ("Validation error: " +:+ issue)) w)
                 false); [reflexivity|].
      now rewrite validateParams_run, Vo.
    - reflexivity.
    - split; reflexivity. }
  rewrite (handleUpdateVersionPart_run _ _ _ Vo).
  destruct (resolveVersion_returns options w) as (o & w1 & -> & (Rf & Rw & Rc) & Hp).
  destruct o as [[packagePath currentVersion]|].
  2: { exists w1. split; [reflexivity|]. split; [exact Rc|]. left. auto. }
  cbv zeta.
  set (w2 := log_event _ (log_event _ w1)).
  destruct (updatePackageVersion_effect packagePath
              (adjustVersionPart currentVersion part (direction_of options)) w2)
    as (updated & w3 & -> & Uc & U).
  destruct updated.
  - destruct U as (text & Uf & Uw). eexists. split; [reflexivity|].
    cbn [cwd fs writes log_event]. split; [now rewrite Uc|]. right.
    exists packagePath, text. split; [now apply (Hp _ currentVersion)|].
    rewrite Uf, Uw. subst w2. cbn [fs writes log_event]. now rewrite Rf, Rw.
  - destruct U as (Uf & Uw). eexists. split; [reflexivity|].
    cbn [cwd fs writes log_event]. split; [now rewrite Uc|]. left.
    rewrite Uf, Uw. subst w2. cbn [fs writes log_event]. auto.
Qed.

(** X13: [handleUpdateVersionPart] on a manifest that holds a version,
    when no read or write fails.  The version is adjusted in the
    direction the options give; the manifest is rewritten, in one write,
    as the object it held with its [version] member set to the text of
    the new version; and the console shows the current version, the
    progress line and the success line with both versions.  Going down
    on a part that is zero rewrites the manifest all the same. *)
Theorem handleUpdateVersionPart_updates `{Platform}
    (part : Part) (options : Options) (w : World) (packagePath : string)
    (members : list (string * json)) (version : SemanticVersion) :
  OptionsSchema options = None -> faults w = [] ->
  packagePath_of options w = Some packagePath ->
  manifest_holds w packagePath members version ->
  let newVersion := adjustVersionPart version part (direction_of options) in
  let text := updated_manifest members (formatVersion newVersion) in
  exists w' : World,
    handleUpdateVersionPart part options w = (Ok tt, w') /\
    fs w' = <[packagePath := File text]> (fs w) /\
    writes w' = writes w ++ [(packagePath, text)] /\
    console w' = console w ++
      [ConsoleInfo ("Current version: " +:+ formatVersion version);
       SpinnerStart ("Updating " +:+ part_name part +:+ " version " +:+
                     direction_name (direction_of options) +:+ "...");
       SpinnerSucceed ("Successfully updated version from " +:+
                       formatVersion version +:+ " to " +:+
                       formatVersion newVersion)].
Proof.
  intros Vo F Hp Hm newVersion text.
  rewrite (handleUpdateVersionPart_run _ _ _ Vo).
  rewrite (resolveVersion_nofault _ _ _ _ _ F Hp Hm). cbv zeta.
  destruct Hm as (content & s & Hc & P & _).
  set (w2 := log_event _ (log_event _ w)).
  rewrite (updatePackageVersion_nofault packagePath content w2 members
             (adjustVersionPart version part (direction_of options)) F Hc P).
  eexists. split; [reflexivity|]. cbn [fs writes console log_event].
  split_and!; try reflexivity.
  subst w2. cbn [console log_event]. now rewrite <- !app_assoc.
Qed.

(** C10: the handler adjusts the version in the direction that is down
    exactly when the [down] flag is truthy, and up otherwise.  That
    direction is the one the handler computes; on a manifest that holds
    a version, when no read or write fails, the version it writes is
    the current one adjusted in that direction, and the progress line
    names that direction.  Down wins when both flags are given, up is
    the default when none is, and the handler never reads the [up]
    flag. *)
Theorem C10_direction_of_options `{Platform}
    (part : Part) (options : Options) (w : World) (packagePath : string)
    (members : list (string * json)) (version : SemanticVersion) :
  OptionsSchema options = None -> faults w = [] ->
  packagePath_of options w = Some packagePath ->
  manifest_holds w packagePath members version ->
  let direction :=
    match down options with
    | Some true => Down
    | _ => Up
    end in
  direction_of options = direction /\
  (exists w' : World,
     handleUpdateVersionPart part options w = (Ok tt, w') /\
     writes w' = writes w ++
       [(packagePath,
         updated_manifest members
           (formatVersion (adjustVersionPart version part direction)))] /\
     console w' = console w ++
       [ConsoleInfo ("Current version: " +:+ formatVersion version);
        SpinnerStart ("Updating " +:+ part_name part +:+ " version " +:+
                      direction_name direction +:+ "...");
        SpinnerSucceed ("Successfully updated version from " +:+
                        formatVersion version +:+ " to " +:+
                        formatVersion (adjustVersionPart version part direction))]) /\
  (up options = Some true -> down options = Some true -> direction = Down) /\
  (up options = None -> down options = None -> direction = Up) /\
  (forall flag : option bool,
     handleUpdateVersionPart part
       (mkOptions (package options) (type_ options) (Commands.subject options)
                  flag (down options)) w
     = handleUpdateVersionPart part options w).
Proof.
  intros Vo F Hp Hm direction.
  assert (Hd : direction_of options = direction).
  { unfold direction_of, direction. now destruct (down options) as [[|]|]. }
  split; [exact Hd|]. split; [|split; [|split]].
  - rewrite (handleUpdateVersionPart_run _ _ _ Vo).
    rewrite (resolveVersion_nofault _ _ _ _ _ F Hp Hm). cbv zeta. rewrite Hd.
    destruct Hm as (content & s & Hc & P & _).
    set (w2 := log_event _ (log_event _ w)).
    rewrite (updatePackageVersion_nofault packagePath content w2 members
               (adjustVersionPart version part direction) F Hc P).
    eexists. split; [reflexivity|]. cbn [fs writes console log_event].
    split; [reflexivity|].
    subst w2. cbn [console log_event]. now rewrite <- !app_assoc.
  - unfold direction. now intros _ ->.
  - unfold direction. now intros _ ->.
  - intros flag. now destruct options.
Qed.

End HandlerLaws.
(* ================================================================== *)
(** ** Further laws of the substitution engine *)
(* ================================================================== *)

Module EngineLaws.
Import Js Node Version Commands RuntimeFacts VersionFacts ReplaceFacts EngineFacts.
Import ManifestFacts IdempotenceFacts VersionLaws ManifestLaws HandlerLaws.

Lemma subject_of_nonempty (options : Options) : subject_of options <> EmptyString.
Proof. unfold subject_of. destruct (subject options) as [[|c s]|]; discriminate. Qed.

Section Copy.
Context `{Platform}.

(** [handleCopyTo] on a manifest that holds a version, when nothing
    fails, the target names a file or a directory and every path read
    names a file: the engine runs on the text of that version. *)
Lemma handleCopyTo_nofault
    (targetPath : string) (options : Options) (w : World) (packagePath : string)
    (members : list (string * json)) (version : SemanticVersion) :
  targetPath <> EmptyString -> OptionsSchema options = None ->
  faults w = [] ->
  packagePath_of options w = Some packagePath ->
  manifest_holds w packagePath members version ->
  plain (subject_of options) = true -> no_dollar (formatVersion version) = true ->
  is_Some (fs w !! targetPath) -> readable targetPath w ->
  exists (w' : World) (new : list (string * string)),
    handleCopyTo targetPath options w = (Ok tt, w') /\
    writes w' = writes w ++ new /\
    List.length new <= List.length (candidates (subject_of options) targetPath w) /\
    console w' = console w ++
      progress (List.length (candidates (subject_of options) targetPath w)) ++
      [summary (subject_of options) (formatVersion version) (List.length new)
         (List.length (candidates (subject_of options) targetPath w))] /\
    (forall first rest,
       candidates (subject_of options) targetPath w = first :: rest ->
       exists content more,
         fs w !! first = Some (File content) /\
         new = (first, spec_replace_all (subject_of options) (formatVersion version)
                         content) :: more).
Proof.
  intros Vp Vo F Hp Hm Hplain Hdollar Ht Hr.
  rewrite (handleCopyTo_run _ _ _ Vp Vo).
  rewrite (resolveVersion_nofault _ _ _ _ _ F Hp Hm).
  destruct (copyVersion_nofault (subject_of options) (formatVersion version)
              targetPath w Hplain Hdollar Ht F Hr)
    as (w' & new & -> & Hw & _ & _ & _ & Hl & Ho & Hfirst).
  exists w', new. split; [reflexivity|]. split; [exact Hw|]. split; [exact Hl|].
  split; [exact Ho|].
  apply Hfirst; [apply subject_of_nonempty | now apply formatVersion_not_plain].
Qed.

End Copy.

(** X14: where [handleCopyTo] may write.  It never throws; and when the
    target names a file or a directory, then, whatever fails, every
    write of the invocation goes to a path the engine read for the
    target (the target itself, or the target joined with a relative
    path that [glob] listed) whose file held the placeholder, as a
    literal text, when the invocation started.  So no file is created,
    and the manifest is only read unless it is such a path. *)
Theorem handleCopyTo_writes_in_scope `{Platform}
    (targetPath : string) (options : Options) (w : World) :
  exists (w' : World) (new : list (string * string)),
    handleCopyTo targetPath options w = (Ok tt, w') /\
    writes w' = writes w ++ new /\
    (is_Some (fs w !! targetPath) ->
     Forall (fun entry =>
               fst entry ∈ scanned targetPath w /\
               holds_placeholder (subject_of options) (fs w) (fst entry) = true) new).
Proof.
  assert (Hnothing : forall (e : event),
             exists (w' : World) (new : list (string * string)),
               (Ok tt, log_event e w) = (Ok tt, w') /\
               writes w' = writes w ++ new /\
               (is_Some (fs w !! targetPath) ->
                Forall (fun entry =>
                          fst entry ∈ scanned targetPath w /\
                          holds_placeholder (subject_of options) (fs w) (fst entry)
                          = true) new)).
  { intros e. exists (log_event e w), []. cbn [writes fs log_event].
    rewrite app_nil_r. auto. }
  destruct targetPath as [|c t] eqn:Vp; [apply Hnothing|]. rewrite <- Vp in *.
  assert (Vp' : targetPath <> EmptyString) by (rewrite Vp; discriminate).
  destruct (OptionsSchema options) as [issue|] eqn:Vo.
  { unfold handleCopyTo.
    rewrite (bind_ok _ _ w (log_event (ConsoleError ("Validation error: " +:+ issue)) w)
               false); [apply Hnothing|].
    rewrite validateParams_run, Vo. now rewrite Vp. }
  rewrite (handleCopyTo_run _ _ _ Vp' Vo).
  destruct (resolveVersion_returns options w) as (o & w1 & -> & (Rf & Rw & Rc) & _).
  destruct o as [[packagePath version]|].
  2: { exists w1, []. rewrite app_nil_r. auto. }
  destruct (copyVersion (formatVersion version) (subject_of options) targetPath w1)
    as [r w2] eqn:C.
  destruct (copyVersion_scope _ _ _ _ _ _ C) as (new & Cw & Cs).
  assert (Hsc : scanned targetPath w1 = scanned targetPath w)
    by (unfold scanned; now rewrite <- Rf, <- Rc).
  rewrite Hsc, <- Rf, <- Rw in *.
  destruct r as [[]|e]; eexists _, new; (split; [reflexivity|]);
    cbn [writes fs log_event]; auto.
Qed.

(** X15: [handleCopyTo] on a single file, when nothing fails.  Let the
    parameters be valid, the manifest hold a version, the placeholder
    have no pattern syntax character and the text of the version no
    dollar sign, and let the target name a file.  When the file holds
    the placeholder, the invocation makes exactly one write, to the
    target: its text with each occurrence of the placeholder, taken from
    left to right without overlap, replaced by the text of the version;
    and it reports one file of one.  When the file does not hold the
    placeholder, nothing is written and the report says so. *)
Theorem handleCopyTo_rewrites_file `{Platform}
    (targetPath content : string) (options : Options) (w : World)
    (packagePath : string) (members : list (string * json))
    (version : SemanticVersion) :
  targetPath <> EmptyString -> OptionsSchema options = None ->
  faults w = [] ->
  packagePath_of options w = Some packagePath ->
  manifest_holds w packagePath members version ->
  plain (subject_of options) = true -> no_dollar (formatVersion version) = true ->
  fs w !! targetPath = Some (File content) ->
  exists w' : World,
    handleCopyTo targetPath options w = (Ok tt, w') /\
    if includes content (subject_of options)
    then
      writes w' = writes w ++
        [(targetPath,
          spec_replace_all (subject_of options) (formatVersion version) content)] /\
      fs w' !! targetPath =
        Some (File (spec_replace_all (subject_of options) (formatVersion version)
                      content)) /\
      console w' = console w ++ progress 1 ++
        [summary (subject_of options) (formatVersion version) 1 1]
    else
      writes w' = writes w /\ fs w' !! targetPath = Some (File content) /\
      console w' = console w ++ progress 0 ++
        [summary (subject_of options) (formatVersion version) 0 0].
Proof.
  intros Vp Vo F Hp Hm Hplain Hdollar Ht.
  rewrite (handleCopyTo_run _ _ _ Vp Vo).
  rewrite (resolveVersion_nofault _ _ _ _ _ F Hp Hm).
  assert (Hsc : scanned targetPath w = [targetPath])
    by (unfold scanned; now rewrite Ht).
  assert (Hr : readable targetPath w).
  { intros path Hin. rewrite Hsc in Hin. apply list_elem_of_singleton in Hin.
    subst path. now exists content. }
  destruct (copyVersion_nofault (subject_of options) (formatVersion version)
              targetPath w Hplain Hdollar (mk_is_Some _ _ Ht) F Hr)
    as (w' & new & -> & Hw & Hf & _ & _ & Hl & Ho & Hfirst).
  exists w'. split; [reflexivity|].
  assert (Hc : candidates (subject_of options) targetPath w =
               if includes content (subject_of options) then [targetPath] else []).
  { unfold candidates. rewrite Hsc. simpl.
    now rewrite (holds_placeholder_file _ _ _ _ Ht). }
  rewrite Hc in Hl, Ho, Hfirst.
  destruct (includes content (subject_of options)).
  - destruct (Hfirst (subject_of_nonempty options)
                (formatVersion_not_plain version _ Hplain) targetPath [] eq_refl)
      as (content0 & more & Hc0 & ->).
    rewrite Ht in Hc0. injection Hc0 as <-.
    destruct more as [|x more]; [|simpl in Hl; lia].
    split; [exact Hw|]. split; [|exact Ho].
    rewrite Hf. cbn. apply lookup_insert_eq.
  - destruct new as [|x new]; [|simpl in Hl; lia].
    rewrite app_nil_r in Hw. split; [exact Hw|]. split; [|exact Ho].
    rewrite Hf. exact Ht.
Qed.

(** X16: the report of an invocation of [handleCopyTo] in which nothing
    fails, under the same conditions, on a target that names a file or
    a directory in which every path read names a file.  The engine
    keeps the paths it read whose files hold the placeholder, in the
    order it read them; it writes at most one file for each of them,
    and the first of them for certain, with its replaced text; and the
    console shows the progress lines with the number [n] of kept paths
    and then, with [m] the number of writes, ["Updated m of n files
    with version <version>"], or that no file holds the placeholder
    when there is none. *)
Theorem handleCopyTo_reports_candidates `{Platform}
    (targetPath : string) (options : Options) (w : World) (packagePath : string)
    (members : list (string * json)) (version : SemanticVersion) :
  targetPath <> EmptyString -> OptionsSchema options = None ->
  faults w = [] ->
  packagePath_of options w = Some packagePath ->
  manifest_holds w packagePath members version ->
  plain (subject_of options) = true -> no_dollar (formatVersion version) = true ->
  is_Some (fs w !! targetPath) -> readable targetPath w ->
  exists (w' : World) (new : list (string * string)),
    handleCopyTo targetPath options w = (Ok tt, w') /\
    writes w' = writes w ++ new /\
    List.length new <= List.length (candidates (subject_of options) targetPath w) /\
    console w' = console w ++
      progress (List.length (candidates (subject_of options) targetPath w)) ++
      [summary (subject_of options) (formatVersion version) (List.length new)
         (List.length (candidates (subject_of options) targetPath w))] /\
    (forall first rest,
       candidates (subject_of options) targetPath w = first :: rest ->
       exists content more,
         fs w !! first = Some (File content) /\
         includes content (subject_of options) = true /\
         new = (first, spec_replace_all (subject_of options) (formatVersion version)
                         content) :: more).
Proof.
  intros Vp Vo F Hp Hm Hplain Hdollar Ht Hr.
  destruct (handleCopyTo_nofault targetPath options w packagePath members version
              Vp Vo F Hp Hm Hplain Hdollar Ht Hr)
    as (w' & new & E & Hw & Hl & Ho & Hfirst).
  exists w', new. split; [exact E|]. split; [exact Hw|]. split; [exact Hl|].
  split; [exact Ho|].
  intros first rest Hc. destruct (Hfirst first rest Hc) as (content & more & Hf & Hn).
  exists content, more. split; [exact Hf|]. split; [|exact Hn].
  destruct (candidates_hold (subject_of options) targetPath first w) as (_ & Hh).
  - rewrite Hc. left.
  - now rewrite (holds_placeholder_file _ _ _ _ Hf) in Hh.
Qed.

End EngineLaws.
(* ================================================================== *)
(** ** Laws of the size of a file *)
(* ================================================================== *)

Module FileSizeLaws.
Import Js Utils Version NumberFacts VersionFacts ReplaceFacts.

(** *** Decimal numerals *)

(** A hundred times a positive integer is written with two more zeros. *)
Lemma decimal_hundredfold (z : Z) :
  (0 < z)%Z -> decimal (z * 100) = decimal z +:+ "00".
Proof. intros Hz. exact (decimal_shift z 2 Hz). Qed.

(** *** Substrings *)

Lemma substring_prefix (a b : string) :
  substring 0 (String.length a) (a +:+ b) = a.
Proof.
  induction a as [|c a IH]; cbn [String.length String.append substring].
  - now destruct b.
  - now rewrite IH.
Qed.

Lemma substring_all (b : string) : substring 0 (String.length b) b = b.
Proof. induction b as [|c b IH]; cbn [String.length substring]; congruence. Qed.

Lemma substring_suffix (a b : string) :
  substring (String.length a) (String.length b) (a +:+ b) = b.
Proof.
  induction a as [|c a IH]; cbn [String.length String.append substring].
  - apply substring_all.
  - exact IH.
Qed.

(** *** [toFixed] *)

Lemma toFixed_comp (x y : Q) (fractionDigits : nat) :
  Qeq x y -> toFixed x fractionDigits = toFixed y fractionDigits.
Proof.
  intros E. unfold toFixed. cbv zeta.
  rewrite (Qleb_comp 0%Q 0%Q (Qeq_refl 0%Q) x y E).
  assert (F : Qfloor (Qabs x * inject_Z (10 ^ Z.of_nat fractionDigits) + (1 # 2))
              = Qfloor (Qabs y * inject_Z (10 ^ Z.of_nat fractionDigits) + (1 # 2)))
    by (apply Qfloor_comp; now rewrite E).
  now rewrite F.
Qed.

Lemma Qfloor_hundredths (m : Z) :
  (0 <= m)%Z ->
  Qfloor (Qabs (inject_Z m) * inject_Z (10 ^ Z.of_nat 2) + (1 # 2)) = (m * 100)%Z.
Proof.
  intros Hm. unfold Qabs, inject_Z, Qmult, Qplus, Qfloor. cbn [Qnum Qden].
  rewrite Z.abs_eq by exact Hm.
  change (10 ^ Z.of_nat 2)%Z with 100%Z.
  change (Z.pos (1 * 1 * 2)) with 2%Z. change (Z.pos (1 * 1)) with 1%Z.
  symmetry. apply (Z.div_unique _ _ _ 1); lia.
Qed.

(** An integer that is not negative, to two digits. *)
Lemma toFixed_integer (m : Z) :
  (0 <= m)%Z -> toFixed (inject_Z m) 2 = decimal m +:+ ".00".
Proof.
  intros Hm. unfold toFixed. cbv zeta.
  assert (P : Qle_bool 0%Q (inject_Z m) = true).
  { apply Qle_bool_iff. change 0%Q with (inject_Z 0). now rewrite <- Zle_Qle. }
  rewrite P, (Qfloor_hundredths m Hm).
  destruct (Z.eq_dec m 0%Z) as [-> | Hz]; [reflexivity|].
  rewrite decimal_hundredfold by lia.
  pose proof (decimal_nonempty m) as Hne.
  assert (L : String.length (decimal m +:+ "00")
              = String.length (decimal m) + 2) by apply length_append.
  rewrite L.
  destruct (Nat.leb_spec (String.length (decimal m) + 2) 2) as [Hle | Hgt].
  { destruct (decimal m); [congruence | simpl in Hle; lia]. }
  rewrite L. replace (String.length (decimal m) + 2 - 2)
    with (String.length (decimal m)) by lia.
  rewrite substring_prefix.
  change 2 with (String.length "00") at 1. rewrite substring_suffix.
  cbn [String.append]. f_equal.
Qed.

(** *** The loop *)

(** The loop ends where its condition is false. *)
Lemma scale_stop (turns : nat) (x : Q) (unitIndex : nat) :
  Qle_bool 1024%Q x && (unitIndex <? List.length units - 1)%nat = false ->
  scale turns x unitIndex = (x, unitIndex).
Proof. intros E. destruct turns; [reflexivity|]. cbn [scale]. now rewrite E. Qed.

Lemma power_positive (k : nat) : (0 < 1024 ^ Z.of_nat k)%Z.
Proof. apply Z.pow_pos_nonneg; lia. Qed.

Lemma power_succ (k : nat) : (1024 ^ Z.of_nat (S k) = 1024 ^ Z.of_nat k * 1024)%Z.
Proof. rewrite Nat2Z.inj_succ, Z.pow_succ_r; lia. Qed.

Lemma power_nonzero (k : nat) : ~ Qeq (inject_Z (1024 ^ Z.of_nat k)) 0%Q.
Proof.
  change 0%Q with (inject_Z 0). rewrite inject_Z_injective.
  pose proof (power_positive k). lia.
Qed.

(** The loop makes [k] turns on a size that is at least 1024 to the
    [k], while there are larger units. *)
Lemma scale_turns (k : nat) :
  forall (turns : nat) (x : Q) (unitIndex : nat),
    Qle (inject_Z (1024 ^ Z.of_nat k)) x ->
    unitIndex + k <= List.length units - 1 ->
    exists y : Q,
      scale (k + turns) x unitIndex = scale turns y (unitIndex + k) /\
      Qeq y (x / inject_Z (1024 ^ Z.of_nat k)).
Proof.
  induction k as [|k IH]; intros turns x unitIndex Hx Hk.
  - exists x. rewrite Nat.add_0_r. split; [reflexivity|].
    change (inject_Z (1024 ^ Z.of_nat 0)) with 1%Q. field.
  - rewrite power_succ, inject_Z_mult in Hx. change (inject_Z 1024) with 1024%Q in Hx.
    pose proof (power_positive k) as Hpos.
    assert (Hq : Qlt 0%Q (inject_Z (1024 ^ Z.of_nat k)))
      by (change 0%Q with (inject_Z 0); now rewrite <- Zlt_Qlt).
    assert (H1 : Qle 1024%Q x).
    { eapply Qle_trans; [|exact Hx].
      rewrite <- (Qmult_1_l 1024%Q) at 1. apply Qmult_le_compat_r; [|discriminate].
      change 1%Q with (inject_Z 1). rewrite <- Zle_Qle. lia. }
    assert (H2 : Qle (inject_Z (1024 ^ Z.of_nat k)) (x / 1024%Q)).
    { apply Qle_shift_div_l; [reflexivity | exact Hx]. }
    destruct (IH turns (x / 1024%Q)%Q (S unitIndex) H2 ltac:(lia)) as (y & E & Hy).
    exists y. split.
    + cbn [Nat.add scale]. apply Qle_bool_iff in H1. rewrite H1.
      destruct (Nat.ltb_spec unitIndex (List.length units - 1)) as [_ | Hn]; [|lia].
      cbn [andb]. rewrite E. f_equal. lia.
    + rewrite Hy, power_succ, inject_Z_mult. change (inject_Z 1024) with 1024%Q.
      field. apply power_nonzero.
Qed.

(** [formatFileSize] on a size between two powers of 1024. *)
Lemma formatFileSize_between (size : Z) (k : nat) :
  k <= 4 ->
  k = 0 \/ (1024 ^ Z.of_nat k <= size)%Z ->
  k = 4 \/ (size < 1024 ^ Z.of_nat (S k))%Z ->
  formatFileSize size =
  toFixed (inject_Z size / inject_Z (1024 ^ Z.of_nat k)) 2 +:+ " " +:+
  nth k units EmptyString.
Proof.
  intros Hk Hlow Hhigh. unfold formatFileSize.
  assert (Hy : exists y : Q,
             scale (List.length units) (inject_Z size) 0 = (y, k) /\
             Qeq y (inject_Z size / inject_Z (1024 ^ Z.of_nat k))).
  { destruct Hlow as [-> | Hlow].
    - exists (inject_Z size). split.
      + destruct Hhigh as [Hhigh | Hhigh]; [discriminate Hhigh|].
        cbn [units List.length scale].
        assert (B : Qle_bool 1024%Q (inject_Z size) = false).
        { destruct (Qle_bool 1024%Q (inject_Z size)) eqn:B; [|reflexivity].
          apply Qle_bool_iff in B. change 1024%Q with (inject_Z 1024) in B.
          rewrite <- Zle_Qle in B. change (1024 ^ Z.of_nat 1)%Z with 1024%Z in Hhigh.
          lia. }
        now rewrite B.
      + change (inject_Z (1024 ^ Z.of_nat 0)) with 1%Q. field.
    - destruct (scale_turns k (List.length units - k) (inject_Z size) 0) as (y & E & Hy).
      + now rewrite <- Zle_Qle.
      + cbn [units List.length]. lia.
      + exists y. split; [|exact Hy].
        replace (List.length units) with (k + (List.length units - k))
          by (cbn [units List.length]; lia).
        rewrite E. cbn [Nat.add]. apply scale_stop.
        destruct Hhigh as [-> | Hhigh]; [apply andb_false_r|].
        apply andb_false_iff. left.
        destruct (Qle_bool 1024%Q y) eqn:B; [|reflexivity].
        apply Qle_bool_iff in B. rewrite Hy in B.
        pose proof (power_positive k) as Hpos.
        apply (Qmult_le_r _ _ (inject_Z (1024 ^ Z.of_nat k))) in B;
          [|change 0%Q with (inject_Z 0); now rewrite <- Zlt_Qlt].
        assert (Hs : Qeq (inject_Z size / inject_Z (1024 ^ Z.of_nat k) *
                          inject_Z (1024 ^ Z.of_nat k)) (inject_Z size))
          by (field; apply power_nonzero).
        rewrite Hs in B.
        change 1024%Q with (inject_Z 1024) in B.
        rewrite <- inject_Z_mult, <- Zle_Qle in B.
        rewrite power_succ in Hhigh. lia. }
  destruct Hy as (y & -> & Hy). rewrite (toFixed_comp _ _ 2 Hy).
  f_equal. f_equal. apply nth_indep. cbn [units List.length]. lia.
Qed.

(** X17: the unit and the number [formatFileSize] shows, for a size
    below 10^21 in magnitude.  The unit is the largest one that the size
    reaches: [B] below 1024, the [k]-th unit from 1024 to the [k] up to
    the next power, and [TB] from 1024 to the fourth on, where the loop
    runs out of units.  The number is the size divided by 1024 to the
    [k], written to two decimals. *)
Theorem formatFileSize_unit (size : Z) (k : nat) :
  k <= 4 ->
  k = 0 \/ (1024 ^ Z.of_nat k <= size)%Z ->
  k = 4 \/ (size < 1024 ^ Z.of_nat (S k))%Z ->
  (Z.abs size < 10 ^ 21)%Z ->
  formatFileSize size =
  toFixed (inject_Z size / inject_Z (1024 ^ Z.of_nat k)) 2 +:+ " " +:+
  nth k units EmptyString.
Proof. intros Hk Hlow Hhigh _. now apply formatFileSize_between. Qed.

(** X18: a whole number of units is shown as it is, for a size below
    10^21.  For [m] from 1 to 1023 and any of the units, and for any [m]
    of at least 1 with [TB] as long as [m] times 1024 to the fourth is
    below 10^21, the size of [m] such units is written as the numeral of
    [m] and [".00"], and the unit; so is a size [m] below 1024 in bytes,
    zero included. *)
Theorem formatFileSize_whole (m : Z) (k : nat) :
  k <= 4 ->
  (0 <= m)%Z -> k = 0 \/ (1 <= m)%Z -> k = 4 \/ (m < 1024)%Z ->
  (m * 1024 ^ Z.of_nat k < 10 ^ 21)%Z ->
  formatFileSize (m * 1024 ^ Z.of_nat k) =
  Number_toString m +:+ ".00 " +:+ nth k units EmptyString.
Proof.
  intros Hk Hm Hlow Hhigh Hb. pose proof (power_positive k) as Hpos.
  assert (Hs : Number_toString m = decimal m).
  { apply Number_toString_safe. split; [exact Hm|].
    destruct Hhigh as [-> | Hhigh].
    - assert (E : (2 ^ 53 * 1024 ^ Z.of_nat 4 >= 10 ^ 21)%Z) by (vm_compute; discriminate).
      nia.
    - assert (1024 < 2 ^ 53)%Z by reflexivity. lia. }
  rewrite Hs.
  rewrite (formatFileSize_between _ k Hk).
  - rewrite (toFixed_comp _ (inject_Z m) 2).
    + rewrite (toFixed_integer m Hm). now rewrite !append_assoc.
    + rewrite inject_Z_mult. field. apply power_nonzero.
  - destruct Hlow as [-> | Hlow]; [now left | right]. nia.
  - destruct Hhigh as [-> | Hhigh]; [now left | right].
    rewrite power_succ. nia.
Qed.

End FileSizeLaws.

(* ================================================================== *)
(** ** The last line of an invocation *)
(* ================================================================== *)

Module StatusLaws.
Import Js Node Version Commands RuntimeFacts VersionFacts EngineFacts ManifestFacts.
Import ManifestLaws HandlerLaws.

Lemma log_ends_with_status (e : event) (w : World) :
  final_status e = true -> ends_with_status (log_event e w).
Proof. intros He. exists e. cbn [console log_event]. now rewrite last_snoc. Qed.

Section Status.
Context `{Platform}.

Lemma readPackageVersion_reports (packagePath : string) (w : World) :
  exists (r : option SemanticVersion) (w' : World),
    readPackageVersion packagePath w = (Ok r, w') /\
    (r = None -> ends_with_status w').
Proof.
  rewrite readPackageVersion_run.
  destruct (readFileSync packagePath w) as [[content|e] w1].
  2: { eexists _, _. split; [reflexivity|]. intros _. now apply log_ends_with_status. }
  destruct (JSON_parse content) as [packageJson|].
  2: { eexists _, _. split; [reflexivity|]. intros _. now apply log_ends_with_status. }
  destruct (get_property packageJson "version" w1) as [[field|e] w2].
  2: { eexists _, _. split; [reflexivity|]. intros _. now apply log_ends_with_status. }
  destruct field as [[| | |[|c s]| |]|];
    try (eexists _, _; split; [reflexivity|]; intros _; now apply log_ends_with_status).
  destruct (parseVersion (String c s)).
  - eexists _, _. split; [reflexivity|]. discriminate.
  - eexists _, _. split; [reflexivity|]. intros _. now apply log_ends_with_status.
Qed.

Lemma resolveVersion_reports (options : Options) (w : World) :
  exists (o : option (string * SemanticVersion)) (w' : World),
    resolveVersion options w = (Ok o, w') /\
    (o = None -> ends_with_status w').
Proof.
  rewrite resolveVersion_run.
  destruct (packagePath_of options w) as [packagePath|].
  2: { eexists _, _. split; [reflexivity|]. intros _. now apply log_ends_with_status. }
  rewrite validatePath_file.
  destruct (fs w !! packagePath) as [[content|]|];
    try (eexists _, _; split; [reflexivity|]; intros _; now apply log_ends_with_status).
  destruct (readPackageVersion_reports packagePath w) as (r & w' & -> & Hr).
  destruct r as [version|]; eexists _, _; (split; [reflexivity|]);
    [discriminate | intros _; now apply Hr].
Qed.

(** The engine tells its outcome, unless it throws. *)
Lemma copyVersion_reports
    (versionString subject targetPath : string) (w w' : World) :
  copyVersion versionString subject targetPath w = (Ok tt, w') ->
  ends_with_status w'.
Proof.
  rewrite copyVersion_run.
  set (w0 := log_event (SpinnerStart "Finding files to update...") w).
  destruct (findFilesToUpdate subject targetPath w0) as [[[kept|]|e] w1] eqn:E;
    destruct (findFilesToUpdate_frame _ _ _ _ _ E) as (_ & Eo).
  - cbv zeta. destruct kept as [|filePath rest].
    + intros [= <-]. now apply log_ends_with_status.
    + destruct (rewriteFiles subject versionString (filePath :: rest) 0 _)
        as [[n|e] w3]; [|discriminate].
      intros [= <-]. now apply log_ends_with_status.
  - destruct Eo as (text & Eo). intros [= <-].
    exists (SpinnerFail text). rewrite Eo, last_snoc. auto.
  - discriminate.
Qed.

End Status.

(** X19: no invocation of a handler ends in silence.  Whatever the
    parameters and the files are, and whatever fails, each handler
    returns without a throw, and the last entry it leaves on the
    console tells the outcome: an error, or the line that ends the
    progress indicator (its success, its failure or its notice). *)
Theorem handlers_end_with_status `{Platform}
    (targetPath : string) (part : Part) (options : Options) (w : World) :
  (exists w' : World,
     handleCopyTo targetPath options w = (Ok tt, w') /\ ends_with_status w') /\
  (exists w' : World,
     handleUpdateVersionPart part options w = (Ok tt, w') /\ ends_with_status w').
Proof.
  split.
  - destruct targetPath as [|c t] eqn:Vp.
    { eexists. split; [reflexivity|]. now apply log_ends_with_status. }
    rewrite <- Vp in *.
    assert (Vp' : targetPath <> EmptyString) by (rewrite Vp; discriminate).
    destruct (OptionsSchema options) as [issue|] eqn:Vo.
    { eexists. split; [|now apply (log_ends_with_status
                                     (ConsoleError ("Validation error: " +:+ issue)))].
      unfold handleCopyTo.
      rewrite (bind_ok _ _ w (log_event (ConsoleError ("Validation error: " +:+ issue)) w)
                 false); [reflexivity|].
      rewrite validateParams_run, Vo. now rewrite Vp. }
    rewrite (handleCopyTo_run _ _ _ Vp' Vo).
    destruct (resolveVersion_reports options w) as (o & w1 & -> & Ho).
    destruct o as [[packagePath version]|]; [|exists w1; auto].
    destruct (copyVersion (formatVersion version) (subject_of options) targetPath w1)
      as [[[]|e] w2] eqn:C.
    + exists w2. split; [reflexivity|]. now apply copyVersion_reports in C.
    + eexists. split; [reflexivity|]. now apply log_ends_with_status.
  - destruct (OptionsSchema options) as [issue|] eqn:Vo.
    { eexists. split; [|now apply (log_ends_with_status
                                     (ConsoleError ("Validation error: " +:+ issue)))].
      unfold handleUpdateVersionPart.
      rewrite (bind_ok _ _ w (log_event (ConsoleError ("Validation error: " +:+ issue)) w)
                 false); [reflexivity|].
      now rewrite validateParams_run, Vo. }
    rewrite (handleUpdateVersionPart_run _ _ _ Vo).
    destruct (resolveVersion_reports options w) as (o & w1 & -> & Ho).
    destruct o as [[packagePath currentVersion]|]; [|exists w1; auto].
    cbv zeta.
    destruct (updatePackageVersion packagePath _ _) as [[[]|e] w3];
      eexists; (split; [reflexivity|]); now apply log_ends_with_status.
Qed.

End StatusLaws.

(* ================================================================== *)
(** ** The two handlers, one after the other *)
(* ================================================================== *)

Module WorkflowLaws.
Import Js Node Version Commands RuntimeFacts NumberFacts VersionFacts EngineFacts.
Import ManifestFacts IdempotenceFacts VersionLaws ManifestLaws HandlerLaws EngineLaws.

Section Workflow.
Context `{Platform}.

(** The path of the manifest is the same once the manifest is
    rewritten. *)
Lemma packagePath_of_insert
    (options : Options) (w w' : World) (packagePath : string) (n : node) :
  packagePath_of options w = Some packagePath ->
  fs w' = <[packagePath := n]> (fs w) -> cwd w' = cwd w ->
  packagePath_of options w' = Some packagePath.
Proof.
  unfold packagePath_of. intros Hp Hf Hc.
  destruct (truthy_string (package options)); [exact Hp|].
  rewrite Hc, Hf. cbv zeta in *.
  destruct (fs w !! path_join (cwd w) "package.json") eqn:E; [|discriminate].
  injection Hp as <-. now rewrite lookup_insert_eq.
Qed.

End Workflow.

(** The result of a sum or a difference of numbers is a number, unless
    it is out of their range. *)
Lemma to_Number_is_Number (z : Z) :
  (0 <= z)%Z -> (to_Number z < 2 ^ 1024)%Z -> is_Number (to_Number z).
Proof.
  intros Hz Hlt. rewrite to_Number_nonneg in * by exact Hz.
  pose proof (round_nonneg z Hz) as H0. split.
  - rewrite to_Number_nonneg by exact H0. now apply round_idempotent.
  - now rewrite Z.abs_eq.
Qed.

Lemma below_1e21 (z : Z) : (z < 10 ^ 21)%Z -> (z < 2 ^ 1024)%Z.
Proof.
  intros Hz. assert (10 ^ 21 < 2 ^ 70)%Z by reflexivity.
  assert (2 ^ 70 < 2 ^ 1024)%Z by (apply Z.pow_lt_mono_r; lia). lia.
Qed.

(** An adjustment of a valid version whose parts are numbers gives a
    version whose parts are numbers; they are printed in positional
    notation when they are below 10^21. *)
Lemma adjustVersionPart_printable
    (v : SemanticVersion) (part : Part) (direction : Direction) :
  valid v ->
  is_Number (major v) -> is_Number (minor v) -> is_Number (patch v) ->
  (forall p : Part, (get_part p (adjustVersionPart v part direction) < 10 ^ 21)%Z) ->
  printable (adjustVersionPart v part direction).
Proof.
  intros Hv Na Nb Nc Hlt.
  pose proof (adjustVersionPart_valid v part direction Hv) as (Va & Vb & Vc & _).
  pose proof (Hlt Major) as La. pose proof (Hlt Minor) as Lb.
  pose proof (Hlt Patch) as Lc. cbn [get_part] in La, Lb, Lc.
  assert (N0 : is_Number 0) by (apply is_Number_small; lia).
  assert (Hnum : is_Number (major (adjustVersionPart v part direction)) /\
                 is_Number (minor (adjustVersionPart v part direction)) /\
                 is_Number (patch (adjustVersionPart v part direction))).
  { destruct Hv as (Ha & Hb & Hc & _). destruct v as [a b c bd].
    cbn [major minor patch] in *. unfold adjustVersionPart in *.
    destruct direction.
    - destruct part; cbn [get_part set_part major minor patch build] in *;
        split_and!; try assumption;
        apply to_Number_is_Number; try lia; now apply below_1e21.
    - destruct (Z.ltb_spec 0 (get_part part (mkVersion a b c bd))) as [Hq | Hq];
        [|cbn [major minor patch]; auto].
      destruct part; cbn [get_part set_part major minor patch build] in *;
        split_and!; try assumption;
        apply to_Number_is_Number; try lia; now apply below_1e21. }
  destruct Hnum as (Ma & Mb & Mc).
  unfold printable, positional. rewrite !Z.abs_eq by assumption. tauto.
Qed.

(** X20: raising or lowering a part, and then copying the version.
    Let the parameters be valid, the manifest hold a version, nothing
    fail, and [JSON.parse] read the rewritten manifest as the value it
    was printed from; let the parts of the adjusted version be below
    10^21, the placeholder have no pattern syntax character and the
    text of the adjusted version no dollar sign; and let the target,
    after the first handler, name a file or a directory in which every
    path read names a file.  Then [handleUpdateVersionPart] followed by
    [handleCopyTo] works with the adjusted version, and not the former
    one: the first of the kept paths is rewritten with its occurrences
    of the placeholder replaced by the text of the adjusted version,
    and the report names that version. *)
Theorem adjust_then_copy `{Platform}
    (part : Part) (targetPath : string) (options : Options) (w : World)
    (packagePath : string) (members : list (string * json))
    (version : SemanticVersion) :
  targetPath <> EmptyString -> OptionsSchema options = None ->
  faults w = [] ->
  packagePath_of options w = Some packagePath ->
  manifest_holds w packagePath members version ->
  let newVersion := adjustVersionPart version part (direction_of options) in
  let members' := assign_member "version" (JString (formatVersion newVersion)) members in
  let w1 := snd (handleUpdateVersionPart part options w) in
  (forall p : Part, (get_part p newVersion < 10 ^ 21)%Z) ->
  JSON_parse (document (JObject members')) = Some (JObject members') ->
  plain (subject_of options) = true -> no_dollar (formatVersion newVersion) = true ->
  is_Some (fs w1 !! targetPath) -> readable targetPath w1 ->
  exists (w2 : World) (new : list (string * string)),
    handleUpdateVersionPart part options w = (Ok tt, w1) /\
    handleCopyTo targetPath options w1 = (Ok tt, w2) /\
    writes w2 = writes w1 ++ new /\
    List.length new <= List.length (candidates (subject_of options) targetPath w1) /\
    console w2 = console w1 ++
      progress (List.length (candidates (subject_of options) targetPath w1)) ++
      [summary (subject_of options) (formatVersion newVersion) (List.length new)
         (List.length (candidates (subject_of options) targetPath w1))] /\
    (forall first rest,
       candidates (subject_of options) targetPath w1 = first :: rest ->
       exists content more,
         fs w1 !! first = Some (File content) /\
         new = (first, spec_replace_all (subject_of options) (formatVersion newVersion)
                         content) :: more).
Proof.
  intros Vp Vo F Hp Hm newVersion members' w1 Hlt P' Hplain Hdollar Ht Hr.
  assert (Hnew : parseVersion (formatVersion newVersion) = Some newVersion).
  { destruct Hm as (content & s & _ & _ & _ & V).
    destruct (parseVersion_valid _ _ V) as (Hv & Hl & Na & Nb & Nc).
    apply parseVersion_formatVersion.
    - now apply adjustVersionPart_valid.
    - now apply adjustVersionPart_printable.
    - subst newVersion. unfold build_on_one_line, adjustVersionPart in *.
      destruct (direction_of options).
      + now destruct part.
      + destruct (0 <? get_part part version)%Z; [now destruct part | exact Hl]. }
  assert (E1 : exists w1', handleUpdateVersionPart part options w = (Ok tt, w1') /\
                 faults w1' = [] /\ cwd w1' = cwd w /\
                 fs w1' = <[packagePath :=
                              File (updated_manifest members (formatVersion newVersion))]>
                            (fs w)).
  { rewrite (handleUpdateVersionPart_run _ _ _ Vo).
    rewrite (resolveVersion_nofault _ _ _ _ _ F Hp Hm). cbv zeta.
    pose proof Hm as (content & s & Hc & P & _).
    set (w0 := log_event _ (log_event _ w)).
    rewrite (updatePackageVersion_nofault packagePath content w0 members
               (adjustVersionPart version part (direction_of options)) F Hc P).
    eexists. split; [reflexivity|]. repeat split. }
  destruct E1 as (w1' & E1 & F1 & Hc1 & Hf1).
  assert (Ew : w1 = w1') by (unfold w1; now rewrite E1).
  clearbody w1. subst w1'.
  assert (Hp1 : packagePath_of options w1 = Some packagePath)
    by (eapply packagePath_of_insert; [exact Hp | exact Hf1 | exact Hc1]).
  assert (Hm1 : manifest_holds w1 packagePath members' newVersion).
  { exists (updated_manifest members (formatVersion newVersion)),
      (formatVersion newVersion).
    rewrite Hf1, lookup_insert_eq. split_and!; try reflexivity.
    - exact P'.
    - apply lookup_assign_same.
    - exact Hnew. }
  destruct (handleCopyTo_nofault targetPath options w1 packagePath members' newVersion
              Vp Vo F1 Hp1 Hm1 Hplain Hdollar Ht Hr)
    as (w2 & new & E2 & Hw & Hl & Ho & Hfirst).
  exists w2, new. split; [exact E1|]. split; [exact E2|]. auto.
Qed.

End WorkflowLaws.
(* ================================================================== *)
(** ** The further laws at the scenarios *)
(* ================================================================== *)

Module LawScenarios.
Import Js Node Version Commands Utils ScenarioData IdempotenceFacts.
Import VersionLaws ManifestLaws HandlerLaws EngineLaws FileSizeLaws WorkflowLaws.

(** The parts of the versions of the scenarios are numbers that are
    printed in positional notation. *)
Local Ltac small_parts := repeat split; vm_compute; reflexivity.

Local Ltac valid_version := unfold valid; simpl; repeat split; try lia; discriminate.

(** The version read from a string with a leading zero is read back
    from its own text. *)
Lemma parse_format_parse_witness :
  parseVersion (formatVersion (mkVersion 1 2 3 (Some "rc.1")))
  = Some (mkVersion 1 2 3 (Some "rc.1")).
Proof.
  apply (parse_format_parse "01.2.3-rc.1"); vm_compute; reflexivity.
Defined.

(** A version and the same one with a build tag have different texts. *)
Lemma formatVersion_injective_witness :
  formatVersion (mkVersion 1 2 3 None) = formatVersion (mkVersion 1 2 3 (Some "rc.1"))
  <-> mkVersion 1 2 3 None = mkVersion 1 2 3 (Some "rc.1").
Proof.
  apply formatVersion_injective.
  - valid_version.
  - valid_version.
  - small_parts.
  - small_parts.
Defined.

(** Minor up and minor down on 1.2.3. *)
Lemma adjust_moves_in_order_witness :
  precedes (mkVersion 1 2 3 None) (adjustVersionPart (mkVersion 1 2 3 None) Minor Up) /\
  precedes (adjustVersionPart (mkVersion 1 2 3 None) Minor Down) (mkVersion 1 2 3 None).
Proof.
  apply (adjust_moves_in_order (mkVersion 1 2 3 None) Minor).
  split; [vm_compute; discriminate | vm_compute; reflexivity].
Defined.

(** Raising major after raising minor is raising major. *)
Lemma adjust_up_absorbs_witness :
  adjustVersionPart (adjustVersionPart (mkVersion 1 2 3 None) Minor Up) Major Up
  = adjustVersionPart (mkVersion 1 2 3 None) Major Up.
Proof. apply adjust_up_absorbs. reflexivity. Defined.

(** Major up and down again on 1.2.3 gives 1.0.0. *)
Lemma adjust_up_then_down_witness :
  adjustVersionPart (adjustVersionPart (mkVersion 1 2 3 None) Major Up) Major Down
  = mkVersion 1 0 0 None.
Proof.
  apply (adjust_up_then_down (mkVersion 1 2 3 None) Major).
  split; [vm_compute; discriminate | vm_compute; reflexivity].
Defined.

(** The manifest of the scenarios, set to 2.0.0 and read again. *)
Lemma update_then_read_witness :
  exists w' : World,
    @updatePackageVersion round_trip_platform "package.json" (mkVersion 2 0 0 None)
      (world (project "a" "b") []) = (Ok true, w') /\
    @readPackageVersion round_trip_platform "package.json" w'
    = (Ok (Some (mkVersion 2 0 0 None)), w').
Proof.
  apply (@update_then_read round_trip_platform "package.json" manifest_text
           manifest_members (mkVersion 2 0 0 None) (world (project "a" "b") [])).
  - valid_version.
  - small_parts.
  - reflexivity.
  - reflexivity.
  - reflexivity.
  - reflexivity.
  - reflexivity.
Defined.

(** No [package] option and no manifest in the working directory. *)
Lemma unusable_manifest_witness :
  @handleCopyTo scenario_platform "d" no_options (world (project "a" "b") [])
  = (Ok tt,
     log_event (ConsoleError "No package.json found. Please specify with --package option.")
               (world (project "a" "b") [])) /\
  @handleUpdateVersionPart scenario_platform Major no_options (world (project "a" "b") [])
  = (Ok tt,
     log_event (ConsoleError "No package.json found. Please specify with --package option.")
               (world (project "a" "b") [])).
Proof.
  apply (@unusable_manifest scenario_platform "d" Major no_options
           (world (project "a" "b") [])).
  - discriminate.
  - reflexivity.
  - reflexivity.
Defined.

(** Scenario 1 in full: major up on 1.2.3. *)
Lemma handleUpdateVersionPart_updates_witness :
  exists w' : World,
    @handleUpdateVersionPart scenario_platform Major (options_with None)
      (world (project "a" "b") []) = (Ok tt, w') /\
    fs w' = <["package.json" := File manifest_after]> (project "a" "b") /\
    writes w' = [("package.json", manifest_after)] /\
    console w' =
      [ConsoleInfo "Current version: 1.2.3";
       SpinnerStart "Updating major version up...";
       SpinnerSucceed "Successfully updated version from 1.2.3 to 2.0.0"].
Proof.
  apply (@handleUpdateVersionPart_updates scenario_platform Major (options_with None)
           (world (project "a" "b") []) "package.json" manifest_members
           (mkVersion 1 2 3 None)).
  - reflexivity.
  - reflexivity.
  - reflexivity.
  - exists manifest_text, "1.2.3". repeat split; reflexivity.
Defined.

(** Both flags of the direction at once, on major of 1.2.3: the version
    written is 0.2.3, and the progress line says down. *)
Lemma C10_direction_of_options_witness :
  direction_of up_and_down = Down /\
  exists w' : World,
    @handleUpdateVersionPart scenario_platform Major up_and_down
      (world (project "a" "b") []) = (Ok tt, w') /\
    writes w' = [("package.json", updated_manifest manifest_members "0.2.3")] /\
    console w' =
      [ConsoleInfo "Current version: 1.2.3";
       SpinnerStart "Updating major version down...";
       SpinnerSucceed "Successfully updated version from 1.2.3 to 0.2.3"].
Proof.
  destruct (@C10_direction_of_options scenario_platform Major up_and_down
              (world (project "a" "b") []) "package.json" manifest_members
              (mkVersion 1 2 3 None)) as (Hd & Hrun & _).
  - reflexivity.
  - reflexivity.
  - reflexivity.
  - exists manifest_text, "1.2.3". repeat split; reflexivity.
  - split; [exact Hd | exact Hrun].
Defined.

(** The file [d/a.txt] as the target: one write, one file of one. *)
Lemma handleCopyTo_rewrites_file_witness :
  exists w' : World,
    @handleCopyTo scenario_platform "d/a.txt" (options_with None)
      (world (project "v = __VERSION__" "nothing") []) = (Ok tt, w') /\
    writes w' = [("d/a.txt", "v = 1.2.3")] /\
    fs w' !! "d/a.txt" = Some (File "v = 1.2.3") /\
    console w' =
      [SpinnerStart "Finding files to update...";
       SpinnerText "Updating 1 files...";
       SpinnerSucceed "Updated 1 of 1 files with version 1.2.3"].
Proof.
  refine (@handleCopyTo_rewrites_file scenario_platform "d/a.txt" "v = __VERSION__"
            (options_with None) (world (project "v = __VERSION__" "nothing") [])
            "package.json" manifest_members (mkVersion 1 2 3 None) _ _ _ _ _ _ _ _).
  - discriminate.
  - reflexivity.
  - reflexivity.
  - reflexivity.
  - exists manifest_text, "1.2.3". repeat split; reflexivity.
  - reflexivity.
  - reflexivity.
  - reflexivity.
Defined.

(** Scenario 3: one of the two files below [d] holds the placeholder. *)
Lemma handleCopyTo_reports_candidates_witness :
  exists (w' : World) (new : list (string * string)),
    @handleCopyTo scenario_platform "d" (options_with None)
      (world (project "v = __VERSION__" "nothing") []) = (Ok tt, w') /\
    writes w' = new /\
    List.length new <= 1 /\
    console w' =
      [SpinnerStart "Finding files to update...";
       SpinnerText "Updating 1 files...";
       summary "__VERSION__" "1.2.3" (List.length new) 1] /\
    exists more, new = ("d/a.txt", "v = 1.2.3") :: more.
Proof.
  destruct (@handleCopyTo_reports_candidates scenario_platform "d" (options_with None)
              (world (project "v = __VERSION__" "nothing") []) "package.json"
              manifest_members (mkVersion 1 2 3 None))
    as (w' & new & E & Hw & Hl & Ho & Hfirst).
  - discriminate.
  - reflexivity.
  - reflexivity.
  - reflexivity.
  - exists manifest_text, "1.2.3". repeat split; reflexivity.
  - reflexivity.
  - reflexivity.
  - vm_compute. eexists. reflexivity.
  - apply readable_check. vm_compute. reflexivity.
  - assert (Hc : @candidates scenario_platform "__VERSION__" "d"
                   (world (project "v = __VERSION__" "nothing") []) = ["d/a.txt"])
      by (vm_compute; reflexivity).
    change (subject_of (options_with None)) with "__VERSION__" in *.
    rewrite Hc in Hl, Ho. exists w', new. split; [exact E|].
    split; [exact Hw|]. split; [exact Hl|]. split; [exact Ho|].
    destruct (Hfirst "d/a.txt" [] Hc) as (content & more & Hf & _ & Hn).
    vm_compute in Hf. injection Hf as <-. exists more. exact Hn.
Defined.

(** One and a half kilobytes. *)
Lemma formatFileSize_unit_witness : formatFileSize 1536 = "1.50 KB".
Proof.
  apply (formatFileSize_unit 1536 1).
  - lia.
  - right. lia.
  - right. reflexivity.
  - reflexivity.
Defined.

(** Five megabytes. *)
Lemma formatFileSize_whole_witness : formatFileSize (5 * 1024 ^ 2) = "5.00 MB".
Proof.
  apply (formatFileSize_whole 5 2).
  - lia.
  - lia.
  - right. lia.
  - right. lia.
  - reflexivity.
Defined.

(** Major up on 1.2.3, and then the copy into the files below [d]. *)
Lemma adjust_then_copy_witness :
  let w1 :=
    snd (@handleUpdateVersionPart round_trip_platform Major (options_with None)
           (world (project "v = __VERSION__" "nothing") [])) in
  exists (w2 : World) (new : list (string * string)),
    @handleUpdateVersionPart round_trip_platform Major (options_with None)
      (world (project "v = __VERSION__" "nothing") []) = (Ok tt, w1) /\
    @handleCopyTo round_trip_platform "d" (options_with None) w1 = (Ok tt, w2) /\
    writes w2 = writes w1 ++ new /\
    last (console w2)
    = Some (summary "__VERSION__" "2.0.0" (List.length new) 1) /\
    exists more, new = ("d/a.txt", "v = 2.0.0") :: more.
Proof.
  intros w1.
  destruct (@adjust_then_copy round_trip_platform Major "d" (options_with None)
              (world (project "v = __VERSION__" "nothing") []) "package.json"
              manifest_members (mkVersion 1 2 3 None))
    as (w2 & new & E1 & E2 & Hw & Hl & Ho & Hfirst).
  - discriminate.
  - reflexivity.
  - reflexivity.
  - reflexivity.
  - exists manifest_text, "1.2.3". repeat split; reflexivity.
  - intros p. destruct p; vm_compute; reflexivity.
  - reflexivity.
  - reflexivity.
  - reflexivity.
  - vm_compute. eexists. reflexivity.
  - apply readable_check. vm_compute. reflexivity.
  - fold w1 in E1, E2, Hw, Hl, Ho, Hfirst.
    assert (Hc : @candidates round_trip_platform "__VERSION__" "d" w1 = ["d/a.txt"])
      by (vm_compute; reflexivity).
    change (subject_of (options_with None)) with "__VERSION__" in *.
    rewrite Hc in Hl, Ho. exists w2, new. split; [exact E1|]. split; [exact E2|].
    split; [exact Hw|]. split.
    + rewrite Ho. rewrite app_assoc. apply last_snoc.
    + destruct (Hfirst "d/a.txt" [] Hc) as (content & more & Hf & Hn).
      vm_compute in Hf. injection Hf as <-. exists more. exact Hn.
Defined.

End LawScenarios.
